(** * FreeRTOS emulator graphics: draw-job queue, resource registries,
      sprite sheets and animation timing

    A shallow embedding of [gfx_draw.c] and [gfx_font.c].

    Conventions of the embedding:
    - C integers are [Z] with the conversion to the destination type
      written out ([to_uint], [to_int], [to_sshort], ...).  Signed
      arithmetic is two's complement (what gcc produces on the emulator's
      targets).
    - The three intrusive linked lists (job queue, loaded images, fonts)
      are Rocq lists holding the nodes behind the static sentinel head,
      in chain order.  Registry nodes carry their heap address, so that a
      job, a sprite sheet or [cur_default_font] can alias a node.
    - Execution is sequential: every [pthread_mutex_*] call succeeds and
      is not represented.
    - SDL, SDL_ttf and the allocator are the environment: their calls are
      logged in [trace] and their results come from the [backend] and
      [video] records and from [calloc_plan]. *)

From Stdlib Require Import ZArith List String Bool Lia.
Import ListNotations.
Local Open Scope Z_scope.

(** ** C integer types *)

Module CInt.

Definition to_uint (z : Z) : Z := z mod 2 ^ 32.
Definition to_int (z : Z) : Z := (z + 2 ^ 31) mod 2 ^ 32 - 2 ^ 31.
Definition to_sshort (z : Z) : Z := (z + 2 ^ 15) mod 2 ^ 16 - 2 ^ 15.
Definition to_uchar (z : Z) : Z := z mod 2 ^ 8.
Definition to_schar (z : Z) : Z := (z + 2 ^ 7) mod 2 ^ 8 - 2 ^ 7.

(** [int] arithmetic *)
Definition int_add (a b : Z) : Z := to_int (a + b).
Definition int_sub (a b : Z) : Z := to_int (a - b).
(** [unsigned] arithmetic *)
Definition uint_add (a b : Z) : Z := to_uint (a + b).
Definition uint_sub (a b : Z) : Z := to_uint (a - b).
Definition uint_mul (a b : Z) : Z := to_uint (a * b).

End CInt.
Import CInt.

(** ** Data model *)

Definition addr := Z.
Definition TTF_Font := Z.
Definition SDL_Texture := Z.
Definition SDL_Renderer := Z.
(** A C [float], carried as its IEEE-754 binary32 bit pattern; the
    embedding never computes with it. *)
Definition float := Z.
Definition float_one : float := 0x3f800000.

Inductive draw_job_type_t :=
| DRAW_NONE
| DRAW_CLEAR
| DRAW_ARC
| DRAW_ELLIPSE
| DRAW_TEXT
| DRAW_RECT
| DRAW_FILLED_RECT
| DRAW_CIRCLE
| DRAW_LINE
| DRAW_POLY
| DRAW_TRIANGLE
| DRAW_IMAGE
| DRAW_LOADED_IMAGE
| DRAW_LOADED_IMAGE_CROP
| DRAW_SCALED_IMAGE
| DRAW_ARROW.

Inductive sprite_sequence_direction :=
| SPRITE_SEQUENCE_HORIZONTAL_POS
| SPRITE_SEQUENCE_HORIZONTAL_NEG
| SPRITE_SEQUENCE_VERTICAL_POS
| SPRITE_SEQUENCE_VERTICAL_NEG.

Record coord_t := { coord_x : Z; coord_y : Z }.

Record loaded_image_t := {
  img_addr : addr;
  img_filename : string;
  img_tex : SDL_Texture;
  img_ops : Z;
  img_surf : Z;
  img_w : Z;
  img_h : Z;
  img_scale : float;
  img_ref_count : Z;
  img_pending_free : Z
}.

Record loaded_image_crop_t := {
  crop_image : option addr;
  crop_x : Z;
  crop_y : Z;
  crop_c_x : Z;
  crop_c_y : Z;
  crop_c_w : Z;
  crop_c_h : Z
}.

Record spritesheet_sequence_t := {
  seq_name : string;
  seq_start_row : Z;
  seq_start_col : Z;
  seq_direction : sprite_sequence_direction;
  seq_frames : Z
}.

Record spritesheet_t := {
  sheet_image : addr;
  sheet_x : Z;
  sheet_y : Z;
  sheet_width : Z;
  sheet_height : Z;
  sprite_width : Z;
  sprite_height : Z;
  sprite_cols : Z;
  sprite_rows : Z;
  padding_x : Z;
  padding_y : Z
}.

Record animated_image_t := {
  anim_spritesheet : spritesheet_t;
  anim_sequences : list spritesheet_sequence_t
}.

Record animated_sequence_instance_t := {
  frame_period_ms : Z;
  current_frame : Z;
  prev_frame_timestamp : Z;
  cur_frame_timestamp : Z;
  inst_image : animated_image_t;
  inst_sequence : spritesheet_sequence_t
}.

Record clear_data_t := { clear_colour : Z }.

Record arc_data_t := {
  arc_x : Z; arc_y : Z; arc_radius : Z; arc_start : Z; arc_end : Z;
  arc_colour : Z
}.

Record ellipse_data_t := {
  ellipse_x : Z; ellipse_y : Z; ellipse_rx : Z; ellipse_ry : Z;
  ellipse_colour : Z
}.

Record rect_data_t := {
  rect_x : Z; rect_y : Z; rect_w : Z; rect_h : Z; rect_colour : Z
}.

Record circle_data_t := {
  circle_x : Z; circle_y : Z; circle_radius : Z; circle_colour : Z
}.

Record line_data_t := {
  line_x1 : Z; line_y1 : Z; line_x2 : Z; line_y2 : Z;
  line_thickness : Z; line_colour : Z
}.

Record poly_data_t := {
  poly_points : option (list coord_t); poly_n : Z; poly_colour : Z
}.

Record triangle_data_t := {
  triangle_points : option (list coord_t); triangle_colour : Z
}.

Record image_data_t := {
  image_filename : option string;
  image_tex : option SDL_Texture;
  image_x : Z;
  image_y : Z
}.

Record loaded_image_data_t := {
  loaded_img : option addr; loaded_x : Z; loaded_y : Z
}.

Record scaled_image_data_t := {
  scaled_image : image_data_t; scaled_scale : float
}.

Record text_data_t := {
  text_str : option string;
  text_x : Z;
  text_y : Z;
  text_colour : Z;
  text_font : option TTF_Font
}.

Record arrow_data_t := {
  arrow_x1 : Z; arrow_y1 : Z; arrow_x2 : Z; arrow_y2 : Z;
  arrow_head_length : Z; arrow_thickness : Z; arrow_colour : Z
}.

(** [union data_u]: the member a draw function wrote. *)
Inductive data_u :=
| U_clear (d : clear_data_t)
| U_arc (d : arc_data_t)
| U_ellipse (d : ellipse_data_t)
| U_rect (d : rect_data_t)
| U_circle (d : circle_data_t)
| U_line (d : line_data_t)
| U_poly (d : poly_data_t)
| U_triangle (d : triangle_data_t)
| U_image (d : image_data_t)
| U_loaded_image (d : loaded_image_data_t)
| U_loaded_image_crop (d : loaded_image_crop_t)
| U_scaled_image (d : scaled_image_data_t)
| U_text (d : text_data_t)
| U_arrow (d : arrow_data_t).

Record draw_job_t := {
  job_type : draw_job_type_t;
  job_data : option data_u
}.

Record global_offsets := { offset_x : Z; offset_y : Z }.

(** [struct gfx_font_ref] and [struct gfx_font] of gfx_font.c *)
Record gfx_font_ref := {
  ref_font : option TTF_Font;
  ref_count : Z;
  pending_free : Z
}.

Record gfx_font := {
  font_addr : addr;
  font_path : option string;
  font_name : option string;
  font_ref : gfx_font_ref;
  font_size : Z
}.

(** ** Environment: SDL, SDL_ttf, the allocator *)

(** What the rendering thread asked of SDL and SDL_ttf, in call order.
    One event per static helper of gfx_draw.c, with the arguments as the
    helper receives them (that is, after conversion to its parameter
    types); for polygons and triangles, whose helpers add the offset
    themselves, the coordinates handed to SDL.  The events from
    [Ev_SDL_GL_MakeCurrent] on are the calls of [gfxDrawBindThread] and
    the [fclose] of [gfxDrawLoadScaledImage]. *)
Inductive event :=
| Ev_clearDisplay (colour : Z)
| Ev_drawRectangle (x y w h colour : Z)
| Ev_drawFilledRectangle (x y w h colour : Z)
| Ev_drawArc (x y radius start end_ colour : Z)
| Ev_drawEllipse (x y rx ry colour : Z)
| Ev_drawCircle (x y radius colour : Z)
| Ev_drawLine (x1 y1 x2 y2 thickness colour : Z)
| Ev_drawPoly (xs ys : list Z) (n colour : Z)
| Ev_drawTriangle (x0 y0 x1 y1 x2 y2 colour : Z)
| Ev_loadImage (filename : option string)
| Ev_drawScaledImage (tex : option SDL_Texture) (x y : Z) (scale : float)
| Ev_drawLoadedImage (tex : SDL_Texture) (x y w h : Z) (scale : float)
| Ev_drawLoadedImageCropped (tex : SDL_Texture) (x y c_x c_y c_w c_h : Z)
| Ev_RenderText (font : option TTF_Font) (str : option string) (colour : Z)
| Ev_CopyText (x y : Z)
| Ev_drawArrow (x1 y1 x2 y2 head_length thickness colour : Z)
| Ev_TTF_OpenFont (path : string) (size : Z) (result : option TTF_Font)
| Ev_TTF_CloseFont (font : option TTF_Font)
| Ev_SDL_FreeSurface (surf : Z)
| Ev_SDL_RWclose (ops : Z)
| Ev_SDL_DestroyTexture (tex : SDL_Texture)
| Ev_RenderPresent
| Ev_SDL_GL_MakeCurrent
| Ev_SDL_DestroyRenderer (ren : SDL_Renderer)
| Ev_SDL_SetRenderDrawColor (ren : SDL_Renderer) (r g b a : Z)
| Ev_SDL_RenderClear (ren : SDL_Renderer)
| Ev_SDL_DestroyWindow
| Ev_SDL_GL_DeleteContext
| Ev_TTF_Quit
| Ev_SDL_Quit
| Ev_fclose (file : Z).

(** Result of rendering a string to measure it ([_getTextSize]). *)
Inductive text_render :=
| RenderSurfaceFailed
| RenderTextureFailed
| RenderQueryFailed
| RenderSize (w h : Z).

Record backend := {
  (** [fonts_dir] as [gfxFontInit] computes it, and the macros of
      gfx_font.h *)
  fonts_dir : string;
  MAX_FONT_NAME_LENGTH : Z;
  DEFAULT_FONT : string;
  DEFAULT_FONT_SIZE : Z;
  (** does [TTF_OpenFont path size] succeed *)
  TTF_OpenFont_ok : string -> Z -> bool;
  (** [TTF_RenderText_Solid], [SDL_CreateTextureFromSurface] and
      [SDL_QueryTexture] of [_getTextSize] *)
  TTF_text_size : option TTF_Font -> string -> text_render;
  IMG_LoadTexture : option string -> option SDL_Texture;
  realpath : string -> option string;
  (** value returned by the SDL drawing call behind an event *)
  render_rc : event -> Z;
  (** [gfxUtilIsCurGLThread ()] once [gfxDrawBindThread] has run *)
  is_cur_gl_thread : bool;
  (** the frame-rate gate of [gfxDrawUpdateScreen]: [true] when
      [configFPS_LIMIT] is off or the frame period has elapsed *)
  frame_period_elapsed : bool
}.

(** ** Program state: the globals of both files, the heap bookkeeping and
    the environment *)

Record state := {
  (** gfx_draw.c: nodes behind [job_list_head] *)
  job_list : list draw_job_t;
  global_offset : global_offsets;
  (** gfx_draw.c: nodes behind [loaded_images_list] *)
  loaded_images_list : list loaded_image_t;
  (** gfx_font.c: the static sentinel [font_list] and the nodes behind it *)
  font_list : gfx_font;
  font_list_next : list gfx_font;
  cur_default_font : option addr;
  (** registry nodes handed back to [free] *)
  freed : list addr;
  next_addr : addr;
  next_ttf : TTF_Font;
  (** outcome of the coming [calloc]/[strdup] calls, oldest first; an
      exhausted plan means the allocation succeeds *)
  calloc_plan : list bool;
  trace : list event;
  env : backend
}.

Definition set_job_list (q : list draw_job_t) (s : state) : state :=
  {| job_list := q; global_offset := global_offset s;
     loaded_images_list := loaded_images_list s; font_list := font_list s;
     font_list_next := font_list_next s;
     cur_default_font := cur_default_font s; freed := freed s;
     next_addr := next_addr s; next_ttf := next_ttf s;
     calloc_plan := calloc_plan s; trace := trace s; env := env s |}.

Definition set_global_offset (o : global_offsets) (s : state) : state :=
  {| job_list := job_list s; global_offset := o;
     loaded_images_list := loaded_images_list s; font_list := font_list s;
     font_list_next := font_list_next s;
     cur_default_font := cur_default_font s; freed := freed s;
     next_addr := next_addr s; next_ttf := next_ttf s;
     calloc_plan := calloc_plan s; trace := trace s; env := env s |}.

Definition set_loaded_images_list (l : list loaded_image_t) (s : state)
  : state :=
  {| job_list := job_list s; global_offset := global_offset s;
     loaded_images_list := l; font_list := font_list s;
     font_list_next := font_list_next s;
     cur_default_font := cur_default_font s; freed := freed s;
     next_addr := next_addr s; next_ttf := next_ttf s;
     calloc_plan := calloc_plan s; trace := trace s; env := env s |}.

Definition set_font_list (f : gfx_font) (s : state) : state :=
  {| job_list := job_list s; global_offset := global_offset s;
     loaded_images_list := loaded_images_list s; font_list := f;
     font_list_next := font_list_next s;
     cur_default_font := cur_default_font s; freed := freed s;
     next_addr := next_addr s; next_ttf := next_ttf s;
     calloc_plan := calloc_plan s; trace := trace s; env := env s |}.

Definition set_font_list_next (l : list gfx_font) (s : state) : state :=
  {| job_list := job_list s; global_offset := global_offset s;
     loaded_images_list := loaded_images_list s; font_list := font_list s;
     font_list_next := l;
     cur_default_font := cur_default_font s; freed := freed s;
     next_addr := next_addr s; next_ttf := next_ttf s;
     calloc_plan := calloc_plan s; trace := trace s; env := env s |}.

Definition set_cur_default_font (c : option addr) (s : state) : state :=
  {| job_list := job_list s; global_offset := global_offset s;
     loaded_images_list := loaded_images_list s; font_list := font_list s;
     font_list_next := font_list_next s;
     cur_default_font := c; freed := freed s;
     next_addr := next_addr s; next_ttf := next_ttf s;
     calloc_plan := calloc_plan s; trace := trace s; env := env s |}.

Definition set_freed (l : list addr) (s : state) : state :=
  {| job_list := job_list s; global_offset := global_offset s;
     loaded_images_list := loaded_images_list s; font_list := font_list s;
     font_list_next := font_list_next s;
     cur_default_font := cur_default_font s; freed := l;
     next_addr := next_addr s; next_ttf := next_ttf s;
     calloc_plan := calloc_plan s; trace := trace s; env := env s |}.

Definition set_next_addr (a : addr) (s : state) : state :=
  {| job_list := job_list s; global_offset := global_offset s;
     loaded_images_list := loaded_images_list s; font_list := font_list s;
     font_list_next := font_list_next s;
     cur_default_font := cur_default_font s; freed := freed s;
     next_addr := a; next_ttf := next_ttf s;
     calloc_plan := calloc_plan s; trace := trace s; env := env s |}.

Definition set_next_ttf (t : TTF_Font) (s : state) : state :=
  {| job_list := job_list s; global_offset := global_offset s;
     loaded_images_list := loaded_images_list s; font_list := font_list s;
     font_list_next := font_list_next s;
     cur_default_font := cur_default_font s; freed := freed s;
     next_addr := next_addr s; next_ttf := t;
     calloc_plan := calloc_plan s; trace := trace s; env := env s |}.

Definition set_calloc_plan (p : list bool) (s : state) : state :=
  {| job_list := job_list s; global_offset := global_offset s;
     loaded_images_list := loaded_images_list s; font_list := font_list s;
     font_list_next := font_list_next s;
     cur_default_font := cur_default_font s; freed := freed s;
     next_addr := next_addr s; next_ttf := next_ttf s;
     calloc_plan := p; trace := trace s; env := env s |}.

Definition set_trace (t : list event) (s : state) : state :=
  {| job_list := job_list s; global_offset := global_offset s;
     loaded_images_list := loaded_images_list s; font_list := font_list s;
     font_list_next := font_list_next s;
     cur_default_font := cur_default_font s; freed := freed s;
     next_addr := next_addr s; next_ttf := next_ttf s;
     calloc_plan := calloc_plan s; trace := t; env := env s |}.

Definition log (e : event) (s : state) : state :=
  set_trace (trace s ++ [e]) s.

(** ** Outcomes of a call *)

Inductive fault :=
| NullDereference
| UseAfterFree
| OutOfBounds
| DivisionByZero
| UnionMemberMismatch
| FreeOfStaticObject
| LoopFuelExhausted.

(** A call returns a value in a new state, terminates the process
    ([exit]), or has undefined behaviour. *)
Inductive outcome (A : Type) : Type :=
| Ret (a : A) (s : state)
| Exit (code : Z)
| Fault (f : fault).
Arguments Ret {A} a s.
Arguments Exit {A} code.
Arguments Fault {A} f.

Definition bind {A B : Type} (m : outcome A) (k : A -> state -> outcome B)
  : outcome B :=
  match m with
  | Ret a s => k a s
  | Exit c => Exit c
  | Fault f => Fault f
  end.

Notation "'call' x , s <- m ;; k" := (bind m (fun x s => k))
  (at level 10, x name, s name, m at level 100, k at level 200).

(** [calloc] / [strdup]: consumes one entry of the plan. *)
Definition calloc (s : state) : bool * state :=
  match calloc_plan s with
  | [] => (true, s)
  | ok :: plan => (ok, set_calloc_plan plan s)
  end.

(** [calloc] of a registry node: on success the node gets a fresh
    address. *)
Definition calloc_node (s : state) : option addr * state :=
  let (ok, s1) := calloc s in
  if ok then (Some (next_addr s1), set_next_addr (next_addr s1 + 1) s1)
  else (None, s1).

(** ** gfx_font.c: the font registry *)

Definition strlen (str : string) : Z := Z.of_nat (String.length str).

(** [&font_list]; heap nodes have addresses from 1 upwards. *)
Definition font_list_addr : addr := 0.

Definition is_freed (a : addr) (fr : list addr) : bool :=
  existsb (Z.eqb a) fr.

Definition free_node (a : addr) (s : state) : state :=
  set_freed (a :: freed s) s.

Fixpoint find_font (a : addr) (l : list gfx_font) : option gfx_font :=
  match l with
  | [] => None
  | f :: l' => if font_addr f =? a then Some f else find_font a l'
  end.

Fixpoint update_font (f : gfx_font) (l : list gfx_font) : list gfx_font :=
  match l with
  | [] => []
  | g :: l' =>
      if font_addr g =? font_addr f then f :: l'
      else g :: update_font f l'
  end.

(** Reading through a [struct gfx_font *]: [None] when the pointer
    dangles. *)
Definition load_font (a : addr) (s : state) : option gfx_font :=
  if a =? font_list_addr then Some (font_list s)
  else if is_freed a (freed s) then None
  else find_font a (font_list_next s).

(** Writing through a [struct gfx_font *] that [load_font] resolved. *)
Definition store_font (f : gfx_font) (s : state) : state :=
  if font_addr f =? font_list_addr then set_font_list f s
  else set_font_list_next (update_font f (font_list_next s)) s.

Definition set_ref (r : gfx_font_ref) (f : gfx_font) : gfx_font :=
  {| font_addr := font_addr f; font_path := font_path f;
     font_name := font_name f; font_ref := r; font_size := font_size f |}.

Definition set_ref_count (n : Z) (f : gfx_font) : gfx_font :=
  set_ref {| ref_font := ref_font (font_ref f); ref_count := n;
             pending_free := pending_free (font_ref f) |} f.

Definition set_pending_free (n : Z) (f : gfx_font) : gfx_font :=
  set_ref {| ref_font := ref_font (font_ref f);
             ref_count := ref_count (font_ref f); pending_free := n |} f.

Definition _getFontPath (name : option string) (s : state)
  : outcome (option string) :=
  match name with
  | None => Fault NullDereference
  | Some font_name =>
      let font_dir_len := strlen (fonts_dir (env s)) in
      let font_len := strlen font_name in
      if font_dir_len + strlen font_name >? MAX_FONT_NAME_LENGTH (env s)
      then Ret None s
      else
        let (ok, s1) := calloc s in
        if ok then Ret (Some (fonts_dir (env s) ++ font_name)%string) s1
        else Ret None s1
  end.

Definition _loadFont (name : option string) (size : Z) (s : state)
  : outcome (option gfx_font) :=
  match calloc_node s with
  | (None, s1) => Ret None s1
  | (Some a, s1) =>
      call path, s2 <- _getFontPath name s1 ;;
      match path with
      | None => Ret None (free_node a s2)
      | Some p =>
          let sz := to_uint size in
          if TTF_OpenFont_ok (env s2) p (to_int sz) then
            let h := next_ttf s2 in
            Ret (Some {| font_addr := a; font_path := Some p;
                         font_name := name;
                         font_ref := {| ref_font := Some h; ref_count := 0;
                                        pending_free := 0 |};
                         font_size := sz |})
                (log (Ev_TTF_OpenFont p (to_int sz) (Some h))
                     (set_next_ttf (h + 1) s2))
          else
            Ret None (free_node a (log (Ev_TTF_OpenFont p (to_int sz) None)
                                        s2))
      end
  end.

Definition gfxFontInit (s : state) : outcome Z :=
  call f, s1 <- _loadFont (Some (DEFAULT_FONT (env s)))
                          (DEFAULT_FONT_SIZE (env s)) s ;;
  match f with
  | None => Ret (-1) (set_font_list_next [] s1)
  | Some f =>
      Ret 0 (set_cur_default_font (Some (font_addr f))
               (set_font_list_next [f] s1))
  end.

Definition gfxFontDeleteFont (font : gfx_font) (s : state) : outcome unit :=
  if font_addr font =? font_list_addr then Fault FreeOfStaticObject
  else Ret tt (free_node (font_addr font)
                 (log (Ev_TTF_CloseFont (ref_font (font_ref font))) s)).

(** The loop shared, word for word, by [gfxFontPutFontHandle] and
    [gfxFontPutFont]; only the test that selects the entry differs.
    [PutHit chain' deleted]: the chain after the call and the entry handed
    to [gfxFontDeleteFont], if any. *)
Inductive put_result :=
| PutMiss
| PutDangling
| PutHit (chain' : list gfx_font) (deleted : option gfx_font).

Definition put_ref (f : gfx_font) : gfx_font :=
  set_ref_count (to_uint (ref_count (font_ref f) - 1)) f.

Definition put_deletes (f : gfx_font) : bool :=
  (ref_count (font_ref f) =? 0) && negb (pending_free (font_ref f) =? 0).

Fixpoint put_walk (test : gfx_font -> bool) (fr : list addr)
  (chain : list gfx_font) : put_result :=
  match chain with
  | [] => PutMiss
  | it :: rest =>
      if is_freed (font_addr it) fr then PutDangling
      else if test it then
        let it' := put_ref it in
        if put_deletes it' then
          match rest with
          | [] => PutHit [it'] (Some it')
          | _ :: _ => PutHit rest (Some it')
          end
        else PutHit (it' :: rest) None
      else
        match put_walk test fr rest with
        | PutHit rest' d => PutHit (it :: rest') d
        | r => r
        end
  end.

Definition put_font (test : gfx_font -> bool) (s : state) : outcome unit :=
  if test (font_list s) then
    let it' := put_ref (font_list s) in
    let s1 := set_font_list it' s in
    if put_deletes it' then gfxFontDeleteFont it' s1 else Ret tt s1
  else
    match put_walk test (freed s) (font_list_next s) with
    | PutMiss => Ret tt s
    | PutDangling => Fault UseAfterFree
    | PutHit chain' None => Ret tt (set_font_list_next chain' s)
    | PutHit chain' (Some d) =>
        gfxFontDeleteFont d (set_font_list_next chain' s)
    end.

Definition gfxFontPutFontHandle (font : option addr) (s : state)
  : outcome unit :=
  put_font (fun it => match font with
                      | Some a => font_addr it =? a
                      | None => false
                      end) s.

Definition option_Z_eqb (a b : option Z) : bool :=
  match a, b with
  | Some x, Some y => x =? y
  | None, None => true
  | _, _ => false
  end.

Definition gfxFontPutFont (font : option TTF_Font) (s : state)
  : outcome unit :=
  put_font (fun it => option_Z_eqb (ref_font (font_ref it)) font) s.

Definition get_cur_font (s : state) : outcome gfx_font :=
  match cur_default_font s with
  | None => Fault NullDereference
  | Some a =>
      match load_font a s with
      | None => Fault UseAfterFree
      | Some f =>
          let f' := set_ref_count (to_uint (ref_count (font_ref f) + 1)) f in
          Ret f' (store_font f' s)
      end
  end.

Definition gfxFontGetCurFont (s : state) : outcome (option TTF_Font) :=
  call f, s1 <- get_cur_font s ;; Ret (ref_font (font_ref f)) s1.

Definition gfxFontGetCurFontHandle (s : state) : outcome (option addr) :=
  call f, s1 <- get_cur_font s ;; Ret (Some (font_addr f)) s1.

Definition chain_live (s : state) : bool :=
  forallb (fun f => negb (is_freed (font_addr f) (freed s)))
          (font_list_next s).

Definition _appendFont (name : option string) (size : Z) (s : state)
  : outcome (option addr) :=
  if chain_live s then
    call f, s1 <- _loadFont name size s ;;
    match f with
    | None => Ret None s1
    | Some f =>
        Ret (Some (font_addr f))
            (set_font_list_next (font_list_next s1 ++ [f]) s1)
    end
  else Fault UseAfterFree.

Definition gfxFontLoadFont (name : option string) (size : Z) (s : state)
  : outcome Z :=
  call r, s1 <- _appendFont name
                  (if size =? 0 then DEFAULT_FONT_SIZE (env s) else size) s ;;
  match r with
  | None => Ret (-1) s1
  | Some _ => Ret 0 s1
  end.

(** First node from the sentinel on that passes [test]; following the
    chain through a freed node is a fault. *)
Inductive walk_result :=
| WalkEnd
| WalkDangling
| WalkAt (f : gfx_font).

Fixpoint walk_find (test : gfx_font -> bool) (fr : list addr)
  (chain : list gfx_font) : walk_result :=
  match chain with
  | [] => WalkEnd
  | it :: rest =>
      if is_freed (font_addr it) fr then WalkDangling
      else if test it then WalkAt it
      else walk_find test fr rest
  end.

Definition select_font (test : gfx_font -> bool) (s : state) : outcome Z :=
  if test (font_list s) then
    Ret 0 (set_cur_default_font (Some (font_addr (font_list s))) s)
  else
    match walk_find test (freed s) (font_list_next s) with
    | WalkEnd => Ret (-1) s
    | WalkDangling => Fault UseAfterFree
    | WalkAt it => Ret 0 (set_cur_default_font (Some (font_addr it)) s)
    end.

Definition gfxFontSelectFontFromName (name : string) (s : state)
  : outcome Z :=
  select_font (fun it => match font_name it with
                         | Some n => String.eqb n name
                         | None => false
                         end) s.

Definition gfxFontSelectFontFromHandle (font_handle : option addr)
  (s : state) : outcome Z :=
  select_font (fun it => match font_handle with
                         | Some a => font_addr it =? a
                         | None => false
                         end) s.

Definition set_font_and_size (h : option TTF_Font) (size : Z) (f : gfx_font)
  : gfx_font :=
  {| font_addr := font_addr f; font_path := font_path f;
     font_name := font_name f;
     font_ref := {| ref_font := h; ref_count := ref_count (font_ref f);
                    pending_free := pending_free (font_ref f) |};
     font_size := size |}.

Definition gfxFontSetSize (size : Z) (s : state) : outcome Z :=
  match cur_default_font s with
  | None => Ret (-1) s
  | Some a =>
      match load_font a s with
      | None => Fault UseAfterFree
      | Some cur =>
          if font_size cur =? size then Ret 0 s
          else if ref_count (font_ref cur) =? 0 then
            let s1 := log (Ev_TTF_CloseFont (ref_font (font_ref cur))) s in
            match font_path cur with
            | None => Ret (-1) s1 (* [TTF_OpenFont (NULL, _)] fails *)
            | Some p =>
                if TTF_OpenFont_ok (env s1) p (to_int size) then
                  let h := next_ttf s1 in
                  Ret 0 (store_font
                           (set_font_and_size (Some h) (to_uint size) cur)
                           (log (Ev_TTF_OpenFont p (to_int size) (Some h))
                                (set_next_ttf (h + 1) s1)))
                else Ret (-1) (log (Ev_TTF_OpenFont p (to_int size) None) s1)
            end
          else
            let s1 := store_font (set_pending_free 1 cur) s in
            call r, s2 <- _appendFont (font_name cur) size s1 ;;
            match r with
            | None => Ret (-1) (set_cur_default_font None s2)
            | Some a' => Ret 0 (set_cur_default_font (Some a') s2)
            end
      end
  end.

(** The [while (iterator)] loop of [gfxFontExit]: [iterator->next] is
    read before the node is deleted. *)
Fixpoint delete_fonts (chain : list gfx_font) (s : state) : outcome unit :=
  match chain with
  | [] => Ret tt s
  | delete :: rest =>
      if is_freed (font_addr delete) (freed s) then Fault UseAfterFree
      else
        call _u, s1 <- gfxFontDeleteFont delete s ;;
        delete_fonts rest s1
  end.

(** Neither [font_list.next] nor [cur_default_font] is written. *)
Definition gfxFontExit (s : state) : outcome unit :=
  delete_fonts (font_list_next s) s.

Definition gfxFontGetCurFontSize (s : state) : outcome Z :=
  match cur_default_font s with
  | None => Fault NullDereference
  | Some a =>
      match load_font a s with
      | None => Fault UseAfterFree
      | Some f => Ret (font_size f) s
      end
  end.

(** [strdup (cur_default_font->name)]: [None] when the copy cannot be
    allocated. *)
Definition gfxFontGetCurFontName (s : state) : outcome (option string) :=
  match cur_default_font s with
  | None => Fault NullDereference
  | Some a =>
      match load_font a s with
      | None => Fault UseAfterFree
      | Some f =>
          match font_name f with
          | None => Fault NullDereference
          | Some n =>
              let (ok, s1) := calloc s in
              Ret (if ok then Some n else None) s1
          end
      end
  end.

(** ** gfx_draw.c: the draw-job queue *)

Definition empty_job : draw_job_t :=
  {| job_type := DRAW_NONE; job_data := None |}.

Definition _pushDrawJob (s : state) : bool * state :=
  let (ok, s1) := calloc s in
  if ok then (true, set_job_list (job_list s1 ++ [empty_job]) s1)
  else (false, s1).

Definition _waitingDrawJobs (s : state) : Z :=
  match job_list s with
  | [] => 0
  | _ :: _ => 1
  end.

Definition popDrawJob (s : state) : option draw_job_t * state :=
  match job_list s with
  | [] => (None, s)
  | ret :: next => (Some ret, set_job_list next s)
  end.

(** The job a draw function holds is the node [_pushDrawJob] linked last;
    writing through [job] updates that node in place. *)
Fixpoint update_last {A : Type} (f : A -> A) (l : list A) : list A :=
  match l with
  | [] => []
  | [x] => [f x]
  | x :: l' => x :: update_last f l'
  end.

Definition set_job (j : draw_job_t) (s : state) : state :=
  set_job_list (update_last (fun _ => j) (job_list s)) s.

Definition zero_image : image_data_t :=
  {| image_filename := None; image_tex := None; image_x := 0; image_y := 0 |}.

(** The zero-filled union [calloc] returns, seen through the member that
    belongs to the job type. *)
Definition zero_data (t : draw_job_type_t) : data_u :=
  match t with
  | DRAW_NONE | DRAW_CLEAR => U_clear {| clear_colour := 0 |}
  | DRAW_ARC =>
      U_arc {| arc_x := 0; arc_y := 0; arc_radius := 0; arc_start := 0;
               arc_end := 0; arc_colour := 0 |}
  | DRAW_ELLIPSE =>
      U_ellipse {| ellipse_x := 0; ellipse_y := 0; ellipse_rx := 0;
                   ellipse_ry := 0; ellipse_colour := 0 |}
  | DRAW_TEXT =>
      U_text {| text_str := None; text_x := 0; text_y := 0;
                text_colour := 0; text_font := None |}
  | DRAW_RECT | DRAW_FILLED_RECT =>
      U_rect {| rect_x := 0; rect_y := 0; rect_w := 0; rect_h := 0;
                rect_colour := 0 |}
  | DRAW_CIRCLE =>
      U_circle {| circle_x := 0; circle_y := 0; circle_radius := 0;
                  circle_colour := 0 |}
  | DRAW_LINE =>
      U_line {| line_x1 := 0; line_y1 := 0; line_x2 := 0; line_y2 := 0;
                line_thickness := 0; line_colour := 0 |}
  | DRAW_POLY =>
      U_poly {| poly_points := None; poly_n := 0; poly_colour := 0 |}
  | DRAW_TRIANGLE =>
      U_triangle {| triangle_points := None; triangle_colour := 0 |}
  | DRAW_IMAGE => U_image zero_image
  | DRAW_LOADED_IMAGE =>
      U_loaded_image {| loaded_img := None; loaded_x := 0; loaded_y := 0 |}
  | DRAW_LOADED_IMAGE_CROP =>
      U_loaded_image_crop
        {| crop_image := None; crop_x := 0; crop_y := 0; crop_c_x := 0;
           crop_c_y := 0; crop_c_w := 0; crop_c_h := 0 |}
  | DRAW_SCALED_IMAGE =>
      U_scaled_image {| scaled_image := zero_image; scaled_scale := 0 |}
  | DRAW_ARROW =>
      U_arrow {| arrow_x1 := 0; arrow_y1 := 0; arrow_x2 := 0; arrow_y2 := 0;
                 arrow_head_length := 0; arrow_thickness := 0;
                 arrow_colour := 0 |}
  end.

Definition logCriticalError {A : Type} : outcome A := Exit (-1).

(** The macro [INIT_JOB]: [Ret false] stands for its [return -1] out of
    the enclosing function. *)
Definition INIT_JOB (TYPE : draw_job_type_t) (s : state) : outcome bool :=
  match _pushDrawJob s with
  | (false, s1) => Ret false s1
  | (true, s1) =>
      let (ok, s2) := calloc s1 in
      if ok then
        Ret true (set_job {| job_type := TYPE;
                             job_data := Some (zero_data TYPE) |} s2)
      else logCriticalError
  end.

(** [job->data-><member> = ...]: the assignments of one draw function,
    taken together. *)
Definition write_job (TYPE : draw_job_type_t) (d : data_u) (s : state)
  : state :=
  set_job {| job_type := TYPE; job_data := Some d |} s.

(** ** gfx_draw.c: loaded images *)

Fixpoint find_image (a : addr) (l : list loaded_image_t)
  : option loaded_image_t :=
  match l with
  | [] => None
  | i :: l' => if img_addr i =? a then Some i else find_image a l'
  end.

Fixpoint update_image (i : loaded_image_t) (l : list loaded_image_t)
  : list loaded_image_t :=
  match l with
  | [] => []
  | j :: l' =>
      if img_addr j =? img_addr i then i :: l' else j :: update_image i l'
  end.

Fixpoint unlink_image (a : addr) (l : list loaded_image_t)
  : list loaded_image_t :=
  match l with
  | [] => []
  | i :: l' => if img_addr i =? a then l' else i :: unlink_image a l'
  end.

Definition set_img_counts (rc pf : Z) (i : loaded_image_t) : loaded_image_t :=
  {| img_addr := img_addr i; img_filename := img_filename i;
     img_tex := img_tex i; img_ops := img_ops i; img_surf := img_surf i;
     img_w := img_w i; img_h := img_h i; img_scale := img_scale i;
     img_ref_count := rc; img_pending_free := pf |}.

(** Reading through a [loaded_image_t *]. *)
Definition load_image (p : option addr) (s : state)
  : outcome loaded_image_t :=
  match p with
  | None => Fault NullDereference
  | Some a =>
      match find_image a (loaded_images_list s) with
      | None => Fault UseAfterFree
      | Some i => Ret i s
      end
  end.

Definition store_image (i : loaded_image_t) (s : state) : state :=
  set_loaded_images_list (update_image i (loaded_images_list s)) s.

(** [freeLoadedImage (&img)]: returns [ret] and the value left in [img]. *)
Definition freeLoadedImage (img : option addr) (s : state)
  : outcome (Z * option addr) :=
  match img with
  | None => Fault NullDereference
  | Some a =>
      match find_image a (loaded_images_list s) with
      | None => Ret (-1, Some a) s
      | Some delete =>
          let s1 := set_loaded_images_list
                      (unlink_image a (loaded_images_list s)) s in
          let s2 := log (Ev_SDL_DestroyTexture (img_tex delete))
                      (log (Ev_SDL_RWclose (img_ops delete))
                         (log (Ev_SDL_FreeSurface (img_surf delete)) s1)) in
          Ret (0, None) (free_node a s2)
      end
  end.

Definition vPutLoadedImage (img : option addr) (s : state) : outcome unit :=
  call i, s1 <- load_image img s ;;
  let i' := set_img_counts (to_uint (img_ref_count i - 1))
                           (img_pending_free i) i in
  let s2 := store_image i' s1 in
  if negb (img_pending_free i' =? 0) && (img_ref_count i' =? 0) then
    call _r, s3 <- freeLoadedImage img s2 ;; Ret tt s3
  else Ret tt s2.

(** [gfxDrawFreeLoadedImage (&img)]: returns [ret] and the value left in
    the caller's handle. *)
Definition gfxDrawFreeLoadedImage (img : option addr) (s : state)
  : outcome (Z * option addr) :=
  call i, s1 <- load_image img s ;;
  if img_ref_count i =? 0 then freeLoadedImage img s1
  else
    Ret (0, img)
        (store_image (set_img_counts (img_ref_count i) 1 i) s1).

Definition set_img_scale (scale : float) (i : loaded_image_t)
  : loaded_image_t :=
  {| img_addr := img_addr i; img_filename := img_filename i;
     img_tex := img_tex i; img_ops := img_ops i; img_surf := img_surf i;
     img_w := img_w i; img_h := img_h i; img_scale := scale;
     img_ref_count := img_ref_count i;
     img_pending_free := img_pending_free i |}.

Definition gfxDrawSetLoadedImageScale (img : option addr) (scale : float)
  (s : state) : outcome Z :=
  match img with
  | None => Ret (-1) s
  | Some _ =>
      call i, s1 <- load_image img s ;;
      Ret 0 (store_image (set_img_scale scale i) s1)
  end.

(** The [float] [-1]. *)
Definition float_minus_one : float := 0xbf800000.

Definition gfxDrawGetLoadedImageScale (img : option addr) (s : state)
  : outcome float :=
  match img with
  | None => Ret float_minus_one s
  | Some _ => call i, s1 <- load_image img s ;; Ret (img_scale i) s1
  end.

(** ** gfx_draw.c: colours *)

Definition ONE_BYTE : Z := 8.
Definition TWO_BYTES : Z := 16.
Definition THREE_BYTES : Z := 24.
Definition ALPHA_SOLID : Z := 255.
Definition FIRST_BYTE : Z := 0x000000ff.
Definition SECOND_BYTE : Z := 0x0000ff00.
Definition THIRD_BYTE : Z := 0x00ff0000.
Definition FOURTH_BYTE : Z := 0xff000000.

Definition RED_PORTION (COLOUR : Z) : Z :=
  Z.shiftr (Z.land COLOUR 0xFF0000) TWO_BYTES.
Definition GREEN_PORTION (COLOUR : Z) : Z :=
  Z.shiftr (Z.land COLOUR 0x00FF00) ONE_BYTE.
Definition BLUE_PORTION (COLOUR : Z) : Z := Z.land COLOUR 0x0000FF.

(** [x] is an [unsigned int]; the shifts to the left and the sum are
    taken modulo [2 ^ 32]. *)
Definition swapBytes (x : Z) : Z :=
  let x := to_uint x in
  uint_add
    (uint_add
       (uint_add (to_uint (Z.shiftl (Z.land x FIRST_BYTE) THREE_BYTES))
                 (to_uint (Z.shiftl (Z.land x SECOND_BYTE) ONE_BYTE)))
       (Z.shiftr (Z.land x THIRD_BYTE) ONE_BYTE))
    (Z.shiftr (Z.land x FOURTH_BYTE) THREE_BYTES).

(** [swapBytes ((colour << ONE_BYTE) | ALPHA_SOLID)], the colour the
    helpers with an [unsigned int colour] hand to SDL2_gfx. *)
Definition gfx_colour (colour : Z) : Z :=
  swapBytes (Z.lor (to_uint (Z.shiftl (to_uint colour) ONE_BYTE))
                   ALPHA_SOLID).

(** The same expression in [_drawPoly], whose [colour] is a
    [signed short]: the shift is done on the promoted [int]. *)
Definition gfx_colour_short (colour : Z) : Z :=
  swapBytes (Z.lor (to_int (Z.shiftl (to_sshort colour) ONE_BYTE))
                   ALPHA_SOLID).

(** ** gfx_draw.c: the rendering context and [gfxDrawLoadScaledImage] *)

Definition MAX_8_BIT : Z := 255.

(** The static [renderer], and what [gfxUtilIsCurGLThread ()] answers to
    the calling thread: gfx_utils keeps the thread that called
    [gfxUtilSetGLThread ()] last.  ([is_cur_gl_thread] of the environment
    is the answer [gfxDrawUpdateScreen] gets after its own call of
    [gfxDrawBindThread].) *)
Record gl_binding := {
  renderer : option SDL_Renderer;
  cur_gl_thread : bool
}.

(** How far the file system, SDL and SDL_image let
    [gfxDrawLoadScaledImage] get with a file name, up to the decoded
    surface: the three calls that can fail, in order, with the objects
    made on the way. *)
Inductive image_file :=
| FileMissing                              (* [gfxUtilFindResource] *)
| RWopsFailed (file : Z)                   (* [SDL_RWFromFP] *)
| DecodeFailed (file ops : Z)              (* [IMG_Load_RW] *)
| Decoded (file ops surf : Z).

(** What SDL and the file system answer to [gfxDrawBindThread] and
    [gfxDrawLoadScaledImage].  The calls that only make or read an
    object are not logged in [trace]: their result is the one given
    here. *)
Record video := {
  (** negative on failure *)
  SDL_GL_MakeCurrent : Z;
  SDL_CreateRenderer : option SDL_Renderer;
  (** the texture made from a surface, [0] for [NULL] *)
  SDL_CreateTextureFromSurface : SDL_Renderer -> Z -> SDL_Texture;
  (** the width and height [SDL_QueryTexture] stores *)
  SDL_QueryTexture : SDL_Texture -> Z * Z;
  open_image : string -> image_file
}.

Definition set_img_tex (tex : SDL_Texture) (i : loaded_image_t)
  : loaded_image_t :=
  {| img_addr := img_addr i; img_filename := img_filename i;
     img_tex := tex; img_ops := img_ops i; img_surf := img_surf i;
     img_w := img_w i; img_h := img_h i; img_scale := img_scale i;
     img_ref_count := img_ref_count i;
     img_pending_free := img_pending_free i |}.

(** The loop of [gfxDrawBindThread] over the loaded images: every
    texture is destroyed and made again, with the new renderer, from the
    surface of its image.  The sentinel has no texture and is passed
    over, as is an image whose texture could not be made again by an
    earlier call. *)
Fixpoint rebind_textures (v : video) (ren : SDL_Renderer)
  (l : list loaded_image_t) (s : state) : list loaded_image_t * state :=
  match l with
  | [] => ([], s)
  | iterator :: next =>
      if img_tex iterator =? 0 then
        let (next', s') := rebind_textures v ren next s in
        (iterator :: next', s')
      else
        let s1 := log (Ev_SDL_DestroyTexture (img_tex iterator)) s in
        let tex := SDL_CreateTextureFromSurface v ren (img_surf iterator) in
        let (next', s') := rebind_textures v ren next s1 in
        (set_img_tex tex iterator :: next', s')
  end.

Definition no_renderer (g : gl_binding) : bool :=
  match renderer g with
  | None => true
  | Some _ => false
  end.

(** Returns the code together with the binding as the call leaves it.
    After a failed [SDL_GL_MakeCurrent] the static [renderer] still
    holds the old renderer. *)
Definition gfxDrawBindThread (v : video) (g : gl_binding) (s : state)
  : outcome (Z * gl_binding) :=
  if negb (cur_gl_thread g) || no_renderer g then
    let s1 := log Ev_SDL_GL_MakeCurrent s in
    if SDL_GL_MakeCurrent v <? 0 then
      Ret (-1, g)
          (log Ev_SDL_Quit
             (log Ev_TTF_Quit (log Ev_SDL_GL_DeleteContext s1)))
    else
      let s2 := match renderer g with
                | Some ren => log (Ev_SDL_DestroyRenderer ren) s1
                | None => s1
                end in
      match SDL_CreateRenderer v with
      | None =>
          Ret (-1, {| renderer := None; cur_gl_thread := cur_gl_thread g |})
              (log Ev_SDL_Quit
                 (log Ev_TTF_Quit
                    (log Ev_SDL_GL_DeleteContext
                       (log Ev_SDL_DestroyWindow s2))))
      | Some ren =>
          let s3 := log (Ev_SDL_RenderClear ren)
                      (log (Ev_SDL_SetRenderDrawColor ren MAX_8_BIT
                              MAX_8_BIT MAX_8_BIT ALPHA_SOLID) s2) in
          let (images, s4) :=
            rebind_textures v ren (loaded_images_list s3) s3 in
          Ret (0, {| renderer := Some ren; cur_gl_thread := true |})
              (set_loaded_images_list images s4)
      end
  else Ret (0, g) s.

(** Returns the handle together with the binding as the call leaves it.
    The file is wrapped by [SDL_RWFromFP (ret->file, SDL_TRUE)], so that
    [SDL_RWclose] closes it; where the error path goes on to
    [fclose (ret->file)] after [SDL_RWclose (ret->ops)] (a failed
    [IMG_Load_RW] or [SDL_CreateTextureFromSurface]) the file is closed a
    second time. *)
Definition gfxDrawLoadScaledImage (v : video) (g : gl_binding)
  (filename : option string) (scale : float) (s : state)
  : outcome (option addr * gl_binding) :=
  call g1, s0 <-
    (if no_renderer g || negb (cur_gl_thread g) then
       call r, s' <- gfxDrawBindThread v g s ;; Ret (snd r) s'
     else Ret g s) ;;
  match renderer g1 with
  | None => Ret (None, g1) s0
  | Some ren =>
      match calloc_node s0 with
      | (None, s1) => Ret (None, g1) s1
      | (Some a, s1) =>
          match filename with
          | None => Fault NullDereference (* [strdup (NULL)] *)
          | Some name =>
              let (ok_name, s2) := calloc s1 in
              if ok_name then
                match open_image v name with
                | FileMissing => Ret (None, g1) (free_node a s2)
                | RWopsFailed file =>
                    Ret (None, g1) (free_node a (log (Ev_fclose file) s2))
                | DecodeFailed file ops => Fault UseAfterFree
                | Decoded file ops surf =>
                    let tex := SDL_CreateTextureFromSurface v ren surf in
                    if tex =? 0 then Fault UseAfterFree
                    else
                      let (w, h) := SDL_QueryTexture v tex in
                      Ret (Some a, g1)
                          (set_loaded_images_list
                             (loaded_images_list s2 ++
                                [{| img_addr := a; img_filename := name;
                                    img_tex := tex; img_ops := ops;
                                    img_surf := surf; img_w := w;
                                    img_h := h; img_scale := scale;
                                    img_ref_count := 0;
                                    img_pending_free := 0 |}]) s2)
                end
              else Ret (None, g1) (free_node a s2)
          end
      end
  end.

Definition gfxDrawLoadImage (v : video) (g : gl_binding)
  (filename : option string) (s : state)
  : outcome (option addr * gl_binding) :=
  gfxDrawLoadScaledImage v g filename float_one s.

(** ** gfx_draw.c: the static drawing helpers *)

Definition _clearDisplay (colour : Z) (s : state) : outcome Z :=
  Ret 0 (log (Ev_clearDisplay (to_uint colour)) s).

Definition _drawRectangle (x y w h colour : Z) (s : state) : outcome Z :=
  Ret 0 (log (Ev_drawRectangle (to_sshort x) (to_sshort y) (to_sshort w)
                (to_sshort h) (to_uint colour)) s).

Definition _drawFilledRectangle (x y w h colour : Z) (s : state)
  : outcome Z :=
  Ret 0 (log (Ev_drawFilledRectangle (to_sshort x) (to_sshort y)
                (to_sshort w) (to_sshort h) (to_uint colour)) s).

Definition _drawArc (x y radius start end_ colour : Z) (s : state)
  : outcome Z :=
  Ret 0 (log (Ev_drawArc (to_sshort x) (to_sshort y) (to_sshort radius)
                (to_sshort start) (to_sshort end_) (to_uint colour)) s).

Definition _drawEllipse (x y rx ry colour : Z) (s : state) : outcome Z :=
  Ret 0 (log (Ev_drawEllipse (to_sshort x) (to_sshort y) (to_sshort rx)
                (to_sshort ry) (to_uint colour)) s).

Definition _drawCircle (x y radius colour : Z) (s : state) : outcome Z :=
  Ret 0 (log (Ev_drawCircle (to_sshort x) (to_sshort y) (to_sshort radius)
                (to_uint colour)) s).

Definition _drawLine (x1 y1 x2 y2 thickness colour : Z) (s : state)
  : outcome Z :=
  Ret 0 (log (Ev_drawLine (to_sshort x1) (to_sshort y1) (to_sshort x2)
                (to_sshort y2) (to_uchar thickness) (to_uint colour)) s).

(** [colour] is a [signed short] parameter here. *)
Definition _drawPoly (points : option (list coord_t)) (n : Z)
  (x_offset y_offset : Z) (colour : Z) (s : state) : outcome Z :=
  let (okx, s1) := calloc s in
  let (oky, s2) := calloc s1 in
  let n := to_uint n in
  if n =? 0 then Ret 0 (log (Ev_drawPoly [] [] 0 (to_sshort colour)) s2)
  else
    match points with
    | None => Fault NullDereference
    | Some pts =>
        if Z.of_nat (List.length pts) <? n then Fault OutOfBounds
        else if okx && oky then
          let used := firstn (Z.to_nat n) pts in
          Ret 0 (log (Ev_drawPoly
                        (map (fun p => to_sshort (int_add (coord_x p)
                                                    x_offset)) used)
                        (map (fun p => to_sshort (int_add (coord_y p)
                                                    y_offset)) used)
                        n (to_sshort colour)) s2)
        else Fault NullDereference
    end.

Definition _drawTriangle (points : option (list coord_t))
  (x_offset y_offset : Z) (colour : Z) (s : state) : outcome Z :=
  match points with
  | None => Fault NullDereference
  | Some (p0 :: p1 :: p2 :: _) =>
      Ret 0 (log (Ev_drawTriangle
                    (to_sshort (int_add (coord_x p0) x_offset))
                    (to_sshort (int_add (coord_y p0) y_offset))
                    (to_sshort (int_add (coord_x p1) x_offset))
                    (to_sshort (int_add (coord_y p1) y_offset))
                    (to_sshort (int_add (coord_x p2) x_offset))
                    (to_sshort (int_add (coord_y p2) y_offset))
                    (to_uint colour)) s)
  | Some _ => Fault OutOfBounds
  end.

Definition _loadImage (filename : option string) (s : state)
  : outcome (option SDL_Texture) :=
  Ret (IMG_LoadTexture (env s) filename) (log (Ev_loadImage filename) s).

Definition xDrawLoadedImageCropped (img : option addr)
  (x y c_x c_y c_w c_h : Z) (s : state) : outcome Z :=
  call i, s1 <- load_image img s ;;
  let e := Ev_drawLoadedImageCropped (img_tex i) (to_sshort x) (to_sshort y)
             (to_sshort c_x) (to_sshort c_y) (to_sshort c_w)
             (to_sshort c_h) in
  Ret (render_rc (env s1) e) (log e s1).

Definition xDrawLoadedImage (img : option addr) (x y : Z) (s : state)
  : outcome Z :=
  call i, s1 <- load_image img s ;;
  let e := Ev_drawLoadedImage (img_tex i) (to_sshort x) (to_sshort y)
             (img_w i) (img_h i) (img_scale i) in
  Ret (render_rc (env s1) e) (log e s1).

Definition _drawScaledImage (tex : option SDL_Texture) (x y : Z)
  (scale : float) (s : state) : outcome Z :=
  let e := Ev_drawScaledImage tex (to_sshort x) (to_sshort y) scale in
  Ret (if render_rc (env s) e =? 0 then 0 else -1) (log e s).

Definition _drawImage (tex : option SDL_Texture) (x y : Z) (s : state)
  : outcome Z :=
  _drawScaledImage tex x y float_one s.

Definition _drawText (str : option string) (x y colour : Z)
  (font : option TTF_Font) (s : state) : outcome Z :=
  let s1 := log (Ev_RenderText font str (to_uint colour)) s in
  call _u, s2 <- gfxFontPutFont font s1 ;;
  Ret 0 (log (Ev_CopyText (to_sshort x) (to_sshort y)) s2).

(** Returns the code and, on success, what was stored in [*width] and
    [*height]. *)
Definition _getTextSize (str : string) (s : state)
  : outcome (Z * option (Z * Z)) :=
  call font, s1 <- gfxFontGetCurFont s ;;
  let surface := TTF_text_size (env s1) font str in
  let s2 := log (Ev_RenderText font (Some str) 0) s1 in
  call _u, s3 <- gfxFontPutFont font s2 ;;
  match surface with
  | RenderSize w h => Ret (0, Some (to_int w, to_int h)) s3
  | _ => Ret (-1, None) s3
  end.

Definition _drawArrow (x1 y1 x2 y2 head_length thickness colour : Z)
  (s : state) : outcome Z :=
  let e := Ev_drawArrow (to_sshort x1) (to_sshort y1) (to_sshort x2)
             (to_sshort y2) (to_sshort head_length) (to_uchar thickness)
             (to_uint colour) in
  Ret (if render_rc (env s) e =? 0 then 0 else -1) (log e s).

(** ** gfx_draw.c: dispatch of one job *)

Definition vHandleDrawJob (job : option draw_job_t) (s : state)
  : outcome Z :=
  let x_offset := offset_x (global_offset s) in
  let y_offset := offset_y (global_offset s) in
  match job with
  | None => Ret (-1) s
  | Some job =>
      match job_data job with
      | None => Ret (-1) s
      | Some data =>
          match job_type job, data with
          | DRAW_CLEAR, U_clear d => _clearDisplay (clear_colour d) s
          | DRAW_ARC, U_arc d =>
              _drawArc (int_add (arc_x d) x_offset)
                       (int_add (arc_y d) y_offset)
                       (arc_radius d) (arc_start d) (arc_end d)
                       (arc_colour d) s
          | DRAW_ELLIPSE, U_ellipse d =>
              _drawEllipse (int_add (ellipse_x d) x_offset)
                           (ellipse_y d) (ellipse_rx d) (ellipse_ry d)
                           (ellipse_colour d) s
          | DRAW_TEXT, U_text d =>
              _drawText (text_str d)
                        (int_add (text_x d) x_offset)
                        (int_add (text_y d) y_offset)
                        (text_colour d) (text_font d) s
          | DRAW_RECT, U_rect d =>
              _drawRectangle (int_add (rect_x d) x_offset)
                             (int_add (rect_y d) y_offset)
                             (rect_w d) (rect_h d) (rect_colour d) s
          | DRAW_FILLED_RECT, U_rect d =>
              _drawFilledRectangle (int_add (rect_x d) x_offset)
                                   (int_add (rect_y d) y_offset)
                                   (rect_w d) (rect_h d) (rect_colour d) s
          | DRAW_CIRCLE, U_circle d =>
              _drawCircle (int_add (circle_x d) x_offset)
                          (int_add (circle_y d) y_offset)
                          (circle_radius d) (circle_colour d) s
          | DRAW_LINE, U_line d =>
              _drawLine (int_add (line_x1 d) x_offset)
                        (int_add (line_y1 d) y_offset)
                        (int_add (line_x2 d) x_offset)
                        (int_add (line_y2 d) y_offset)
                        (line_thickness d) (line_colour d) s
          | DRAW_POLY, U_poly d =>
              _drawPoly (poly_points d) (poly_n d) x_offset y_offset
                        (poly_colour d) s
          | DRAW_TRIANGLE, U_triangle d =>
              _drawTriangle (triangle_points d) x_offset y_offset
                            (triangle_colour d) s
          | DRAW_IMAGE, U_image d =>
              call tex, s1 <- _loadImage (image_filename d) s ;;
              _drawImage tex (int_add (image_x d) x_offset)
                         (int_add (image_y d) y_offset) s1
          | DRAW_LOADED_IMAGE, U_loaded_image d =>
              call ret, s1 <- xDrawLoadedImage (loaded_img d)
                                (int_add (loaded_x d) x_offset)
                                (int_add (loaded_y d) y_offset) s ;;
              call _u, s2 <- vPutLoadedImage (loaded_img d) s1 ;;
              Ret ret s2
          | DRAW_LOADED_IMAGE_CROP, U_loaded_image_crop d =>
              call ret, s1 <- xDrawLoadedImageCropped (crop_image d)
                                (int_add (crop_x d) x_offset)
                                (int_add (crop_y d) y_offset)
                                (crop_c_x d) (crop_c_y d) (crop_c_w d)
                                (crop_c_h d) s ;;
              call _u, s2 <- vPutLoadedImage (crop_image d) s1 ;;
              Ret ret s2
          | DRAW_SCALED_IMAGE, U_scaled_image d =>
              call tex, s1 <- _loadImage
                                (image_filename (scaled_image d)) s ;;
              _drawScaledImage tex
                (int_add (image_x (scaled_image d)) x_offset)
                (int_add (image_y (scaled_image d)) y_offset)
                (scaled_scale d) s1
          | DRAW_ARROW, U_arrow d =>
              _drawArrow (int_add (arrow_x1 d) x_offset)
                         (int_add (arrow_y1 d) y_offset)
                         (int_add (arrow_x2 d) x_offset)
                         (int_add (arrow_y2 d) y_offset)
                         (arrow_head_length d) (arrow_thickness d)
                         (arrow_colour d) s
          | DRAW_NONE, _ => Ret 0 s
          | _, _ => Fault UnionMemberMismatch
          end
      end
  end.

(** ** gfx_draw.c: [gfxDrawUpdateScreen] *)

(** The [while ((tmp_job = popDrawJob ()) != NULL)] loop; every turn
    takes a job off the queue, so [fuel] beyond the queue length is never
    used up (lemma [drain_fuel] below). *)
Fixpoint drain (fuel : nat) (s : state) : outcome Z :=
  match fuel with
  | O => Fault LoopFuelExhausted
  | S fuel' =>
      match popDrawJob s with
      | (None, s1) => Ret 0 (log Ev_RenderPresent s1)
      | (Some tmp_job, s1) =>
          match job_data tmp_job with
          | None => Ret (-1) s1
          | Some _ =>
              call ret, s2 <- vHandleDrawJob (Some tmp_job) s1 ;;
              if ret =? -1 then Ret (-1) s2 else drain fuel' s2
          end
      end
  end.

Definition gfxDrawUpdateScreen (s : state) : outcome Z :=
  if negb (is_cur_gl_thread (env s)) then Ret (-1) s
  else if negb (frame_period_elapsed (env s)) then Ret 0 s
  else if _waitingDrawJobs s =? 0 then Ret 0 s
  else drain (S (List.length (job_list s))) s.

(** ** gfx_draw.c: the public draw requests *)

Definition gfxDrawText (str : option string) (x y colour : Z) (s : state)
  : outcome Z :=
  match str with
  | None => Fault NullDereference
  | Some st =>
      if String.eqb st EmptyString then Ret (-1) s
      else
        call ok, s1 <- INIT_JOB DRAW_TEXT s ;;
        if ok then
          let (ok_str, s2) := calloc s1 in
          if ok_str then
            call font, s3 <- gfxFontGetCurFont s2 ;;
            Ret 0 (write_job DRAW_TEXT
                     (U_text {| text_str := Some st;
                                text_x := to_sshort x;
                                text_y := to_sshort y;
                                text_colour := to_uint colour;
                                text_font := font |}) s3)
          else Ret (-1) s2
        else Ret (-1) s1
  end.

Definition gfxGetTextSize (str : option string) (s : state)
  : outcome (Z * option (Z * Z)) :=
  match str with
  | None => Ret (-1, None) s
  | Some st => _getTextSize st s
  end.

Definition gfxDrawCenteredText (str : option string) (x y colour : Z)
  (s : state) : outcome Z :=
  call r, s1 <- gfxGetTextSize str s ;;
  match r with
  | (0, Some (width, height)) =>
      gfxDrawText str (int_sub (to_sshort x) (Z.quot width 2))
                  (int_sub (to_sshort y) (Z.quot height 2)) colour s1
  | _ => Ret (-1) s1
  end.

Definition gfxDrawEllipse (x y rx ry colour : Z) (s : state) : outcome Z :=
  call ok, s1 <- INIT_JOB DRAW_ELLIPSE s ;;
  if ok then
    Ret 0 (write_job DRAW_ELLIPSE
             (U_ellipse {| ellipse_x := to_sshort x;
                           ellipse_y := to_sshort y;
                           ellipse_rx := to_sshort rx;
                           ellipse_ry := to_sshort ry;
                           ellipse_colour := to_uint colour |}) s1)
  else Ret (-1) s1.

Definition gfxDrawArc (x y radius start end_ colour : Z) (s : state)
  : outcome Z :=
  call ok, s1 <- INIT_JOB DRAW_ARC s ;;
  if ok then
    Ret 0 (write_job DRAW_ARC
             (U_arc {| arc_x := to_sshort x; arc_y := to_sshort y;
                       arc_radius := to_sshort radius;
                       arc_start := to_sshort start;
                       arc_end := to_sshort end_;
                       arc_colour := to_uint colour |}) s1)
  else Ret (-1) s1.

Definition gfxDrawFilledBox (x y w h colour : Z) (s : state) : outcome Z :=
  call ok, s1 <- INIT_JOB DRAW_FILLED_RECT s ;;
  if ok then
    Ret 0 (write_job DRAW_FILLED_RECT
             (U_rect {| rect_x := to_sshort x; rect_y := to_sshort y;
                        rect_w := to_sshort w; rect_h := to_sshort h;
                        rect_colour := to_uint colour |}) s1)
  else Ret (-1) s1.

Definition gfxDrawBox (x y w h colour : Z) (s : state) : outcome Z :=
  call ok, s1 <- INIT_JOB DRAW_RECT s ;;
  if ok then
    Ret 0 (write_job DRAW_RECT
             (U_rect {| rect_x := to_sshort x; rect_y := to_sshort y;
                        rect_w := to_sshort w; rect_h := to_sshort h;
                        rect_colour := to_uint colour |}) s1)
  else Ret (-1) s1.

Definition gfxDrawClear (colour : Z) (s : state) : outcome Z :=
  call ok, s1 <- INIT_JOB DRAW_CLEAR s ;;
  if ok then
    Ret 0 (write_job DRAW_CLEAR
             (U_clear {| clear_colour := to_uint colour |}) s1)
  else Ret (-1) s1.

Definition gfxDrawCircle (x y radius colour : Z) (s : state) : outcome Z :=
  call ok, s1 <- INIT_JOB DRAW_CIRCLE s ;;
  if ok then
    Ret 0 (write_job DRAW_CIRCLE
             (U_circle {| circle_x := to_sshort x; circle_y := to_sshort y;
                          circle_radius := to_sshort radius;
                          circle_colour := to_uint colour |}) s1)
  else Ret (-1) s1.

Definition gfxDrawLine (x1 y1 x2 y2 thickness colour : Z) (s : state)
  : outcome Z :=
  call ok, s1 <- INIT_JOB DRAW_LINE s ;;
  if ok then
    Ret 0 (write_job DRAW_LINE
             (U_line {| line_x1 := to_sshort x1; line_y1 := to_sshort y1;
                        line_x2 := to_sshort x2; line_y2 := to_sshort y2;
                        line_thickness := to_uchar thickness;
                        line_colour := to_uint colour |}) s1)
  else Ret (-1) s1.

(** [points] is the caller's array.  A negative [n] becomes an
    allocation request no allocator can serve. *)
Definition gfxDrawPoly (points : list coord_t) (n colour : Z) (s : state)
  : outcome Z :=
  call ok, s1 <- INIT_JOB DRAW_POLY s ;;
  if ok then
    let (ok_cpy, s2) := calloc s1 in
    if ok_cpy && (0 <=? to_int n) then
      if Z.of_nat (List.length points) <? to_int n then Fault OutOfBounds
      else
        Ret 0 (write_job DRAW_POLY
                 (U_poly {| poly_points :=
                              Some (firstn (Z.to_nat (to_int n)) points);
                            poly_n := to_uint n;
                            poly_colour := to_uint colour |}) s2)
    else Ret (-1) s2
  else Ret (-1) s1.

Definition gfxDrawTriangle (points : list coord_t) (colour : Z) (s : state)
  : outcome Z :=
  call ok, s1 <- INIT_JOB DRAW_TRIANGLE s ;;
  if ok then
    let (ok_cpy, s2) := calloc s1 in
    if ok_cpy then
      if Z.of_nat (List.length points) <? 3 then Fault OutOfBounds
      else
        Ret 0 (write_job DRAW_TRIANGLE
                 (U_triangle {| triangle_points := Some (firstn 3 points);
                                triangle_colour := to_uint colour |}) s2)
    else Ret (-1) s2
  else Ret (-1) s1.

(** [img->ref_count++] *)
Definition get_image (img : option addr) (s : state) : outcome unit :=
  call i, s1 <- load_image img s ;;
  Ret tt (store_image (set_img_counts (to_uint (img_ref_count i + 1))
                         (img_pending_free i) i) s1).

Definition gfxDrawLoadedImage (img : option addr) (x y : Z) (s : state)
  : outcome Z :=
  match img with
  | None => Ret (-1) s
  | Some _ =>
      call ok, s1 <- INIT_JOB DRAW_LOADED_IMAGE s ;;
      if ok then
        call _u, s2 <- get_image img s1 ;;
        Ret 0 (write_job DRAW_LOADED_IMAGE
                 (U_loaded_image {| loaded_img := img;
                                    loaded_x := to_sshort x;
                                    loaded_y := to_sshort y |}) s2)
      else Ret (-1) s1
  end.

Definition gfxDrawImage (filename : string) (x y : Z) (s : state)
  : outcome Z :=
  call ok, s1 <- INIT_JOB DRAW_IMAGE s ;;
  if ok then
    match realpath (env s1) filename with
    | None => Ret (-1) s1
    | Some abs_path =>
        let (ok_name, s2) := calloc s1 in
        if ok_name then
          Ret 0 (write_job DRAW_IMAGE
                   (U_image {| image_filename := Some abs_path;
                               image_tex := None;
                               image_x := to_sshort x;
                               image_y := to_sshort y |}) s2)
        else Fault NullDereference (* [strcpy] into the failed [calloc] *)
    end
  else Ret (-1) s1.

Definition gfxDrawScaledImage (filename : string) (x y : Z) (scale : float)
  (s : state) : outcome Z :=
  call ok, s1 <- INIT_JOB DRAW_SCALED_IMAGE s ;;
  if ok then
    match realpath (env s1) filename with
    | None => Ret (-1) s1
    | Some abs_path =>
        let (ok_name, s2) := calloc s1 in
        if ok_name then
          Ret 0 (write_job DRAW_SCALED_IMAGE
                   (U_scaled_image
                      {| scaled_image :=
                           {| image_filename := Some abs_path;
                              image_tex := None;
                              image_x := to_sshort x;
                              image_y := to_sshort y |};
                         scaled_scale := scale |}) s2)
        else Fault NullDereference
    end
  else Ret (-1) s1.

Definition gfxDrawArrow (x1 y1 x2 y2 head_length thickness colour : Z)
  (s : state) : outcome Z :=
  call ok, s1 <- INIT_JOB DRAW_ARROW s ;;
  if ok then
    Ret 0 (write_job DRAW_ARROW
             (U_arrow {| arrow_x1 := to_sshort x1; arrow_y1 := to_sshort y1;
                         arrow_x2 := to_sshort x2; arrow_y2 := to_sshort y2;
                         arrow_head_length := to_sshort head_length;
                         arrow_thickness := to_uchar thickness;
                         arrow_colour := to_uint colour |}) s1)
  else Ret (-1) s1.

Definition gfxDrawSetGlobalXOffset (offset : Z) (s : state) : outcome Z :=
  Ret 0 (set_global_offset {| offset_x := to_int offset;
                              offset_y := offset_y (global_offset s) |} s).

Definition gfxDrawSetGlobalYOffset (offset : Z) (s : state) : outcome Z :=
  Ret 0 (set_global_offset {| offset_x := offset_x (global_offset s);
                              offset_y := to_int offset |} s).

Definition gfxDrawGetGlobalXOffset (s : state) : outcome (Z * Z) :=
  Ret (0, offset_x (global_offset s)) s.

Definition gfxDrawGetGlobalYOffset (s : state) : outcome (Z * Z) :=
  Ret (0, offset_y (global_offset s)) s.

(** ** gfx_draw.c: sprite sheets *)

Definition gfxDrawInitSpritesheet (img : option addr) (s : state)
  : outcome (option spritesheet_t) :=
  match img with
  | None => Ret None s
  | Some a =>
      let (ok, s1) := calloc s in
      if ok then
        call i, s2 <- load_image img s1 ;;
        Ret (Some {| sheet_image := a; sheet_x := 0; sheet_y := 0;
                     sheet_width := to_uint (img_w i);
                     sheet_height := to_uint (img_h i);
                     sprite_width := 0; sprite_height := 0;
                     sprite_cols := 0; sprite_rows := 0;
                     padding_x := 0; padding_y := 0 |}) s2
      else Ret None s1
  end.

Definition gfxDrawSpritesheetSetBoundingBox (spritesheet : spritesheet_t)
  (bounding_x bounding_y bounding_w bounding_h : Z) : spritesheet_t :=
  {| sheet_image := sheet_image spritesheet;
     sheet_x := to_uint bounding_x; sheet_y := to_uint bounding_y;
     sheet_width := to_uint bounding_w; sheet_height := to_uint bounding_h;
     sprite_width := sprite_width spritesheet;
     sprite_height := sprite_height spritesheet;
     sprite_cols := sprite_cols spritesheet;
     sprite_rows := sprite_rows spritesheet;
     padding_x := padding_x spritesheet;
     padding_y := padding_y spritesheet |}.

Definition gfxDrawSpritesheetSetPadding (spritesheet : spritesheet_t)
  (pad_x pad_y : Z) : spritesheet_t :=
  {| sheet_image := sheet_image spritesheet;
     sheet_x := sheet_x spritesheet; sheet_y := sheet_y spritesheet;
     sheet_width := sheet_width spritesheet;
     sheet_height := sheet_height spritesheet;
     sprite_width := sprite_width spritesheet;
     sprite_height := sprite_height spritesheet;
     sprite_cols := sprite_cols spritesheet;
     sprite_rows := sprite_rows spritesheet;
     padding_x := to_uint pad_x; padding_y := to_uint pad_y |}.

(** [None]: the division by [cols] or [rows] is a division by zero. *)
Definition gfxDrawSpritesheetSetDivisions (spritesheet : spritesheet_t)
  (cols rows : Z) : option spritesheet_t :=
  let cols := to_uint cols in
  let rows := to_uint rows in
  let total_x_padding_pixels :=
    uint_mul (uint_mul (padding_x spritesheet) (uint_sub cols 1)) 2 in
  let total_y_padding_pixels :=
    uint_mul (uint_mul (padding_y spritesheet) (uint_sub rows 1)) 2 in
  if (cols =? 0) || (rows =? 0) then None
  else
    Some {| sheet_image := sheet_image spritesheet;
            sheet_x := sheet_x spritesheet; sheet_y := sheet_y spritesheet;
            sheet_width := sheet_width spritesheet;
            sheet_height := sheet_height spritesheet;
            sprite_width :=
              uint_sub (sheet_width spritesheet) total_x_padding_pixels
              / cols;
            sprite_height :=
              uint_sub (sheet_height spritesheet) total_y_padding_pixels
              / rows;
            sprite_cols := cols; sprite_rows := rows;
            padding_x := padding_x spritesheet;
            padding_y := padding_y spritesheet |}.

Definition gfxDrawLoadSpritesheetFromEntireImagePadded (img : option addr)
  (cols rows sprite_padding_x sprite_padding_y : Z) (s : state)
  : outcome (option spritesheet_t) :=
  call ret, s1 <- gfxDrawInitSpritesheet img s ;;
  match ret with
  | None => Ret None s1
  | Some sh =>
      match gfxDrawSpritesheetSetDivisions
              (gfxDrawSpritesheetSetPadding sh sprite_padding_x
                 sprite_padding_y) cols rows with
      | None => Fault DivisionByZero
      | Some sh' => Ret (Some sh') s1
      end
  end.

(** The five other loaders: [gfxDrawInitSpritesheet], then [configure]
    applied to the fresh sheet, the last step being
    [gfxDrawSpritesheetSetDivisions]. *)
Definition load_spritesheet (img : option addr)
  (configure : spritesheet_t -> option spritesheet_t) (s : state)
  : outcome (option spritesheet_t) :=
  call ret, s1 <- gfxDrawInitSpritesheet img s ;;
  match ret with
  | None => Ret None s1
  | Some sh =>
      match configure sh with
      | None => Fault DivisionByZero
      | Some sh' => Ret (Some sh') s1
      end
  end.

Definition gfxDrawLoadSpritesheetFromEntireImageUnpadded (img : option addr)
  (cols rows : Z) : state -> outcome (option spritesheet_t) :=
  load_spritesheet img
    (fun ret => gfxDrawSpritesheetSetDivisions ret cols rows).

Definition gfxDrawLoadSpritesheetFromEntireImagePaddedSpacing
  (img : option addr) (cols rows sprite_spacing_x sprite_spacing_y : Z)
  : state -> outcome (option spritesheet_t) :=
  load_spritesheet img
    (fun ret =>
       gfxDrawSpritesheetSetDivisions
         (gfxDrawSpritesheetSetPadding ret (to_uint sprite_spacing_x / 2)
            (to_uint sprite_spacing_y / 2)) cols rows).

Definition gfxDrawLoadSpritesheetFromPortionOfImageUnpadded
  (img : option addr) (cols rows width height : Z)
  (bounding_box_left_x_pixel bounding_box_top_y_pixel : Z)
  : state -> outcome (option spritesheet_t) :=
  load_spritesheet img
    (fun ret =>
       gfxDrawSpritesheetSetDivisions
         (gfxDrawSpritesheetSetBoundingBox ret bounding_box_left_x_pixel
            bounding_box_top_y_pixel
            (uint_mul (to_uint width) (to_uint cols))
            (uint_mul (to_uint height) (to_uint rows))) cols rows).

Definition gfxDrawLoadSpritesheetFromPortionOfImagePadded
  (img : option addr) (cols rows width height : Z)
  (sprite_padding_x sprite_padding_y : Z)
  (bounding_box_left_x_pixel bounding_box_top_y_pixel : Z)
  : state -> outcome (option spritesheet_t) :=
  load_spritesheet img
    (fun ret =>
       gfxDrawSpritesheetSetDivisions
         (gfxDrawSpritesheetSetPadding
            (gfxDrawSpritesheetSetBoundingBox ret bounding_box_left_x_pixel
               bounding_box_top_y_pixel
               (uint_add (uint_mul (to_uint cols) (to_uint width))
                  (uint_mul
                     (uint_mul (uint_sub (to_uint cols) 1)
                               (to_uint sprite_padding_x)) 2))
               (uint_add (uint_mul (to_uint rows) (to_uint height))
                  (uint_mul
                     (uint_mul (uint_sub (to_uint rows) 1)
                               (to_uint sprite_padding_y)) 2)))
            sprite_padding_x sprite_padding_y) cols rows).

Definition gfxDrawLoadSpritesheetFromPortionOfImagePaddedSpacing
  (img : option addr) (cols rows width height : Z)
  (sprite_spacing_x sprite_spacing_y : Z)
  (bounding_box_left_x_pixel bounding_box_top_y_pixel : Z)
  : state -> outcome (option spritesheet_t) :=
  load_spritesheet img
    (fun ret =>
       gfxDrawSpritesheetSetDivisions
         (gfxDrawSpritesheetSetPadding
            (gfxDrawSpritesheetSetBoundingBox ret bounding_box_left_x_pixel
               bounding_box_top_y_pixel
               (uint_add (uint_mul (to_uint cols) (to_uint width))
                  (uint_mul (uint_sub (to_uint cols) 1)
                            (to_uint sprite_spacing_x)))
               (uint_add (uint_mul (to_uint rows) (to_uint height))
                  (uint_mul (uint_sub (to_uint rows) 1)
                            (to_uint sprite_spacing_y))))
            (to_uint sprite_spacing_x / 2) (to_uint sprite_spacing_y / 2))
         cols rows).

(** The crop origin [gfxDrawSprite] derives for a cell. *)
Definition sprite_origin (size padding index : Z) : Z :=
  to_int (uint_add (uint_mul (to_uint index)
                             (uint_add size (uint_mul padding 2)))
                   padding).

(** [column] and [row] are [char] parameters (signed on the emulator's
    targets). *)
Definition gfxDrawSprite (spritesheet : option spritesheet_t)
  (column row x y : Z) (s : state) : outcome Z :=
  match spritesheet with
  | None => Ret (-1) s
  | Some sh =>
      let column := to_schar column in
      let row := to_schar row in
      if (column <? 0) || (to_uint column >? sprite_cols sh) then Ret (-1) s
      else if (row <? 0) || (to_uint row >? sprite_rows sh) then Ret (-1) s
      else
        call ok, s1 <- INIT_JOB DRAW_LOADED_IMAGE_CROP s ;;
        if ok then
          call _u, s2 <- get_image (Some (sheet_image sh)) s1 ;;
          Ret 0 (write_job DRAW_LOADED_IMAGE_CROP
                   (U_loaded_image_crop
                      {| crop_image := Some (sheet_image sh);
                         crop_x := to_sshort x;
                         crop_y := to_sshort y;
                         crop_c_x :=
                           sprite_origin (sprite_width sh) (padding_x sh)
                                         column;
                         crop_c_y :=
                           sprite_origin (sprite_height sh) (padding_y sh)
                                         row;
                         crop_c_w := to_int (sprite_width sh);
                         crop_c_h := to_int (sprite_height sh) |}) s2)
        else Ret (-1) s1
  end.

(** ** gfx_draw.c: animations *)

Definition gfxDrawAnimationCreate (spritesheet : option spritesheet_t)
  (s : state) : outcome (option animated_image_t) :=
  match spritesheet with
  | None => Ret None s
  | Some sh =>
      let (ok, s1) := calloc s in
      if ok then
        Ret (Some {| anim_spritesheet := sh; anim_sequences := [] |}) s1
      else Ret None s1
  end.

(** Returns the code together with the animation as the call leaves it:
    the new sequence is linked behind the last one. *)
Definition gfxDrawAnimationAddSequence (animation : option animated_image_t)
  (name : option string) (start_row start_col : Z)
  (sprite_step_direction : sprite_sequence_direction) (frames : Z)
  (s : state) : outcome (Z * option animated_image_t) :=
  match animation, name with
  | None, _ => Ret (-1, None) s
  | Some anim, None => Ret (-1, Some anim) s
  | Some anim, Some nm =>
      let (ok, s1) := calloc s in
      if ok then
        let (ok_name, s2) := calloc s1 in
        if ok_name then
          Ret (0, Some {| anim_spritesheet := anim_spritesheet anim;
                          anim_sequences :=
                            anim_sequences anim ++
                              [{| seq_name := nm;
                                  seq_start_row := to_uint start_row;
                                  seq_start_col := to_uint start_col;
                                  seq_direction := sprite_step_direction;
                                  seq_frames := to_uint frames |}] |}) s2
        else Ret (-1, Some anim) s2
      else Ret (-1, Some anim) s1
  end.

Definition gfxDrawAnimationSequenceInstantiate
  (animation : option animated_image_t) (sequence_name : option string)
  (period_ms : Z) (s : state)
  : outcome (option animated_sequence_instance_t) :=
  match animation, sequence_name with
  | None, _ | _, None => Ret None s
  | Some image, Some name =>
      if to_uint period_ms =? 0 then Ret None s
      else
        let (ok, s1) := calloc s in
        if ok then
          match find (fun it => String.eqb (seq_name it) name)
                     (anim_sequences image) with
          | None => Ret None s1
          | Some it =>
              Ret (Some {| frame_period_ms := to_uint period_ms;
                           current_frame := 0;
                           prev_frame_timestamp := 0;
                           cur_frame_timestamp := 0;
                           inst_image := image;
                           inst_sequence := it |}) s1
          end
        else Ret None s1
  end.

Definition set_timing (frame prev cur : Z)
  (anim : animated_sequence_instance_t) : animated_sequence_instance_t :=
  {| frame_period_ms := frame_period_ms anim;
     current_frame := frame;
     prev_frame_timestamp := prev;
     cur_frame_timestamp := cur;
     inst_image := inst_image anim;
     inst_sequence := inst_sequence anim |}.

Definition gfxDrawAnimationReset (anim : animated_sequence_instance_t)
  : animated_sequence_instance_t :=
  match seq_direction (inst_sequence anim) with
  | SPRITE_SEQUENCE_HORIZONTAL_POS | SPRITE_SEQUENCE_HORIZONTAL_NEG =>
      set_timing (to_int (seq_start_col (inst_sequence anim))) 0 0 anim
  | SPRITE_SEQUENCE_VERTICAL_POS | SPRITE_SEQUENCE_VERTICAL_NEG =>
      set_timing (to_int (seq_start_row (inst_sequence anim))) 0 0 anim
  end.

(** The timing part of [gfxDrawAnimationDrawFrame], up to [INIT_JOB];
    [None] is a division by zero. *)
Definition advance_frame (anim : animated_sequence_instance_t)
  (ms_timestep : Z) : option animated_sequence_instance_t :=
  let cur := uint_add (cur_frame_timestamp anim) (to_uint ms_timestep) in
  let prev := prev_frame_timestamp anim in
  let period := frame_period_ms anim in
  let frames := seq_frames (inst_sequence anim) in
  if cur >? uint_add prev period then
    if period =? 0 then None
    else
      let steps := uint_sub cur prev / period in
      let prev' := uint_add prev (uint_mul steps period) in
      match seq_direction (inst_sequence anim) with
      | SPRITE_SEQUENCE_HORIZONTAL_POS | SPRITE_SEQUENCE_VERTICAL_POS =>
          let frame := to_int (uint_add (to_uint (current_frame anim))
                                        steps) in
          if frames =? 0 then None
          else Some (set_timing (to_int (to_uint frame mod frames))
                                prev' cur anim)
      | SPRITE_SEQUENCE_HORIZONTAL_NEG | SPRITE_SEQUENCE_VERTICAL_NEG =>
          let frame := to_int (uint_sub (to_uint (current_frame anim))
                                        steps) in
          Some (set_timing (if frame =? -1 then to_int (uint_sub frames 1)
                            else frame)
                           prev' cur anim)
      end
  else Some (set_timing (current_frame anim) prev cur anim).

(** The crop origin of the current frame (the [switch] that ends
    [gfxDrawAnimationDrawFrame]); [None] is a division by zero. *)
Definition frame_crop (anim : animated_sequence_instance_t)
  : option (Z * Z) :=
  let sheet := anim_spritesheet (inst_image anim) in
  let sq := inst_sequence anim in
  let stride_x := uint_add (sprite_width sheet)
                           (uint_mul (padding_x sheet) 2) in
  let stride_y := uint_add (sprite_height sheet)
                           (uint_mul (padding_y sheet) 2) in
  if seq_frames sq =? 0 then None
  else
    match seq_direction sq with
    | SPRITE_SEQUENCE_HORIZONTAL_POS | SPRITE_SEQUENCE_HORIZONTAL_NEG =>
        let cur_frame_index_offset :=
          uint_add (to_uint (current_frame anim)) (seq_start_col sq)
          mod seq_frames sq in
        Some (to_int (uint_add (sheet_x sheet)
                        (uint_mul cur_frame_index_offset stride_x)),
              to_int (uint_add (sheet_y sheet)
                        (uint_mul (seq_start_row sq) stride_y)))
    | SPRITE_SEQUENCE_VERTICAL_POS | SPRITE_SEQUENCE_VERTICAL_NEG =>
        let cur_frame_index_offset :=
          uint_add (to_uint (current_frame anim)) (seq_start_row sq)
          mod seq_frames sq in
        Some (to_int (uint_add (sheet_x sheet)
                        (uint_mul (seq_start_col sq) stride_x)),
              to_int (uint_add (sheet_y sheet)
                        (uint_mul cur_frame_index_offset stride_y)))
    end.

(** Returns the code together with the instance as the call leaves it. *)
Definition gfxDrawAnimationDrawFrame
  (sequence : option animated_sequence_instance_t) (ms_timestep x y : Z)
  (s : state) : outcome (Z * option animated_sequence_instance_t) :=
  match sequence with
  | None => Ret (-1, None) s
  | Some anim0 =>
      match advance_frame anim0 ms_timestep with
      | None => Fault DivisionByZero
      | Some anim =>
          let sheet := anim_spritesheet (inst_image anim) in
          call ok, s1 <- INIT_JOB DRAW_LOADED_IMAGE_CROP s ;;
          if ok then
            call _u, s2 <- get_image (Some (sheet_image sheet)) s1 ;;
            match frame_crop anim with
            | None => Fault DivisionByZero
            | Some (c_x, c_y) =>
                Ret (0, Some anim)
                    (write_job DRAW_LOADED_IMAGE_CROP
                       (U_loaded_image_crop
                          {| crop_image := Some (sheet_image sheet);
                             crop_x := to_int x;
                             crop_y := to_int y;
                             crop_c_x := c_x;
                             crop_c_y := c_y;
                             crop_c_w := to_int (sprite_width sheet);
                             crop_c_h := to_int (sprite_height sheet) |})
                       s2)
            end
          else Ret (-1, Some anim) s1
      end
  end.

(** ** A request interface over the public draw functions *)

(** The requests whose dispatch is one SDL call that cannot fail. *)
Inductive shape :=
| Clear (colour : Z)
| Box (x y w h colour : Z)
| FilledBox (x y w h colour : Z)
| Circle (x y radius colour : Z)
| Ellipse (x y rx ry colour : Z)
| Arc (x y radius start end_ colour : Z)
| Line (x1 y1 x2 y2 thickness colour : Z).

Definition draw_shape (sh : shape) : state -> outcome Z :=
  match sh with
  | Clear c => gfxDrawClear c
  | Box x y w h c => gfxDrawBox x y w h c
  | FilledBox x y w h c => gfxDrawFilledBox x y w h c
  | Circle x y r c => gfxDrawCircle x y r c
  | Ellipse x y rx ry c => gfxDrawEllipse x y rx ry c
  | Arc x y r st en c => gfxDrawArc x y r st en c
  | Line x1 y1 x2 y2 t c => gfxDrawLine x1 y1 x2 y2 t c
  end.

Inductive request :=
| ReqShape (sh : shape)
| ReqPoly (points : list coord_t) (n colour : Z)
| ReqTriangle (points : list coord_t) (colour : Z)
| ReqText (str : option string) (x y colour : Z)
| ReqCenteredText (str : option string) (x y colour : Z)
| ReqLoadedImage (img : option addr) (x y : Z)
| ReqImage (filename : string) (x y : Z)
| ReqScaledImage (filename : string) (x y : Z) (scale : float)
| ReqArrow (x1 y1 x2 y2 head_length thickness colour : Z)
| ReqSprite (spritesheet : option spritesheet_t) (column row x y : Z)
| ReqAnimationFrame (sequence : option animated_sequence_instance_t)
    (ms_timestep x y : Z).

Definition enqueue (r : request) (s : state) : outcome Z :=
  match r with
  | ReqShape sh => draw_shape sh s
  | ReqPoly points n c => gfxDrawPoly points n c s
  | ReqTriangle points c => gfxDrawTriangle points c s
  | ReqText str x y c => gfxDrawText str x y c s
  | ReqCenteredText str x y c => gfxDrawCenteredText str x y c s
  | ReqLoadedImage img x y => gfxDrawLoadedImage img x y s
  | ReqImage f x y => gfxDrawImage f x y s
  | ReqScaledImage f x y sc => gfxDrawScaledImage f x y sc s
  | ReqArrow x1 y1 x2 y2 hl t c => gfxDrawArrow x1 y1 x2 y2 hl t c s
  | ReqSprite sh col row x y => gfxDrawSprite sh col row x y s
  | ReqAnimationFrame sq ms x y =>
      call r, s1 <- gfxDrawAnimationDrawFrame sq ms x y s ;; Ret (fst r) s1
  end.

Fixpoint enqueue_all (reqs : list request) (s : state)
  : outcome (list Z) :=
  match reqs with
  | [] => Ret [] s
  | r :: rest =>
      call rc, s1 <- enqueue r s ;;
      call rcs, s2 <- enqueue_all rest s1 ;;
      Ret (rc :: rcs) s2
  end.

(** The job a shape request leaves in the queue. *)
Definition shape_job (sh : shape) : draw_job_t :=
  match sh with
  | Clear c =>
      {| job_type := DRAW_CLEAR;
         job_data := Some (U_clear {| clear_colour := to_uint c |}) |}
  | Box x y w h c =>
      {| job_type := DRAW_RECT;
         job_data := Some (U_rect {| rect_x := to_sshort x;
                                     rect_y := to_sshort y;
                                     rect_w := to_sshort w;
                                     rect_h := to_sshort h;
                                     rect_colour := to_uint c |}) |}
  | FilledBox x y w h c =>
      {| job_type := DRAW_FILLED_RECT;
         job_data := Some (U_rect {| rect_x := to_sshort x;
                                     rect_y := to_sshort y;
                                     rect_w := to_sshort w;
                                     rect_h := to_sshort h;
                                     rect_colour := to_uint c |}) |}
  | Circle x y r c =>
      {| job_type := DRAW_CIRCLE;
         job_data := Some (U_circle {| circle_x := to_sshort x;
                                       circle_y := to_sshort y;
                                       circle_radius := to_sshort r;
                                       circle_colour := to_uint c |}) |}
  | Ellipse x y rx ry c =>
      {| job_type := DRAW_ELLIPSE;
         job_data := Some (U_ellipse {| ellipse_x := to_sshort x;
                                        ellipse_y := to_sshort y;
                                        ellipse_rx := to_sshort rx;
                                        ellipse_ry := to_sshort ry;
                                        ellipse_colour := to_uint c |}) |}
  | Arc x y r st en c =>
      {| job_type := DRAW_ARC;
         job_data := Some (U_arc {| arc_x := to_sshort x;
                                    arc_y := to_sshort y;
                                    arc_radius := to_sshort r;
                                    arc_start := to_sshort st;
                                    arc_end := to_sshort en;
                                    arc_colour := to_uint c |}) |}
  | Line x1 y1 x2 y2 t c =>
      {| job_type := DRAW_LINE;
         job_data := Some (U_line {| line_x1 := to_sshort x1;
                                     line_y1 := to_sshort y1;
                                     line_x2 := to_sshort x2;
                                     line_y2 := to_sshort y2;
                                     line_thickness := to_uchar t;
                                     line_colour := to_uint c |}) |}
  end.

(** Screen position of a job coordinate [v] under the offset [o] current
    at dispatch. *)
Definition shifted (v o : Z) : Z := to_sshort (int_add (to_sshort v) o).

(** The SDL call the dispatch of a shape request makes under the offset
    [o].  (The ellipse row states what [vHandleDrawJob] does, which
    leaves [y] unshifted.) *)
Definition shape_call (o : global_offsets) (sh : shape) : event :=
  let ox := offset_x o in
  let oy := offset_y o in
  match sh with
  | Clear c => Ev_clearDisplay (to_uint c)
  | Box x y w h c =>
      Ev_drawRectangle (shifted x ox) (shifted y oy) (to_sshort w)
                       (to_sshort h) (to_uint c)
  | FilledBox x y w h c =>
      Ev_drawFilledRectangle (shifted x ox) (shifted y oy) (to_sshort w)
                             (to_sshort h) (to_uint c)
  | Circle x y r c =>
      Ev_drawCircle (shifted x ox) (shifted y oy) (to_sshort r) (to_uint c)
  | Ellipse x y rx ry c =>
      Ev_drawEllipse (shifted x ox) (to_sshort y) (to_sshort rx)
                     (to_sshort ry) (to_uint c)
  | Arc x y r st en c =>
      Ev_drawArc (shifted x ox) (shifted y oy) (to_sshort r) (to_sshort st)
                 (to_sshort en) (to_uint c)
  | Line x1 y1 x2 y2 t c =>
      Ev_drawLine (shifted x1 ox) (shifted y1 oy) (shifted x2 ox)
                  (shifted y2 oy) (to_uchar t) (to_uint c)
  end.

(** Dispatch in queue order, as the specification words it: the job at
    the head first, stopping at the first job whose dispatch reports
    [-1], then present the frame. *)
Fixpoint dispatch_in_order (jobs : list draw_job_t) (s : state)
  : outcome Z :=
  match jobs with
  | [] => Ret 0 (log Ev_RenderPresent (set_job_list [] s))
  | j :: rest =>
      match job_data j with
      | None => Ret (-1) (set_job_list rest s)
      | Some _ =>
          call ret, s1 <- vHandleDrawJob (Some j) (set_job_list rest s) ;;
          if ret =? -1 then Ret (-1) s1 else dispatch_in_order rest s1
      end
  end.

(** ** Relations and reference definitions used by the properties *)

(** The queue, the offset and the environment are untouched. *)
Definition frame (s s' : state) : Prop :=
  job_list s' = job_list s /\
  global_offset s' = global_offset s /\
  env s' = env s.

(** [appends s s1 rc]: between [s] and [s1] at most one job was linked,
    behind the jobs already queued, and exactly one if the request
    reported success. *)
Definition appends (s s1 : state) (rc : Z) : Prop :=
  exists js,
    job_list s1 = job_list s ++ js /\
    (List.length js <= 1)%nat /\
    (rc = 0 -> List.length js = 1%nat) /\
    global_offset s1 = global_offset s /\
    env s1 = env s.

(** The job [INIT_JOB] leaves at the tail: the type set, the payload
    zero-filled. *)
Definition queued (TYPE : draw_job_type_t) : draw_job_t :=
  {| job_type := TYPE; job_data := Some (zero_data TYPE) |}.

(** A job coordinate [v] plus the offset [o], as the [signed short]
    parameter of the drawing helper receives the [int] sum. *)
Definition add_offset (v o : Z) : Z := to_sshort (int_add v o).

(** A registry in good order: distinct live nodes that hold distinct open
    fonts, all older than the next address and the next font. *)
Record fonts_wf (s : state) : Prop := {
  wf_sentinel_addr : font_addr (font_list s) = font_list_addr;
  wf_sentinel_font : ref_font (font_ref (font_list s)) = None;
  wf_addrs : NoDup (map font_addr (font_list_next s));
  wf_fonts : NoDup (map (fun f => ref_font (font_ref f)) (font_list_next s));
  wf_nodes :
    Forall (fun f => font_list_addr < font_addr f < next_addr s /\
                     is_freed (font_addr f) (freed s) = false /\
                     exists h, ref_font (font_ref f) = Some h /\
                               h < next_ttf s)
           (font_list_next s);
  wf_freed : Forall (fun a => a < next_addr s) (freed s)
}.

(** Acquisitions and releases of one loaded image, for the counting
    protocol. *)
Inductive ref_op := Acquire | Release.

Definition run_ref_op (a : addr) (op : ref_op) (s : state) : outcome unit :=
  match op with
  | Acquire => get_image (Some a) s
  | Release => vPutLoadedImage (Some a) s
  end.

Fixpoint run_ref_ops (a : addr) (ops : list ref_op) (s : state)
  : outcome unit :=
  match ops with
  | [] => Ret tt s
  | op :: rest => call _u, s1 <- run_ref_op a op s ;; run_ref_ops a rest s1
  end.

Definition ref_op_eq_dec (x y : ref_op) : {x = y} + {x <> y}.
Proof. decide equality. Defined.

Definition ref_delta (op : ref_op) : Z :=
  match op with
  | Acquire => 1
  | Release => -1
  end.

(** [gfxDrawCenteredText] as the claim words it: measure the string,
    then draw it at [(x - w / 2, y - h / 2)], the halves truncated; when
    the measure fails, return [-1] and draw nothing. *)
Definition centered_text_spec (str : option string) (x y colour : Z)
  (s : state) : outcome Z :=
  match gfxGetTextSize str s with
  | Ret (rc, size) s1 =>
      match rc, size with
      | 0, Some (w, h) =>
          gfxDrawText str (to_sshort x - Z.quot w 2)
                      (to_sshort y - Z.quot h 2) colour s1
      | _, _ => Ret (-1) s1
      end
  | Exit c => Exit c
  | Fault f => Fault f
  end.

(** [logs P s s']: between [s] and [s'] the trace only grew, by events
    that satisfy [P]. *)
Definition logs (P : event -> Prop) (s s' : state) : Prop :=
  exists evs, trace s' = trace s ++ evs /\ Forall P evs.

Definition is_draw_call (e : event) : Prop := e <> Ev_RenderPresent.

(** [font.ref_count++] on an entry. *)
Definition bump_ref (f : gfx_font) : gfx_font :=
  set_ref_count (to_uint (ref_count (font_ref f) + 1)) f.

(** The entry [_loadFont] builds in [s] for a font name and a size. *)
Definition loaded_font (s : state) (name : string) (size : Z) : gfx_font :=
  {| font_addr := next_addr s;
     font_path := Some (fonts_dir (env s) ++ name)%string;
     font_name := Some name;
     font_ref := {| ref_font := Some (next_ttf s); ref_count := 0;
                    pending_free := 0 |};
     font_size := to_uint size |}.

(** The calls that give a resource of a loaded image back. *)
(** [gfxDrawAnimationDrawFrame] called once per time step: the timing of
    the instance after the last call. *)
Fixpoint advance_all (anim : animated_sequence_instance_t) (steps : list Z)
  : option animated_sequence_instance_t :=
  match steps with
  | [] => Some anim
  | ms :: rest =>
      match advance_frame anim ms with
      | None => None
      | Some anim' => advance_all anim' rest
      end
  end.

Definition is_forward (d : sprite_sequence_direction) : bool :=
  match d with
  | SPRITE_SEQUENCE_HORIZONTAL_POS | SPRITE_SEQUENCE_VERTICAL_POS => true
  | SPRITE_SEQUENCE_HORIZONTAL_NEG | SPRITE_SEQUENCE_VERTICAL_NEG => false
  end.

(** The time stamp of the last frame change is a whole number of periods,
    at most one period behind the clock of the instance, and the frame
    counts these periods modulo the length of the sequence. *)
Definition on_the_beat (anim : animated_sequence_instance_t) : Prop :=
  let period := frame_period_ms anim in
  let prev := prev_frame_timestamp anim in
  let cur := cur_frame_timestamp anim in
  0 <= prev <= cur /\
  cur <= prev + period /\
  prev mod period = 0 /\
  current_frame anim = (prev / period) mod seq_frames (inst_sequence anim).

Definition is_horizontal (d : sprite_sequence_direction) : bool :=
  match d with
  | SPRITE_SEQUENCE_HORIZONTAL_POS | SPRITE_SEQUENCE_HORIZONTAL_NEG => true
  | SPRITE_SEQUENCE_VERTICAL_POS | SPRITE_SEQUENCE_VERTICAL_NEG => false
  end.

(** The column (row, for a vertical sequence) a sequence starts at. *)
Definition sequence_start (sq : spritesheet_sequence_t) : Z :=
  match seq_direction sq with
  | SPRITE_SEQUENCE_HORIZONTAL_POS | SPRITE_SEQUENCE_HORIZONTAL_NEG =>
      seq_start_col sq
  | SPRITE_SEQUENCE_VERTICAL_POS | SPRITE_SEQUENCE_VERTICAL_NEG =>
      seq_start_row sq
  end.

(** The local [cur_frame_index_offset] of [gfxDrawAnimationDrawFrame]:
    the cell of the sheet, along the direction of the sequence, that the
    current frame is cropped from. *)
Definition cur_frame_index_offset (anim : animated_sequence_instance_t)
  : Z :=
  uint_add (to_uint (current_frame anim))
           (sequence_start (inst_sequence anim))
  mod seq_frames (inst_sequence anim).

(** The loop of [gfxDrawUpdateScreen] taking the jobs [done] off the head
    of the queue and dispatching them one after the other, none of them
    reporting [-1]. *)
Inductive dispatched : state -> list draw_job_t -> state -> Prop :=
| dispatched_none (s : state) : dispatched s [] s
| dispatched_next (s s1 s2 s' : state) (j : draw_job_t) (r : Z)
    (done : list draw_job_t) :
    popDrawJob s = (Some j, s1) ->
    job_data j <> None ->
    vHandleDrawJob (Some j) s1 = Ret r s2 ->
    r <> -1 ->
    dispatched s2 done s' ->
    dispatched s (j :: done) s'.

(** The job at the head of the queue makes the loop give up: it is
    taken off the queue and has no payload, or its dispatch reports
    [-1]. *)
Definition fails_at_head (j : draw_job_t) (s s' : state) : Prop :=
  exists s1,
    popDrawJob s = (Some j, s1) /\
    (job_data j = None /\ s' = s1
     \/
     job_data j <> None /\ vHandleDrawJob (Some j) s1 = Ret (-1) s').

(** ** Concrete states for the scenarios *)

Module Demo.

Definition sdl : backend :=
  {| fonts_dir := "fonts/"%string;
     MAX_FONT_NAME_LENGTH := 256;
     DEFAULT_FONT := "IBMPlexSans-Medium.ttf"%string;
     DEFAULT_FONT_SIZE := 15;
     TTF_OpenFont_ok := fun _ size => size <=? 512;
     TTF_text_size :=
       fun _ str => if strlen str =? 0 then RenderSurfaceFailed
                    else RenderSize (9 * strlen str) 17;
     IMG_LoadTexture := fun _ => Some 1;
     realpath := fun f => Some f;
     render_rc := fun _ => 0;
     is_cur_gl_thread := true;
     frame_period_elapsed := true |}.

Definition sentinel : gfx_font :=
  {| font_addr := font_list_addr; font_path := None; font_name := None;
     font_ref := {| ref_font := None; ref_count := 0; pending_free := 0 |};
     font_size := 0 |}.

(** The globals as the loader leaves them. *)
Definition boot : state :=
  {| job_list := [];
     global_offset := {| offset_x := 0; offset_y := 0 |};
     loaded_images_list := [];
     font_list := sentinel;
     font_list_next := [];
     cur_default_font := None;
     freed := [];
     next_addr := 1;
     next_ttf := 1;
     calloc_plan := [];
     trace := [];
     env := sdl |}.

Definition White : Z := 0xFFFFFF.
Definition Red : Z := 0xFF0000.

Definition after {A : Type} (m : outcome A) : state :=
  match m with
  | Ret _ s => s
  | _ => boot
  end.

End Demo.

Module Animation.

(** A four-frame sequence played right to left with a 100 ms period, as
    [gfxDrawAnimationSequenceInstantiate] returns it: frame 0 and both
    time stamps zero. *)
Definition instance (image : animated_image_t) (name : string)
  (start_row start_col : Z) : animated_sequence_instance_t :=
  {| frame_period_ms := 100;
     current_frame := 0;
     prev_frame_timestamp := 0;
     cur_frame_timestamp := 0;
     inst_image := image;
     inst_sequence :=
       {| seq_name := name;
          seq_start_row := start_row;
          seq_start_col := start_col;
          seq_direction := SPRITE_SEQUENCE_HORIZONTAL_NEG;
          seq_frames := 4 |} |}.

Definition hero : loaded_image_t :=
  {| img_addr := 1; img_filename := "hero.png"%string; img_tex := 7;
     img_ops := 8; img_surf := 9; img_w := 128; img_h := 32;
     img_scale := float_one; img_ref_count := 0; img_pending_free := 0 |}.

Definition sheet : spritesheet_t :=
  {| sheet_image := 1; sheet_x := 0; sheet_y := 0;
     sheet_width := 128; sheet_height := 32;
     sprite_width := 32; sprite_height := 32;
     sprite_cols := 4; sprite_rows := 1;
     padding_x := 0; padding_y := 0 |}.

Definition walk : animated_image_t :=
  {| anim_spritesheet := sheet;
     anim_sequences :=
       [{| seq_name := "walk"%string; seq_start_row := 0;
           seq_start_col := 0;
           seq_direction := SPRITE_SEQUENCE_HORIZONTAL_NEG;
           seq_frames := 4 |}] |}.

Definition stage : state :=
  set_next_addr 2 (set_loaded_images_list [hero] Demo.boot).

End Animation.

Module Sheet.

(** A 100 x 100 box with 5 pixels of padding, on the image at
    address 1. *)
Definition padded : spritesheet_t :=
  {| sheet_image := 1; sheet_x := 0; sheet_y := 0;
     sheet_width := 100; sheet_height := 100;
     sprite_width := 0; sprite_height := 0;
     sprite_cols := 0; sprite_rows := 0;
     padding_x := 5; padding_y := 5 |}.

End Sheet.

Module Fonts.

(** The registry after [gfxFontInit] and one [gfxDrawText]: the default
    font (address 1, backend font 1, size 15) is held by the queued
    job. *)
Definition one_text_job : state :=
  Demo.after (gfxDrawText (Some "hi"%string) 0 0 Demo.Red
                (Demo.after (gfxFontInit Demo.boot))).

Definition default_font : gfx_font :=
  {| font_addr := 1;
     font_path := Some "fonts/IBMPlexSans-Medium.ttf"%string;
     font_name := Some "IBMPlexSans-Medium.ttf"%string;
     font_ref := {| ref_font := Some 1; ref_count := 1;
                    pending_free := 0 |};
     font_size := 15 |}.

End Fonts.

Module Scenes.

(** An SDL whose arrow drawing fails. *)
Definition no_arrows : backend :=
  {| fonts_dir := fonts_dir Demo.sdl;
     MAX_FONT_NAME_LENGTH := MAX_FONT_NAME_LENGTH Demo.sdl;
     DEFAULT_FONT := DEFAULT_FONT Demo.sdl;
     DEFAULT_FONT_SIZE := DEFAULT_FONT_SIZE Demo.sdl;
     TTF_OpenFont_ok := TTF_OpenFont_ok Demo.sdl;
     TTF_text_size := TTF_text_size Demo.sdl;
     IMG_LoadTexture := IMG_LoadTexture Demo.sdl;
     realpath := realpath Demo.sdl;
     render_rc := fun e => match e with
                           | Ev_drawArrow _ _ _ _ _ _ _ => 1
                           | _ => 0
                           end;
     is_cur_gl_thread := true;
     frame_period_elapsed := true |}.

(** A circle, an arrow and a box are queued, in that order. *)
Definition three_jobs : state :=
  Demo.after
    (enqueue_all [ReqShape (Circle 10 20 3 Demo.Red);
                  ReqArrow 0 0 10 10 4 1 Demo.Red;
                  ReqShape (Box 1 2 3 4 Demo.White)]
       {| job_list := [];
          global_offset := {| offset_x := 0; offset_y := 0 |};
          loaded_images_list := [];
          font_list := Demo.sentinel;
          font_list_next := [];
          cur_default_font := None;
          freed := [];
          next_addr := 1;
          next_ttf := 1;
          calloc_plan := [];
          trace := [];
          env := no_arrows |}).

(** The default font was resized to 20 points while a queued text job
    holds it at 15 points. *)
Definition resized : state :=
  Demo.after (gfxFontSetSize 20 Fonts.one_text_job).

(** The registry after [gfxFontInit]: the default font, not referenced. *)
Definition booted : state := Demo.after (gfxFontInit Demo.boot).

Definition booted_font : gfx_font :=
  {| font_addr := 1;
     font_path := Some "fonts/IBMPlexSans-Medium.ttf"%string;
     font_name := Some "IBMPlexSans-Medium.ttf"%string;
     font_ref := {| ref_font := Some 1; ref_count := 0;
                    pending_free := 0 |};
     font_size := 15 |}.

(** A resource directory that holds one image, [hero.png], and one file
    that is no image, [notes.txt]. *)
Definition files (name : string) : image_file :=
  if String.eqb name "hero.png" then Decoded 6 8 9
  else if String.eqb name "notes.txt" then DecodeFailed 4 5
  else FileMissing.

(** An SDL whose calls for the rendering context all succeed: the next
    renderer is 2, and renderer 1 made texture 7 from surface 9. *)
Definition display : video :=
  {| SDL_GL_MakeCurrent := 0;
     SDL_CreateRenderer := Some 2;
     SDL_CreateTextureFromSurface :=
       fun ren surf => 20 * (ren - 1) + surf - 2;
     SDL_QueryTexture := fun _ => (128, 32);
     open_image := files |}.

(** The thread that holds the context of renderer 1, and another
    thread. *)
Definition drawing_thread : gl_binding :=
  {| renderer := Some 1; cur_gl_thread := true |}.

Definition other_thread : gl_binding :=
  {| renderer := Some 1; cur_gl_thread := false |}.

(** Three sprites of 32 x 32 pixels, 4 pixels apart, in a box that
    starts at pixel (10, 0) of the image at address 1, as
    [gfxDrawLoadSpritesheetFromPortionOfImagePaddedSpacing] makes it. *)
Definition strip : spritesheet_t :=
  {| sheet_image := 1; sheet_x := 10; sheet_y := 0;
     sheet_width := 104; sheet_height := 32;
     sprite_width := 32; sprite_height := 32;
     sprite_cols := 3; sprite_rows := 1;
     padding_x := 2; padding_y := 0 |}.

(** A four-frame sequence played left to right with a 100 ms period, as
    [gfxDrawAnimationSequenceInstantiate] returns it. *)
Definition run : spritesheet_sequence_t :=
  {| seq_name := "run"%string; seq_start_row := 0; seq_start_col := 0;
     seq_direction := SPRITE_SEQUENCE_HORIZONTAL_POS; seq_frames := 4 |}.

Definition runner : animated_image_t :=
  {| anim_spritesheet := Animation.sheet; anim_sequences := [run] |}.

Definition forward : animated_sequence_instance_t :=
  {| frame_period_ms := 100; current_frame := 0;
     prev_frame_timestamp := 0; cur_frame_timestamp := 0;
     inst_image := runner; inst_sequence := run |}.

(** A sequence of four frames that starts at the second column. *)
Definition jump : animated_sequence_instance_t :=
  {| frame_period_ms := 100; current_frame := 3;
     prev_frame_timestamp := 300; cur_frame_timestamp := 350;
     inst_image := runner;
     inst_sequence :=
       {| seq_name := "jump"%string; seq_start_row := 0;
          seq_start_col := 1;
          seq_direction := SPRITE_SEQUENCE_HORIZONTAL_POS;
          seq_frames := 4 |} |}.

End Scenes.

(** * Properties *)

(** ** C integer conversions *)

Lemma to_uint_range z : 0 <= to_uint z < 2 ^ 32.
Proof. unfold to_uint. apply Z.mod_pos_bound. lia. Qed.

Lemma to_uint_id z : 0 <= z < 2 ^ 32 -> to_uint z = z.
Proof. intros H. unfold to_uint. apply Z.mod_small. exact H. Qed.

Lemma to_int_id z : - 2 ^ 31 <= z < 2 ^ 31 -> to_int z = z.
Proof. intros H. unfold to_int. rewrite Z.mod_small; lia. Qed.

Lemma to_sshort_id z : - 2 ^ 15 <= z < 2 ^ 15 -> to_sshort z = z.
Proof. intros H. unfold to_sshort. rewrite Z.mod_small; lia. Qed.

Lemma to_sshort_range z : - 2 ^ 15 <= to_sshort z < 2 ^ 15.
Proof.
  unfold to_sshort.
  pose proof (Z.mod_pos_bound (z + 2 ^ 15) (2 ^ 16)). lia.
Qed.

Lemma to_sshort_idem z : to_sshort (to_sshort z) = to_sshort z.
Proof. apply to_sshort_id, to_sshort_range. Qed.

Lemma to_uint_idem z : to_uint (to_uint z) = to_uint z.
Proof. apply to_uint_id, to_uint_range. Qed.

Lemma to_uchar_idem z : to_uchar (to_uchar z) = to_uchar z.
Proof.
  unfold to_uchar. apply Z.mod_small. apply Z.mod_pos_bound. lia.
Qed.

(** ** Framing: what the registries and the environment leave alone *)

Lemma update_last_app {A : Type} (f : A -> A) (l : list A) (x : A) :
  update_last f (l ++ [x]) = l ++ [f x].
Proof.
  induction l as [|y l IH]; [reflexivity|].
  cbn [app update_last]. rewrite IH.
  destruct (l ++ [x]) eqn:E; [|reflexivity].
  destruct l; discriminate.
Qed.

Lemma frame_refl s : frame s s.
Proof. repeat split. Qed.

Lemma frame_trans s1 s2 s3 : frame s1 s2 -> frame s2 s3 -> frame s1 s3.
Proof. unfold frame. intuition congruence. Qed.

(** Case analysis on the innermost scrutinee of a stuck [match]. *)
Ltac break_in H :=
  match type of H with
  | context [match ?x with _ => _ end] =>
      lazymatch x with
      | context [match _ with _ => _ end] => fail
      | _ => destruct x eqn:?
      end
  end.

Ltac invert_ret :=
  repeat match goal with
         | H : Ret _ _ = Ret _ _ |- _ => inversion H; subst; clear H
         | H : (_, _) = (_, _) |- _ => inversion H; subst; clear H
         | H : Exit _ = Ret _ _ |- _ => discriminate H
         | H : Fault _ = Ret _ _ |- _ => discriminate H
         end.

Ltac frame_by_cases H :=
  repeat (break_in H; try discriminate H); invert_ret;
  try (repeat split; reflexivity).

Lemma calloc_frame s ok s1 : calloc s = (ok, s1) -> frame s s1.
Proof. unfold calloc. intros H. frame_by_cases H. Qed.

Lemma calloc_node_frame s r s1 : calloc_node s = (r, s1) -> frame s s1.
Proof.
  unfold calloc_node. intros H.
  destruct (calloc s) as [ok s0] eqn:E. apply calloc_frame in E.
  destruct ok; invert_ret; [|exact E].
  destruct E as (? & ? & ?). repeat split; assumption.
Qed.

Lemma store_font_frame f s : frame s (store_font f s).
Proof. unfold store_font. destruct (_ =? _); repeat split. Qed.

Lemma gfxFontDeleteFont_frame f s u s' :
  gfxFontDeleteFont f s = Ret u s' -> frame s s'.
Proof. unfold gfxFontDeleteFont. intros H. frame_by_cases H. Qed.

Lemma put_font_frame test s u s' : put_font test s = Ret u s' -> frame s s'.
Proof.
  unfold put_font. intros H.
  repeat (break_in H; try discriminate H); invert_ret;
    try (repeat split; reflexivity);
    apply gfxFontDeleteFont_frame in H; exact H.
Qed.

Lemma gfxFontPutFont_frame font s u s' :
  gfxFontPutFont font s = Ret u s' -> frame s s'.
Proof. apply put_font_frame. Qed.

Lemma get_cur_font_frame s f s' : get_cur_font s = Ret f s' -> frame s s'.
Proof.
  unfold get_cur_font. intros H.
  repeat (break_in H; try discriminate H); invert_ret.
  apply store_font_frame.
Qed.

Lemma gfxFontGetCurFont_frame s f s' :
  gfxFontGetCurFont s = Ret f s' -> frame s s'.
Proof.
  unfold gfxFontGetCurFont, bind. intros H.
  destruct (get_cur_font s) eqn:E; try discriminate H. invert_ret.
  eapply get_cur_font_frame; eassumption.
Qed.

Lemma load_image_ret img s i s' : load_image img s = Ret i s' -> s' = s.
Proof. unfold load_image. intros H. frame_by_cases H. Qed.

Lemma freeLoadedImage_frame img s r s' :
  freeLoadedImage img s = Ret r s' -> frame s s'.
Proof. unfold freeLoadedImage. intros H. frame_by_cases H. Qed.

Lemma vPutLoadedImage_frame img s u s' :
  vPutLoadedImage img s = Ret u s' -> frame s s'.
Proof.
  unfold vPutLoadedImage, bind. intros H.
  destruct (load_image img s) eqn:E; try discriminate H.
  apply load_image_ret in E. subst.
  break_in H.
  - destruct (freeLoadedImage _ _) eqn:F; try discriminate H. invert_ret.
    apply freeLoadedImage_frame in F. exact F.
  - invert_ret. repeat split.
Qed.

Lemma get_image_frame img s u s' : get_image img s = Ret u s' -> frame s s'.
Proof.
  unfold get_image, bind. intros H.
  destruct (load_image img s) eqn:E; try discriminate H.
  apply load_image_ret in E. subst. invert_ret. repeat split.
Qed.

Lemma xDrawLoadedImage_frame img x y s r s' :
  xDrawLoadedImage img x y s = Ret r s' -> frame s s'.
Proof.
  unfold xDrawLoadedImage, bind. intros H.
  destruct (load_image img s) eqn:E; try discriminate H.
  apply load_image_ret in E. subst. invert_ret. repeat split.
Qed.

Lemma xDrawLoadedImageCropped_frame img x y cx cy cw ch s r s' :
  xDrawLoadedImageCropped img x y cx cy cw ch s = Ret r s' -> frame s s'.
Proof.
  unfold xDrawLoadedImageCropped, bind. intros H.
  destruct (load_image img s) eqn:E; try discriminate H.
  apply load_image_ret in E. subst. invert_ret. repeat split.
Qed.

Lemma _drawText_frame str x y c font s r s' :
  _drawText str x y c font s = Ret r s' -> frame s s'.
Proof.
  unfold _drawText, bind. intros H.
  destruct (gfxFontPutFont _ _) eqn:E; try discriminate H. invert_ret.
  apply gfxFontPutFont_frame in E.
  destruct E as (? & ? & ?). repeat split; assumption.
Qed.

Lemma _drawPoly_frame pts n xo yo c s r s' :
  _drawPoly pts n xo yo c s = Ret r s' -> frame s s'.
Proof.
  unfold _drawPoly. intros H.
  destruct (calloc s) as [okx s1] eqn:E1.
  destruct (calloc s1) as [oky s2] eqn:E2.
  apply calloc_frame in E1. apply calloc_frame in E2.
  assert (F : frame s s2) by (eapply frame_trans; eassumption).
  destruct F as (? & ? & ?).
  repeat (break_in H; try discriminate H); invert_ret;
    repeat split; assumption.
Qed.

Lemma _drawTriangle_frame pts xo yo c s r s' :
  _drawTriangle pts xo yo c s = Ret r s' -> frame s s'.
Proof. unfold _drawTriangle. intros H. frame_by_cases H. Qed.

(** Dispatching a job changes neither the queue, nor the offset, nor the
    environment. *)
Lemma vHandleDrawJob_frame job s r s' :
  vHandleDrawJob job s = Ret r s' -> frame s s'.
Proof.
  unfold vHandleDrawJob. intros H.
  destruct job as [job|]; [|invert_ret; apply frame_refl].
  destruct (job_data job) as [d|]; [|invert_ret; apply frame_refl].
  destruct (job_type job), d; try discriminate H;
    try (invert_ret; apply frame_refl);
    try (cbv [_clearDisplay _drawArc _drawEllipse _drawRectangle
              _drawFilledRectangle _drawCircle _drawLine _drawArrow] in H;
         invert_ret; repeat split; fail).
  - eapply _drawText_frame; eassumption.
  - eapply _drawPoly_frame; eassumption.
  - eapply _drawTriangle_frame; eassumption.
  - unfold bind, _loadImage, _drawImage, _drawScaledImage in H.
    invert_ret. repeat split.
  - unfold bind in H.
    destruct (xDrawLoadedImage _ _ _ _) eqn:E1; try discriminate H.
    destruct (vPutLoadedImage _ _) eqn:E2; try discriminate H. invert_ret.
    eapply frame_trans;
      [eapply xDrawLoadedImage_frame | eapply vPutLoadedImage_frame];
      eassumption.
  - unfold bind in H.
    destruct (xDrawLoadedImageCropped _ _ _ _ _ _ _ _) eqn:E1;
      try discriminate H.
    destruct (vPutLoadedImage _ _) eqn:E2; try discriminate H. invert_ret.
    eapply frame_trans;
      [eapply xDrawLoadedImageCropped_frame | eapply vPutLoadedImage_frame];
      eassumption.
  - unfold bind, _loadImage, _drawScaledImage in H.
    invert_ret. repeat split.
Qed.

(** ** The drain loop handles the queue from its head *)

Lemma drain_in_order :
  forall (q : list draw_job_t) (s : state) (fuel : nat),
    job_list s = q ->
    (List.length q < fuel)%nat ->
    drain fuel s = dispatch_in_order q s.
Proof.
  induction q as [|j q IH]; intros s fuel Hq Hfuel.
  - destruct fuel; [inversion Hfuel|].
    cbn [drain dispatch_in_order]. unfold popDrawJob. rewrite Hq.
    f_equal. destruct s; cbn in *; subst; reflexivity.
  - destruct fuel; [inversion Hfuel|].
    cbn [drain dispatch_in_order]. unfold popDrawJob. rewrite Hq.
    destruct (job_data j); [|reflexivity].
    unfold bind.
    destruct (vHandleDrawJob (Some j) (set_job_list q s)) as [r s1| |] eqn:E;
      try reflexivity.
    destruct (r =? -1); [reflexivity|].
    apply vHandleDrawJob_frame in E. destruct E as (Hj & _ & _).
    apply IH; [exact Hj|]. cbn [List.length] in Hfuel. lia.
Qed.

(** ** Requests append at the tail *)

Lemma INIT_JOB_ret TYPE s ok s1 :
  INIT_JOB TYPE s = Ret ok s1 ->
  job_list s1 =
    job_list s ++
      (if ok then [{| job_type := TYPE; job_data := Some (zero_data TYPE) |}]
       else []) /\
  global_offset s1 = global_offset s /\
  env s1 = env s /\
  trace s1 = trace s.
Proof.
  unfold INIT_JOB, _pushDrawJob, logCriticalError, calloc. intros H.
  repeat (break_in H; try discriminate H); invert_ret;
    cbn; rewrite ?update_last_app, ?app_nil_r; repeat split; reflexivity.
Qed.

Lemma write_job_last TYPE d s l j0 :
  job_list s = l ++ [j0] ->
  job_list (write_job TYPE d s) =
    l ++ [{| job_type := TYPE; job_data := Some d |}].
Proof.
  intros H. unfold write_job, set_job. cbn. rewrite H.
  exact (update_last_app (fun _ => _) l j0).
Qed.

(** A shape request either fails at the allocation of the job node and
    changes nothing but the allocator, or appends exactly its job. *)
Lemma draw_shape_ret sh s rc s1 :
  draw_shape sh s = Ret rc s1 ->
  (rc = 0 \/ rc = -1) /\
  job_list s1 = job_list s ++ (if rc =? 0 then [shape_job sh] else []) /\
  global_offset s1 = global_offset s /\
  env s1 = env s /\
  trace s1 = trace s.
Proof.
  intros H.
  destruct sh; cbn [draw_shape] in H;
    unfold gfxDrawClear, gfxDrawBox, gfxDrawFilledBox, gfxDrawCircle,
      gfxDrawEllipse, gfxDrawArc, gfxDrawLine, bind in H;
    match type of H with
    | context [INIT_JOB ?T s] =>
        destruct (INIT_JOB T s) as [ok s0| |] eqn:E; try discriminate H;
        apply INIT_JOB_ret in E; destruct E as (Hq & Ho & He & Ht);
        destruct ok; invert_ret; cbn [Z.eqb shape_job];
        [ split; [left; reflexivity|];
          split; [eapply write_job_last; exact Hq|];
          repeat split; assumption
        | split; [right; reflexivity|];
          repeat split; assumption ]
    end.
Qed.

Lemma _getTextSize_frame str s r s' :
  _getTextSize str s = Ret r s' -> frame s s'.
Proof.
  unfold _getTextSize, bind. intros H.
  destruct (gfxFontGetCurFont s) as [font s1| |] eqn:E1; try discriminate H.
  destruct (gfxFontPutFont _ _) as [u s3| |] eqn:E2; try discriminate H.
  apply gfxFontGetCurFont_frame in E1. apply gfxFontPutFont_frame in E2.
  assert (F : frame s s3).
  { eapply frame_trans; [exact E1|].
    destruct E2 as (? & ? & ?). repeat split; assumption. }
  destruct (TTF_text_size _ _ _); invert_ret; exact F.
Qed.

Lemma gfxGetTextSize_frame str s r s' :
  gfxGetTextSize str s = Ret r s' -> frame s s'.
Proof.
  unfold gfxGetTextSize. destruct str; intros H.
  - eapply _getTextSize_frame; eassumption.
  - invert_ret. apply frame_refl.
Qed.

Ltac use_frames :=
  repeat match goal with
         | H : calloc _ = (_, _) |- _ => apply calloc_frame in H
         | H : gfxFontGetCurFont _ = Ret _ _ |- _ =>
             apply gfxFontGetCurFont_frame in H
         | H : get_image _ _ = Ret _ _ |- _ => apply get_image_frame in H
         | H : gfxGetTextSize _ _ = Ret _ _ |- _ =>
             apply gfxGetTextSize_frame in H
         | H : INIT_JOB _ _ = Ret _ _ |- _ => apply INIT_JOB_ret in H
         | H : frame _ _ |- _ => destruct H as (? & ? & ?)
         | H : _ /\ _ |- _ => destruct H
         end.

Ltac to_start :=
  cbn [job_list global_offset env write_job set_job set_job_list
       set_calloc_plan set_trace log];
  repeat match goal with
         | H : job_list _ = _ |- _ => progress rewrite H
         | H : global_offset _ = _ |- _ => progress rewrite H
         | H : env _ = _ |- _ => progress rewrite H
         end.

Ltac solve_appends :=
  use_frames; unfold appends;
  first
    [ exists []; to_start; rewrite ?app_nil_r;
      repeat split; try reflexivity; try (cbn; lia); discriminate
    | eexists; to_start; rewrite ?update_last_app;
      split; [reflexivity|]; repeat split; try reflexivity; cbn; lia ].

Ltac appends_by_cases H :=
  unfold bind in H;
  repeat (break_in H; try discriminate H); invert_ret; solve_appends.

Lemma gfxDrawText_appends str x y c s rc s1 :
  gfxDrawText str x y c s = Ret rc s1 -> appends s s1 rc.
Proof. unfold gfxDrawText. intros H. appends_by_cases H. Qed.

Lemma frame_appends s s1 rc : frame s s1 -> rc <> 0 -> appends s s1 rc.
Proof.
  intros (Hq & Ho & He) Hrc. exists []. rewrite app_nil_r.
  repeat split; auto. intros; contradiction.
Qed.

Lemma appends_trans s s1 s2 rc :
  frame s s1 -> appends s1 s2 rc -> appends s s2 rc.
Proof.
  intros (Hq & Ho & He) (js & H1 & H2 & H3 & H4 & H5).
  exists js. rewrite H1, H4, H5, Hq, Ho, He. repeat split; auto.
Qed.

Lemma gfxDrawCenteredText_appends str x y c s rc s1 :
  gfxDrawCenteredText str x y c s = Ret rc s1 -> appends s s1 rc.
Proof.
  unfold gfxDrawCenteredText, bind. intros H.
  destruct (gfxGetTextSize str s) as [[code size] s0| |] eqn:E;
    try discriminate H.
  apply gfxGetTextSize_frame in E.
  destruct code; try (invert_ret; apply frame_appends; [exact E|lia]).
  destruct size as [[w h]|];
    try (invert_ret; apply frame_appends; [exact E|lia]).
  eapply appends_trans; [exact E|].
  eapply gfxDrawText_appends; eassumption.
Qed.

Lemma draw_shape_appends sh s rc s1 :
  draw_shape sh s = Ret rc s1 -> appends s s1 rc.
Proof.
  intros H. apply draw_shape_ret in H.
  destruct H as ([-> | ->] & Hq & Ho & He & _); cbn in Hq.
  - exists [shape_job sh]. repeat split; auto.
  - exists []. repeat split; auto. discriminate.
Qed.

Lemma gfxDrawPoly_appends pts n c s rc s1 :
  gfxDrawPoly pts n c s = Ret rc s1 -> appends s s1 rc.
Proof. unfold gfxDrawPoly. intros H. appends_by_cases H. Qed.

Lemma gfxDrawTriangle_appends pts c s rc s1 :
  gfxDrawTriangle pts c s = Ret rc s1 -> appends s s1 rc.
Proof. unfold gfxDrawTriangle. intros H. appends_by_cases H. Qed.

Lemma gfxDrawLoadedImage_appends img x y s rc s1 :
  gfxDrawLoadedImage img x y s = Ret rc s1 -> appends s s1 rc.
Proof. unfold gfxDrawLoadedImage. intros H. appends_by_cases H. Qed.

Lemma gfxDrawImage_appends f x y s rc s1 :
  gfxDrawImage f x y s = Ret rc s1 -> appends s s1 rc.
Proof. unfold gfxDrawImage. intros H. appends_by_cases H. Qed.

Lemma gfxDrawScaledImage_appends f x y sc s rc s1 :
  gfxDrawScaledImage f x y sc s = Ret rc s1 -> appends s s1 rc.
Proof. unfold gfxDrawScaledImage. intros H. appends_by_cases H. Qed.

Lemma gfxDrawArrow_appends x1 y1 x2 y2 hl t c s rc s1 :
  gfxDrawArrow x1 y1 x2 y2 hl t c s = Ret rc s1 -> appends s s1 rc.
Proof. unfold gfxDrawArrow. intros H. appends_by_cases H. Qed.

Lemma gfxDrawSprite_appends sh col row x y s rc s1 :
  gfxDrawSprite sh col row x y s = Ret rc s1 -> appends s s1 rc.
Proof. unfold gfxDrawSprite. intros H. appends_by_cases H. Qed.

Lemma gfxDrawAnimationDrawFrame_appends sq ms x y s r s1 :
  gfxDrawAnimationDrawFrame sq ms x y s = Ret r s1 -> appends s s1 (fst r).
Proof.
  unfold gfxDrawAnimationDrawFrame. intros H.
  unfold bind in H.
  repeat (break_in H; try discriminate H); invert_ret;
    cbn [fst]; solve_appends.
Qed.

(** Every public draw request links at most one job, at the tail. *)
Lemma enqueue_appends r s rc s1 :
  enqueue r s = Ret rc s1 -> appends s s1 rc.
Proof.
  destruct r; cbn [enqueue]; intros H.
  - eapply draw_shape_appends; eassumption.
  - eapply gfxDrawPoly_appends; eassumption.
  - eapply gfxDrawTriangle_appends; eassumption.
  - eapply gfxDrawText_appends; eassumption.
  - eapply gfxDrawCenteredText_appends; eassumption.
  - eapply gfxDrawLoadedImage_appends; eassumption.
  - eapply gfxDrawImage_appends; eassumption.
  - eapply gfxDrawScaledImage_appends; eassumption.
  - eapply gfxDrawArrow_appends; eassumption.
  - eapply gfxDrawSprite_appends; eassumption.
  - unfold bind in H.
    destruct (gfxDrawAnimationDrawFrame _ _ _ _ _) eqn:E;
      try discriminate H.
    invert_ret. eapply gfxDrawAnimationDrawFrame_appends; eassumption.
Qed.

Lemma enqueue_all_appends :
  forall reqs s rcs s1,
    enqueue_all reqs s = Ret rcs s1 ->
    exists js,
      job_list s1 = job_list s ++ js /\
      (List.length js <= List.length reqs)%nat /\
      (Forall (fun rc => rc = 0) rcs ->
       List.length js = List.length reqs) /\
      global_offset s1 = global_offset s /\
      env s1 = env s.
Proof.
  induction reqs as [|r reqs IH]; intros s rcs s1 H; cbn [enqueue_all] in H.
  - invert_ret. exists []. rewrite app_nil_r. repeat split; auto.
  - unfold bind in H.
    destruct (enqueue r s) as [rc s0| |] eqn:E; try discriminate H.
    destruct (enqueue_all reqs s0) as [rcs0 s2| |] eqn:E2;
      try discriminate H.
    invert_ret.
    apply enqueue_appends in E. destruct E as (j1 & A1 & A2 & A3 & A4 & A5).
    apply IH in E2. destruct E2 as (j2 & B1 & B2 & B3 & B4 & B5).
    exists (j1 ++ j2). rewrite B1, A1, B4, A4, B5, A5, <- app_assoc.
    rewrite length_app. cbn [List.length].
    repeat split; auto; [lia|].
    intros HF. inversion HF; subst. rewrite A3, B3; auto.
Qed.

(** ** Shape requests: the SDL calls of one drain *)

Lemma vHandleDrawJob_shape sh s :
  vHandleDrawJob (Some (shape_job sh)) s =
    Ret 0 (log (shape_call (global_offset s) sh) s).
Proof.
  destruct sh; cbn [vHandleDrawJob shape_job job_data job_type shape_call];
    unfold _clearDisplay, _drawRectangle, _drawFilledRectangle, _drawCircle,
      _drawEllipse, _drawArc, _drawLine, shifted;
    cbn [clear_colour rect_x rect_y rect_w rect_h rect_colour
         circle_x circle_y circle_radius circle_colour
         ellipse_x ellipse_y ellipse_rx ellipse_ry ellipse_colour
         arc_x arc_y arc_radius arc_start arc_end arc_colour
         line_x1 line_y1 line_x2 line_y2 line_thickness line_colour];
    rewrite ?to_sshort_idem, ?to_uint_idem, ?to_uchar_idem; reflexivity.
Qed.

Lemma dispatch_shapes :
  forall (shs : list shape) (s : state),
  exists s2,
    dispatch_in_order (map shape_job shs) s = Ret 0 s2 /\
    job_list s2 = [] /\
    trace s2 =
      trace s ++ map (shape_call (global_offset s)) shs
        ++ [Ev_RenderPresent].
Proof.
  induction shs as [|sh shs IH]; intros s.
  - cbn. eexists. repeat split.
  - cbn [map dispatch_in_order].
    replace (job_data (shape_job sh)) with
      (Some (match job_data (shape_job sh) with
             | Some d => d
             | None => U_clear {| clear_colour := 0 |}
             end)) by (destruct sh; reflexivity).
    rewrite vHandleDrawJob_shape. cbn [bind Z.eqb].
    destruct (IH (log (shape_call (global_offset (set_job_list
                                                   (map shape_job shs) s))
                                   sh)
                      (set_job_list (map shape_job shs) s)))
      as (s2 & H1 & H2 & H3).
    exists s2. split; [exact H1|]. split; [exact H2|].
    rewrite H3. cbn. rewrite <- app_assoc. reflexivity.
Qed.

Lemma enqueue_shapes :
  forall (shs : list shape) (s : state) (rcs : list Z) (s1 : state),
    enqueue_all (map ReqShape shs) s = Ret rcs s1 ->
    Forall (fun rc => rc = 0) rcs ->
    job_list s1 = job_list s ++ map shape_job shs /\
    global_offset s1 = global_offset s /\
    env s1 = env s /\
    trace s1 = trace s.
Proof.
  induction shs as [|sh shs IH]; intros s rcs s1 H HF;
    cbn [map enqueue_all] in H.
  - invert_ret. rewrite app_nil_r. repeat split.
  - unfold bind in H. cbn [enqueue] in H.
    destruct (draw_shape sh s) as [rc s0| |] eqn:E; try discriminate H.
    destruct (enqueue_all (map ReqShape shs) s0) as [rcs0 s2| |] eqn:E2;
      try discriminate H.
    invert_ret. inversion HF as [|rc0 rcs1 Hrc Hrcs]; subst.
    apply draw_shape_ret in E. cbn [Z.eqb] in E.
    destruct E as (_ & A1 & A2 & A3 & A4).
    destruct (IH _ _ _ E2 Hrcs) as (B1 & B2 & B3 & B4).
    rewrite B1, A1, B2, A2, B3, A3, B4, A4, <- app_assoc.
    repeat split.
Qed.

Lemma gfxDrawUpdateScreen_drains s :
  is_cur_gl_thread (env s) = true ->
  frame_period_elapsed (env s) = true ->
  job_list s <> [] ->
  gfxDrawUpdateScreen s = dispatch_in_order (job_list s) s.
Proof.
  intros Hgl Hfps Hq. unfold gfxDrawUpdateScreen, _waitingDrawJobs.
  rewrite Hgl, Hfps. cbn [negb].
  destruct (job_list s) eqn:E; [contradiction|]. cbn [Z.eqb].
  rewrite <- E. apply drain_in_order; [reflexivity|lia].
Qed.

(** ** C1: one global FIFO order *)

(** C1.  Whatever requests are enqueued, in whatever number, (1) each
    successful one links its job behind the jobs already queued, (2) one
    [gfxDrawUpdateScreen] dispatches the queue from its head, job by job
    in queue order, and (3) for a queue built from shape requests alone,
    starting empty, the backend receives exactly one call per request, in
    the order of the requests, with the request's parameters and the
    offset current at the drain added to the coordinates, followed by the
    presentation of the frame. *)
Theorem fifo_dispatch :
  forall (s : state) (reqs : list request) (rcs : list Z) (s1 : state),
    is_cur_gl_thread (env s) = true ->
    frame_period_elapsed (env s) = true ->
    enqueue_all reqs s = Ret rcs s1 ->
    (exists js,
        job_list s1 = job_list s ++ js /\
        (List.length js <= List.length reqs)%nat /\
        (Forall (fun rc => rc = 0) rcs ->
         List.length js = List.length reqs)) /\
    (job_list s1 <> [] ->
     gfxDrawUpdateScreen s1 = dispatch_in_order (job_list s1) s1) /\
    (forall shs : list shape,
        reqs = map ReqShape shs ->
        shs <> [] ->
        job_list s = [] ->
        Forall (fun rc => rc = 0) rcs ->
        exists s2,
          gfxDrawUpdateScreen s1 = Ret 0 s2 /\
          job_list s2 = [] /\
          trace s2 =
            trace s ++ map (shape_call (global_offset s1)) shs
              ++ [Ev_RenderPresent]).
Proof.
  intros s reqs rcs s1 Hgl Hfps Hrun.
  destruct (enqueue_all_appends _ _ _ _ Hrun) as (js & A1 & A2 & A3 & A4 & A5).
  assert (Hgl1 : is_cur_gl_thread (env s1) = true) by (rewrite A5; exact Hgl).
  assert (Hfps1 : frame_period_elapsed (env s1) = true)
    by (rewrite A5; exact Hfps).
  split; [exists js; auto|].
  split; [apply gfxDrawUpdateScreen_drains; assumption|].
  intros shs -> Hne Hempty HF.
  destruct (enqueue_shapes _ _ _ _ Hrun HF) as (B1 & B2 & B3 & B4).
  rewrite Hempty in B1. cbn [app] in B1.
  rewrite gfxDrawUpdateScreen_drains; try assumption.
  - rewrite B1. destruct (dispatch_shapes shs s1) as (s2 & C1 & C2 & C3).
    exists s2. rewrite <- B4. auto.
  - rewrite B1. destruct shs; [contradiction|discriminate].
Qed.

(** The scenario of the specification: [clear (White)], then
    [filled_rect (10, 10, 20, 20, Red)], with the offset set to (3, 4)
    before the drain. *)
Lemma fifo_dispatch_witness :
  let s := Demo.after (gfxDrawSetGlobalYOffset 4
             (Demo.after (gfxDrawSetGlobalXOffset 3 Demo.boot))) in
  let shs := [Clear Demo.White; FilledBox 10 10 20 20 Demo.Red] in
  let s1 := Demo.after (enqueue_all (map ReqShape shs) s) in
  enqueue_all (map ReqShape shs) s = Ret [0; 0] s1 /\
  exists s2,
    gfxDrawUpdateScreen s1 = Ret 0 s2 /\
    job_list s2 = [] /\
    trace s2 = [Ev_clearDisplay 0xFFFFFF;
                Ev_drawFilledRectangle 13 14 20 20 0xFF0000;
                Ev_RenderPresent].
Proof.
  intros s shs s1. split; [reflexivity|].
  destruct (fifo_dispatch s (map ReqShape shs) [0; 0] s1
              eq_refl eq_refl eq_refl) as (_ & _ & H).
  apply (H shs eq_refl).
  - discriminate.
  - reflexivity.
  - repeat constructor.
Defined.

(** ** C2: allocation failures while a job is being built *)

(** The two allocations of [INIT_JOB]: a failed job node leaves the queue
    as it was; a failed data union ends the process. *)
Lemma INIT_JOB_node_failure TYPE s p :
  INIT_JOB TYPE (set_calloc_plan (false :: p) s) =
    Ret false (set_calloc_plan p s).
Proof. reflexivity. Qed.

Lemma INIT_JOB_data_failure TYPE s p :
  INIT_JOB TYPE (set_calloc_plan (true :: false :: p) s) = Exit (-1).
Proof. reflexivity. Qed.

(** C2 (the code departs from the claim).  When the third allocation of
    [gfxDrawText], [gfxDrawPoly] or [gfxDrawTriangle] fails (the copy of
    the string or of the points), the call returns [-1] but the job that
    [INIT_JOB] linked stays in the queue, with the zero-filled payload;
    the triangle left that way makes the next drain dereference a null
    pointer. *)
Theorem failed_copy_stays_queued :
  forall (s : state) (p : list bool),
    (forall ch rest x y colour,
        gfxDrawText (Some (String ch rest)) x y colour
                    (set_calloc_plan (true :: true :: false :: p) s) =
          Ret (-1) (set_job_list (job_list s ++ [queued DRAW_TEXT])
                      (set_calloc_plan p s))) /\
    (forall points n colour,
        gfxDrawPoly points n colour
                    (set_calloc_plan (true :: true :: false :: p) s) =
          Ret (-1) (set_job_list (job_list s ++ [queued DRAW_POLY])
                      (set_calloc_plan p s))) /\
    (forall points colour,
        gfxDrawTriangle points colour
                        (set_calloc_plan (true :: true :: false :: p) s) =
          Ret (-1) (set_job_list (job_list s ++ [queued DRAW_TRIANGLE])
                      (set_calloc_plan p s))) /\
    vHandleDrawJob (Some (queued DRAW_TRIANGLE)) s = Fault NullDereference.
Proof.
  intros s p. repeat split; intros;
    cbv [gfxDrawText gfxDrawPoly gfxDrawTriangle INIT_JOB _pushDrawJob
         calloc bind String.eqb set_job queued];
    cbn [calloc_plan set_calloc_plan job_list set_job_list andb];
    rewrite ?update_last_app; reflexivity.
Qed.

(** The same on the start state: one failed [gfxDrawText], and the queue
    that was empty holds a text job with neither string nor font. *)
Example failed_text_request :
  let s := set_calloc_plan [true; true; false]
             (Demo.after (gfxFontInit Demo.boot)) in
  job_list s = [] /\
  exists s1,
    gfxDrawText (Some "hi"%string) 5 6 Demo.Red s = Ret (-1) s1 /\
    job_list s1 =
      [{| job_type := DRAW_TEXT;
          job_data := Some (U_text {| text_str := None; text_x := 0;
                                      text_y := 0; text_colour := 0;
                                      text_font := None |}) |}].
Proof. vm_compute. split; [reflexivity|]. eexists. split; reflexivity. Qed.

(** ** C3: the global offset at dispatch *)

(** C3 (the code departs from the claim).  The dispatch of an ellipse job
    adds the offset to [x] only: whatever the offset, SDL receives the
    job's own [y].  In the scenario a circle and an ellipse are requested
    at (10, 20), the offset is then set to (5, 7), and the drain draws the
    circle at (15, 27) but the ellipse at (15, 20). *)
Theorem ellipse_ignores_y_offset :
  (forall (s : state) (x y rx ry colour ox oy : Z),
      let s' := set_global_offset {| offset_x := ox; offset_y := oy |} s in
      vHandleDrawJob (Some (shape_job (Ellipse x y rx ry colour))) s' =
        Ret 0 (log (Ev_drawEllipse (shifted x ox) (to_sshort y)
                      (to_sshort rx) (to_sshort ry) (to_uint colour)) s')) /\
  (let s1 := Demo.after (gfxDrawCircle 10 20 3 Demo.Red Demo.boot) in
   let s2 := Demo.after (gfxDrawEllipse 10 20 3 4 Demo.Red s1) in
   let s3 := Demo.after (gfxDrawSetGlobalXOffset 5 s2) in
   let s4 := Demo.after (gfxDrawSetGlobalYOffset 7 s3) in
   exists s5,
     gfxDrawUpdateScreen s4 = Ret 0 s5 /\
     trace s5 = [Ev_drawCircle 15 27 3 0xFF0000;
                 Ev_drawEllipse 15 20 3 4 0xFF0000;
                 Ev_RenderPresent]).
Proof.
  split.
  - intros. apply (vHandleDrawJob_shape (Ellipse x y rx ry colour)).
  - vm_compute. eexists. split; reflexivity.
Qed.

(** The other coordinate-bearing kinds: each dispatch hands SDL the job's
    coordinates with the offset added on both axes. *)
Lemma dispatch_arrow_offsets d s :
  let o := global_offset s in
  let e := Ev_drawArrow (add_offset (arrow_x1 d) (offset_x o))
             (add_offset (arrow_y1 d) (offset_y o))
             (add_offset (arrow_x2 d) (offset_x o))
             (add_offset (arrow_y2 d) (offset_y o))
             (to_sshort (arrow_head_length d))
             (to_uchar (arrow_thickness d)) (to_uint (arrow_colour d)) in
  vHandleDrawJob
    (Some {| job_type := DRAW_ARROW; job_data := Some (U_arrow d) |}) s =
    Ret (if render_rc (env s) e =? 0 then 0 else -1) (log e s).
Proof. reflexivity. Qed.

Lemma dispatch_text_offsets d s rc s' :
  vHandleDrawJob
    (Some {| job_type := DRAW_TEXT; job_data := Some (U_text d) |}) s =
    Ret rc s' ->
  exists pre,
    trace s' =
      pre ++ [Ev_CopyText
                (add_offset (text_x d) (offset_x (global_offset s)))
                (add_offset (text_y d) (offset_y (global_offset s)))].
Proof.
  cbn [vHandleDrawJob job_data job_type]. unfold _drawText, bind.
  intros H.
  destruct (gfxFontPutFont _ _) as [u s2| |]; try discriminate H.
  invert_ret. eexists. reflexivity.
Qed.

Lemma dispatch_poly_offsets d s rc s' :
  vHandleDrawJob
    (Some {| job_type := DRAW_POLY; job_data := Some (U_poly d) |}) s =
    Ret rc s' ->
  exists pts,
    (to_uint (poly_n d) = 0 /\ pts = [] \/
     exists all, poly_points d = Some all /\
                 pts = firstn (Z.to_nat (to_uint (poly_n d))) all) /\
    trace s' =
      trace s ++
        [Ev_drawPoly
           (map (fun p => add_offset (coord_x p)
                            (offset_x (global_offset s))) pts)
           (map (fun p => add_offset (coord_y p)
                            (offset_y (global_offset s))) pts)
           (to_uint (poly_n d)) (to_sshort (poly_colour d))].
Proof.
  cbn [vHandleDrawJob job_data job_type]. unfold _drawPoly, calloc.
  intros H.
  repeat (break_in H; try discriminate H); invert_ret;
    cbn [trace log set_trace set_calloc_plan];
    match goal with
    | E : (to_uint _ =? 0) = true |- _ =>
        apply Z.eqb_eq in E; rewrite E; exists []; split;
        [left; split; reflexivity | reflexivity]
    | |- _ =>
        eexists; split; [right; eexists; split; reflexivity | reflexivity]
    end.
Qed.

Lemma dispatch_triangle_offsets p0 p1 p2 rest colour s :
  let o := global_offset s in
  vHandleDrawJob
    (Some {| job_type := DRAW_TRIANGLE;
             job_data := Some (U_triangle
                                 {| triangle_points :=
                                      Some (p0 :: p1 :: p2 :: rest);
                                    triangle_colour := colour |}) |}) s =
    Ret 0 (log (Ev_drawTriangle
                  (add_offset (coord_x p0) (offset_x o))
                  (add_offset (coord_y p0) (offset_y o))
                  (add_offset (coord_x p1) (offset_x o))
                  (add_offset (coord_y p1) (offset_y o))
                  (add_offset (coord_x p2) (offset_x o))
                  (add_offset (coord_y p2) (offset_y o))
                  (to_uint colour)) s).
Proof. reflexivity. Qed.

Lemma dispatch_image_offsets d s :
  let o := global_offset s in
  let tex := IMG_LoadTexture (env s) (image_filename d) in
  let e := Ev_drawScaledImage tex (add_offset (image_x d) (offset_x o))
             (add_offset (image_y d) (offset_y o)) float_one in
  vHandleDrawJob
    (Some {| job_type := DRAW_IMAGE; job_data := Some (U_image d) |}) s =
    Ret (if render_rc (env s) e =? 0 then 0 else -1)
        (log e (log (Ev_loadImage (image_filename d)) s)).
Proof. reflexivity. Qed.

Lemma dispatch_scaled_image_offsets d s :
  let o := global_offset s in
  let tex := IMG_LoadTexture (env s) (image_filename (scaled_image d)) in
  let e := Ev_drawScaledImage tex
             (add_offset (image_x (scaled_image d)) (offset_x o))
             (add_offset (image_y (scaled_image d)) (offset_y o))
             (scaled_scale d) in
  vHandleDrawJob
    (Some {| job_type := DRAW_SCALED_IMAGE;
             job_data := Some (U_scaled_image d) |}) s =
    Ret (if render_rc (env s) e =? 0 then 0 else -1)
        (log e (log (Ev_loadImage (image_filename (scaled_image d))) s)).
Proof. reflexivity. Qed.

Lemma dispatch_loaded_image_offsets d s rc s' :
  vHandleDrawJob
    (Some {| job_type := DRAW_LOADED_IMAGE;
             job_data := Some (U_loaded_image d) |}) s = Ret rc s' ->
  exists i post,
    load_image (loaded_img d) s = Ret i s /\
    trace s' =
      trace s ++
        Ev_drawLoadedImage (img_tex i)
          (add_offset (loaded_x d) (offset_x (global_offset s)))
          (add_offset (loaded_y d) (offset_y (global_offset s)))
          (img_w i) (img_h i) (img_scale i) :: post.
Proof.
  cbn [vHandleDrawJob job_data job_type].
  unfold xDrawLoadedImage, bind. intros H.
  destruct (load_image (loaded_img d) s) as [i s0| |] eqn:E;
    try discriminate H.
  pose proof (load_image_ret _ _ _ _ E); subst s0.
  destruct (vPutLoadedImage _ _) as [u s2| |] eqn:P; try discriminate H.
  invert_ret. exists i.
  unfold vPutLoadedImage, bind, load_image in P.
  cbn [loaded_images_list log set_trace] in P.
  unfold load_image in E.
  destruct (loaded_img d) as [a|]; try discriminate E.
  destruct (find_image a (loaded_images_list s)); try discriminate E.
  invert_ret. unfold freeLoadedImage, store_image in P.
  repeat (break_in P; try discriminate P); invert_ret;
    cbn [trace log set_trace free_node set_freed set_loaded_images_list];
    rewrite <- ?app_assoc; eexists; split; reflexivity.
Qed.

Lemma dispatch_cropped_image_offsets d s rc s' :
  vHandleDrawJob
    (Some {| job_type := DRAW_LOADED_IMAGE_CROP;
             job_data := Some (U_loaded_image_crop d) |}) s = Ret rc s' ->
  exists i post,
    load_image (crop_image d) s = Ret i s /\
    trace s' =
      trace s ++
        Ev_drawLoadedImageCropped (img_tex i)
          (add_offset (crop_x d) (offset_x (global_offset s)))
          (add_offset (crop_y d) (offset_y (global_offset s)))
          (to_sshort (crop_c_x d)) (to_sshort (crop_c_y d))
          (to_sshort (crop_c_w d)) (to_sshort (crop_c_h d)) :: post.
Proof.
  cbn [vHandleDrawJob job_data job_type].
  unfold xDrawLoadedImageCropped, bind. intros H.
  destruct (load_image (crop_image d) s) as [i s0| |] eqn:E;
    try discriminate H.
  pose proof (load_image_ret _ _ _ _ E); subst s0.
  destruct (vPutLoadedImage _ _) as [u s2| |] eqn:P; try discriminate H.
  invert_ret. exists i.
  unfold vPutLoadedImage, bind, load_image in P.
  cbn [loaded_images_list log set_trace] in P.
  unfold load_image in E.
  destruct (crop_image d) as [a|]; try discriminate E.
  destruct (find_image a (loaded_images_list s)); try discriminate E.
  invert_ret. unfold freeLoadedImage, store_image in P.
  repeat (break_in P; try discriminate P); invert_ret;
    cbn [trace log set_trace free_node set_freed set_loaded_images_list];
    rewrite <- ?app_assoc; eexists; split; reflexivity.
Qed.

(** ** C4: one frame advance in a negative direction *)

(** The timing part on the instance of the claim, for an elapsed time of
    one period up to (not including) two. *)
Lemma advance_frame_negative image name r c ms :
  100 <= ms < 200 ->
  advance_frame (Animation.instance image name r c) ms =
    Some (if ms =? 100
          then set_timing 0 0 100 (Animation.instance image name r c)
          else set_timing 3 100 ms (Animation.instance image name r c)).
Proof.
  intros H. unfold advance_frame, Animation.instance, uint_add, uint_sub,
    uint_mul.
  cbn [cur_frame_timestamp prev_frame_timestamp frame_period_ms
       inst_sequence seq_frames seq_direction current_frame].
  destruct (Z.eqb_spec ms 100) as [->|Hne]; [reflexivity|].
  change (to_uint 0) with 0. rewrite ?Z.add_0_l, ?Z.sub_0_r.
  repeat rewrite (to_uint_id ms) by lia.
  change (to_uint 100) with 100.
  destruct (Z.gtb_spec ms 100) as [Hgt|Hle]; [|lia].
  cbn [Z.eqb].
  assert (Hsteps : ms / 100 = 1).
  { symmetry. apply Z.div_unique with (r := ms - 100); lia. }
  rewrite Hsteps. reflexivity.
Qed.

(** C4, as stated, fails: after 100 ms exactly the test
    [cur_frame_timestamp > prev_frame_timestamp + frame_period_ms] is
    false, no step is taken and the frame stays 0. *)
Lemma negative_wrap_at_100ms_counterexample :
  exists anim' s',
    gfxDrawAnimationDrawFrame
      (Some (Animation.instance Animation.walk "walk" 0 0)) 100 0 0
      Animation.stage = Ret (0, Some anim') s' /\
    current_frame anim' = 0 /\
    current_frame anim' <> 3.
Proof.
  vm_compute. eexists. eexists. split; [reflexivity|].
  split; [reflexivity|]. discriminate.
Qed.

(** C4, amended.  For the instance of the claim, one call of
    [gfxDrawAnimationDrawFrame] with an elapsed time of 100 ms leaves
    [current_frame = 0] (the comparison with the period is strict), and
    with an elapsed time from 101 to 199 ms it leaves
    [current_frame = 3], having consumed one period.  The instance is
    updated before the job is built, so this holds whenever the call
    returns; it returns 0 when the allocations succeed and the sheet's
    image is registered. *)
Theorem negative_wrap_after_one_period :
  forall (image : animated_image_t) (name : string) (r c ms x y : Z)
         (s : state),
    100 <= ms < 200 ->
    let anim := Animation.instance image name r c in
    let anim' := if ms =? 100 then set_timing 0 0 100 anim
                 else set_timing 3 100 ms anim in
    current_frame anim' = (if ms =? 100 then 0 else 3) /\
    (forall rc a s',
        gfxDrawAnimationDrawFrame (Some anim) ms x y s = Ret (rc, a) s' ->
        a = Some anim') /\
    (calloc_plan s = [] ->
     find_image (sheet_image (anim_spritesheet image))
                (loaded_images_list s) <> None ->
     exists s',
       gfxDrawAnimationDrawFrame (Some anim) ms x y s =
         Ret (0, Some anim') s').
Proof.
  intros image name r c ms x y s Hms anim anim'.
  split; [subst anim'; destruct (ms =? 100); reflexivity|].
  unfold gfxDrawAnimationDrawFrame.
  subst anim. rewrite (advance_frame_negative image name r c ms Hms).
  fold anim'.
  assert (Himg : inst_image anim' = image)
    by (subst anim'; destruct (ms =? 100); reflexivity).
  assert (Hcrop : frame_crop anim' <> None).
  { subst anim'. unfold frame_crop. destruct (ms =? 100); discriminate. }
  clearbody anim'.
  split.
  - intros rc a s' H. unfold bind in H.
    repeat (break_in H; try discriminate H); invert_ret; reflexivity.
  - intros Hplan Hfound. rewrite Himg.
    destruct s; cbn [calloc_plan loaded_images_list] in Hplan, Hfound.
    subst.
    cbv [INIT_JOB _pushDrawJob calloc bind get_image load_image].
    cbn [calloc_plan set_job_list set_job job_list loaded_images_list].
    destruct (find_image _ _) as [i|]; [|contradiction].
    destruct (frame_crop anim') as [[cx cy]|]; [|contradiction].
    eexists. reflexivity.
Qed.

(** The amended claim at 150 ms, on a registry that holds the sheet's
    image. *)
Lemma negative_wrap_after_one_period_witness :
  100 <= 150 < 200 /\
  exists s',
    gfxDrawAnimationDrawFrame
      (Some (Animation.instance Animation.walk "walk" 0 0)) 150 0 0
      Animation.stage =
      Ret (0, Some (set_timing 3 100 150
                      (Animation.instance Animation.walk "walk" 0 0))) s'.
Proof.
  split; [lia|].
  destruct (negative_wrap_after_one_period Animation.walk "walk" 0 0 150
              0 0 Animation.stage ltac:(lia)) as (_ & _ & H).
  apply H; [reflexivity|discriminate].
Defined.

(** ** The font registry: list lemmas *)

Lemma find_font_split a l f :
  find_font a l = Some f ->
  exists pre post,
    l = pre ++ f :: post /\
    font_addr f = a /\
    Forall (fun g => font_addr g <> a) pre.
Proof.
  induction l as [|g l IH]; cbn [find_font]; [discriminate|].
  destruct (Z.eqb_spec (font_addr g) a) as [E|E]; intros H.
  - inversion H; subst. exists [], l. repeat split. constructor.
  - destruct (IH H) as (pre & post & -> & Ha & Hpre).
    exists (g :: pre), post. repeat split; auto.
Qed.

Lemma find_font_at a pre f post :
  font_addr f = a ->
  Forall (fun g => font_addr g <> a) pre ->
  find_font a (pre ++ f :: post) = Some f.
Proof.
  intros Hf Hpre. induction Hpre as [|g pre Hg _ IH]; cbn [app find_font].
  - rewrite Hf, Z.eqb_refl. reflexivity.
  - destruct (Z.eqb_spec (font_addr g) a); [contradiction|exact IH].
Qed.

Lemma find_font_skip a pre l :
  Forall (fun g => font_addr g <> a) pre ->
  find_font a (pre ++ l) = find_font a l.
Proof.
  intros Hpre. induction Hpre as [|g pre Hg _ IH]; cbn [app find_font].
  - reflexivity.
  - destruct (Z.eqb_spec (font_addr g) a); [contradiction|exact IH].
Qed.

Lemma update_font_at f' pre f post :
  font_addr f = font_addr f' ->
  Forall (fun g => font_addr g <> font_addr f') pre ->
  update_font f' (pre ++ f :: post) = pre ++ f' :: post.
Proof.
  intros Hf Hpre. induction Hpre as [|g pre Hg _ IH]; cbn [app update_font].
  - rewrite Hf, Z.eqb_refl. reflexivity.
  - destruct (Z.eqb_spec (font_addr g) (font_addr f'));
      [contradiction|rewrite IH; reflexivity].
Qed.

(** The release loop at the entry it selects. *)
Lemma put_walk_at test fr pre f post :
  Forall (fun g => is_freed (font_addr g) fr = false /\ test g = false) pre ->
  is_freed (font_addr f) fr = false ->
  test f = true ->
  put_walk test fr (pre ++ f :: post) =
    if put_deletes (put_ref f) then
      match post with
      | [] => PutHit (pre ++ [put_ref f]) (Some (put_ref f))
      | _ :: _ => PutHit (pre ++ post) (Some (put_ref f))
      end
    else PutHit (pre ++ put_ref f :: post) None.
Proof.
  intros Hpre Hlive Htest.
  induction Hpre as [|g pre [Hg1 Hg2] _ IH]; cbn [app put_walk].
  - rewrite Hlive, Htest. destruct (put_deletes (put_ref f)); [|reflexivity].
    destruct post; reflexivity.
  - rewrite Hg1, Hg2, IH. destruct (put_deletes (put_ref f)); [|reflexivity].
    destruct post; reflexivity.
Qed.

Lemma is_freed_fresh a fr :
  Forall (fun b => b < a) fr -> is_freed a fr = false.
Proof.
  intros H. induction H as [|b fr Hb _ IH]; [reflexivity|].
  cbn [is_freed existsb]. fold (is_freed a fr). rewrite IH.
  destruct (Z.eqb_spec a b); [lia|reflexivity].
Qed.

Lemma NoDup_map_split {A B : Type} (g : A -> B) pre x post :
  NoDup (map g (pre ++ x :: post)) ->
  Forall (fun y => g y <> g x) pre.
Proof.
  rewrite map_app. cbn [map]. intros H.
  apply NoDup_remove_2 in H.
  apply Forall_forall. intros y Hy E. apply H.
  apply in_or_app. left. rewrite <- E. apply in_map. exact Hy.
Qed.

Lemma option_Z_eqb_refl x : option_Z_eqb x x = true.
Proof. destruct x; cbn; [apply Z.eqb_refl|reflexivity]. Qed.

Lemma option_Z_eqb_neq x y : x <> y -> option_Z_eqb x y = false.
Proof.
  destruct x, y; cbn; intros H; try reflexivity; [|contradiction].
  destruct (Z.eqb_spec z z0); [subst; contradiction|reflexivity].
Qed.

Lemma is_freed_cons a b fr :
  is_freed a (b :: fr) = (a =? b) || is_freed a fr.
Proof. reflexivity. Qed.

Lemma match_snoc {A B : Type} (l : list A) (x : A) (b1 b2 : B) :
  match l ++ [x] with
  | [] => b1
  | _ :: _ => b2
  end = b2.
Proof. destruct l; reflexivity. Qed.

(** ** C7: [gfxFontSetSize] on a font that is still referenced *)

(** Whether or not the new entry can be loaded, [gfxFontSetSize] on a
    referenced font makes no backend call other than opening a font. *)
Lemma set_size_referenced_closes_nothing s a cur size rc s1 :
  cur_default_font s = Some a ->
  load_font a s = Some cur ->
  ref_count (font_ref cur) <> 0 ->
  gfxFontSetSize size s = Ret rc s1 ->
  exists evs,
    trace s1 = trace s ++ evs /\
    Forall (fun e => exists p z r, e = Ev_TTF_OpenFont p z r) evs.
Proof.
  intros Hcur Hload Hrc H. unfold gfxFontSetSize in H.
  rewrite Hcur, Hload in H.
  destruct (font_size cur =? size).
  { invert_ret. exists []. rewrite app_nil_r. split; [reflexivity|constructor]. }
  destruct (Z.eqb_spec (ref_count (font_ref cur)) 0) as [E|_];
    [contradiction|].
  unfold bind, _appendFont, _loadFont, calloc_node, _getFontPath, calloc,
    bind in H.
  assert (Ht : forall f st, trace (store_font f st) = trace st).
  { intros f st. unfold store_font. destruct (_ =? _); reflexivity. }
  repeat (break_in H; try discriminate H); invert_ret;
    cbn [trace set_cur_default_font set_font_list_next log set_trace
         free_node set_freed set_next_ttf set_next_addr set_calloc_plan];
    rewrite ?Ht;
    first
      [ exists []; rewrite app_nil_r; split; [reflexivity|constructor]
      | eexists; split; [reflexivity|];
        constructor; [do 3 eexists; reflexivity|constructor] ].
Qed.

(** C7.  In a registry in good order whose current default font [cur]
    (backend font [h]) has a reference count of at least 1, a successful
    [gfxFontSetSize] to another size closes nothing: its only backend call
    opens the new font.  The old entry stays registered with the same
    backend font and count, now marked pending-free; the new default is
    a distinct, freshly appended entry of the new size with its own
    backend font.  [h] is closed by the release that takes the count from
    1 to 0, which also removes the old entry; a release that leaves the
    count positive closes nothing. *)
Theorem set_size_defers_close :
  forall (s : state) (a : addr) (cur : gfx_font) (h : TTF_Font)
         (nm : string) (size : Z),
    fonts_wf s ->
    cur_default_font s = Some a ->
    find_font a (font_list_next s) = Some cur ->
    ref_font (font_ref cur) = Some h ->
    font_name cur = Some nm ->
    1 <= ref_count (font_ref cur) < 2 ^ 32 ->
    font_size cur <> size ->
    calloc_plan s = [] ->
    strlen (fonts_dir (env s)) + strlen nm <= MAX_FONT_NAME_LENGTH (env s) ->
    TTF_OpenFont_ok (env s) (fonts_dir (env s) ++ nm)%string
                    (to_int (to_uint size)) = true ->
    let a' := next_addr s in
    let h' := next_ttf s in
    let old := set_pending_free 1 cur in
    let new := {| font_addr := a';
                  font_path := Some (fonts_dir (env s) ++ nm)%string;
                  font_name := Some nm;
                  font_ref := {| ref_font := Some h'; ref_count := 0;
                                 pending_free := 0 |};
                  font_size := to_uint size |} in
    exists s1,
      gfxFontSetSize size s = Ret 0 s1 /\
      trace s1 =
        trace s ++ [Ev_TTF_OpenFont (fonts_dir (env s) ++ nm)%string
                      (to_int (to_uint size)) (Some h')] /\
      load_font a s1 = Some old /\
      cur_default_font s1 = Some a' /\
      a' <> a /\
      h' <> h /\
      load_font a' s1 = Some new /\
      exists s2,
        gfxFontPutFont (Some h) s1 = Ret tt s2 /\
        cur_default_font s2 = Some a' /\
        load_font a' s2 = Some new /\
        if ref_count (font_ref cur) =? 1 then
          trace s2 = trace s1 ++ [Ev_TTF_CloseFont (Some h)] /\
          load_font a s2 = None /\
          find_font a (font_list_next s2) = None
        else
          trace s2 = trace s1 /\
          load_font a s2 = Some (put_ref old).
Proof.
  intros s a cur h nm size Hwf Hcur Hfind Hh Hnm Hrc Hsize Hplan Hlen Hopen
    a' h' old new.
  destruct Hwf as [Wsa Wsf Waddr Wfont Wnodes Wfreed].
  destruct (find_font_split _ _ _ Hfind) as (pre & post & Hchain & Ha & Hpre).
  subst a.
  rewrite Hchain in Waddr, Wfont, Wnodes.
  pose proof (NoDup_map_split _ _ _ _ Wfont) as Hfonts. cbn beta in Hfonts.
  pose proof (NoDup_map_split _ _ _ _ Waddr) as Haddrs.
  apply Forall_app in Wnodes. destruct Wnodes as [Wpre Wrest].
  inversion Wrest as [|? ? (Hcur_addr & Hcur_live & _) Wpost]; subst x l.
  destruct s as [q off imgs sentinel chain curp fr na nt plan tr en].
  cbn [font_list font_list_next cur_default_font freed next_addr next_ttf
       calloc_plan env trace] in *.
  subst chain curp plan.
  assert (Ha0 : (font_addr cur =? font_list_addr) = false)
    by (apply Z.eqb_neq; lia).
  assert (Hold_addr : font_addr old = font_addr cur) by reflexivity.
  assert (Hlive : chain_live
                    (set_font_list_next (pre ++ old :: post)
                       {| job_list := q; global_offset := off;
                          loaded_images_list := imgs; font_list := sentinel;
                          font_list_next := pre ++ cur :: post;
                          cur_default_font := Some (font_addr cur);
                          freed := fr; next_addr := na; next_ttf := nt;
                          calloc_plan := []; trace := tr; env := en |})
                  = true).
  { unfold chain_live. cbn [font_list_next set_font_list_next freed].
    apply forallb_forall. intros g Hg.
    apply in_app_or in Hg. destruct Hg as [Hg|[Hg|Hg]].
    - rewrite Forall_forall in Wpre. destruct (Wpre g Hg) as (_ & -> & _).
      reflexivity.
    - subst g. rewrite Hold_addr, Hcur_live. reflexivity.
    - rewrite Forall_forall in Wpost. destruct (Wpost g Hg) as (_ & -> & _).
      reflexivity. }
  unfold gfxFontSetSize.
  cbn [cur_default_font]. unfold load_font at 1.
  cbn [freed font_list_next]. rewrite Ha0, Hcur_live, Hfind.
  destruct (Z.eqb_spec (font_size cur) size) as [E|_]; [contradiction|].
  destruct (Z.eqb_spec (ref_count (font_ref cur)) 0) as [E|_]; [lia|].
  fold old. unfold store_font at 1. rewrite Hold_addr, Ha0.
  cbn [font_list_next].
  rewrite (update_font_at old pre cur post (eq_sym Hold_addr))
    by (rewrite Hold_addr; exact Haddrs).
  unfold _appendFont. rewrite Hlive.
  unfold _loadFont, calloc_node, calloc at 1.
  cbn [calloc_plan set_font_list_next bind next_addr env set_next_addr].
  unfold _getFontPath, calloc.
  cbn [calloc_plan set_font_list_next bind next_addr env set_next_addr].
  rewrite Hnm.
  destruct (Z.gtb_spec (strlen (fonts_dir en) + strlen nm)
                       (MAX_FONT_NAME_LENGTH en)) as [E|_]; [lia|].
  cbn [calloc_plan set_font_list_next bind next_addr env set_next_addr].
  rewrite Hopen.
  cbn [bind font_list_next log set_trace set_next_ttf next_ttf font_addr
       trace set_font_list_next set_next_addr set_cur_default_font].
  eexists. split; [reflexivity|].
  cbn [trace cur_default_font]. split; [reflexivity|].
  match goal with |- load_font _ ?st = _ /\ _ => set (s1 := st) end.
  assert (Hchain1 : font_list_next s1 = pre ++ old :: post ++ [new])
    by (subst s1; cbn; rewrite <- app_assoc; reflexivity).
  assert (Hlt : forall l,
             Forall (fun f => font_list_addr < font_addr f < na /\
                              is_freed (font_addr f) fr = false /\
                              exists h, ref_font (font_ref f) = Some h /\
                                        h < nt) l ->
             Forall (fun g => font_addr g <> na) l).
  { intros l Hl. eapply Forall_impl; [|exact Hl].
    cbn beta. intros g (Hg & _). lia. }
  assert (Hrest_na : Forall (fun g => font_addr g <> na)
                            (pre ++ old :: post)).
  { apply Forall_app. split; [apply Hlt; exact Wpre|].
    constructor; [rewrite Hold_addr; lia|apply Hlt; exact Wpost]. }
  assert (Hna0 : (na =? font_list_addr) = false) by (apply Z.eqb_neq; lia).
  assert (Hfresh : is_freed na fr = false)
    by (apply is_freed_fresh; exact Wfreed).
  assert (Hpost_a : Forall (fun g => font_addr g <> font_addr cur) post).
  { rewrite map_app in Waddr. cbn [map] in Waddr.
    apply NoDup_remove_2 in Waddr.
    apply Forall_forall. intros g Hg E. apply Waddr.
    apply in_or_app. right. rewrite <- E.
    apply in_map. exact Hg. }
  assert (Hh_lt : h < nt).
  { inversion Wrest as [|? ? (_ & _ & (h0 & Hh0 & Hlt0)) _]; subst.
    rewrite Hh in Hh0. inversion Hh0; subst. exact Hlt0. }
  split.
  { unfold load_font. rewrite Ha0.
    replace (freed s1) with fr by reflexivity.
    rewrite Hcur_live, Hchain1.
    apply find_font_at; [reflexivity|exact Haddrs]. }
  split; [reflexivity|].
  split; [subst a'; cbn; lia|].
  split; [subst h'; cbn; lia|].
  assert (Hload_new : forall st,
             font_list_next st = pre ++ post ++ [new] \/
             (exists o, font_addr o = font_addr cur /\
                        font_list_next st = pre ++ o :: post ++ [new]) ->
             is_freed na (freed st) = false ->
             load_font a' st = Some new).
  { intros st Hst Hfr. unfold load_font. subst a'. cbn [next_addr].
    rewrite Hna0, Hfr.
    destruct Hst as [-> | (o & Ho & ->)].
    - rewrite app_assoc. apply find_font_at; [reflexivity|].
      apply Forall_app. apply Forall_app in Hrest_na.
      destruct Hrest_na as [H1 H2]. inversion H2; subst. split; assumption.
    - change (pre ++ o :: post ++ [new])
        with (pre ++ (o :: post) ++ [new]).
      rewrite app_assoc. apply find_font_at; [reflexivity|].
      apply Forall_app. apply Forall_app in Hrest_na.
      destruct Hrest_na as [H1 H2]. inversion H2; subst.
      split; [assumption|]. constructor; [|assumption].
      rewrite Ho. lia. }
  split.
  { apply Hload_new; [right; exists old; split; [reflexivity|exact Hchain1]
                     |exact Hfresh]. }
  unfold gfxFontPutFont, put_font.
  replace (font_list s1) with sentinel by reflexivity.
  rewrite Wsf. cbn [option_Z_eqb]. rewrite Hchain1.
  replace (freed s1) with fr by reflexivity.
  rewrite put_walk_at.
  2:{ apply Forall_forall. intros g Hg.
      rewrite Forall_forall in Wpre, Hfonts.
      destruct (Wpre g Hg) as (_ & Hgl & _). split; [exact Hgl|].
      apply option_Z_eqb_neq. rewrite <- Hh. apply Hfonts. exact Hg. }
  2:{ rewrite Hold_addr. exact Hcur_live. }
  2:{ subst old. cbn. rewrite Hh. cbn. apply Z.eqb_refl. }
  unfold put_deletes, put_ref, old.
  cbn [set_ref_count set_pending_free set_ref font_ref ref_count
       pending_free ref_font font_addr Z.eqb negb andb].
  destruct (Z.eqb_spec (ref_count (font_ref cur)) 1) as [E1|E1].
  - rewrite E1. change (to_uint (1 - 1) =? 0) with true.
    cbn [andb negb].
    rewrite match_snoc. unfold gfxFontDeleteFont.
    cbn [font_addr set_ref_count set_pending_free set_ref font_ref
         ref_font].
    rewrite Ha0, Hh.
    eexists. split; [reflexivity|]. split; [reflexivity|].
    split.
    { apply Hload_new; [left; reflexivity|].
      change (is_freed na (font_addr cur :: fr) = false).
      rewrite is_freed_cons, Hfresh.
      destruct (Z.eqb_spec na (font_addr cur)); [lia|reflexivity]. }
    split; [reflexivity|]. split.
    { unfold load_font. rewrite Ha0.
      change (freed _) with (font_addr cur :: fr).
      rewrite is_freed_cons, Z.eqb_refl. reflexivity. }
    { change (font_list_next _) with (pre ++ post ++ [new]).
      rewrite find_font_skip by exact Haddrs.
      rewrite find_font_skip by exact Hpost_a.
      cbn [find_font font_addr new].
      destruct (Z.eqb_spec a' (font_addr cur)); [subst a'; cbn in *; lia|].
      reflexivity. }
  - assert (Hnz : (to_uint (ref_count (font_ref cur) - 1) =? 0) = false).
    { apply Z.eqb_neq. rewrite to_uint_id; lia. }
    rewrite Hnz. cbn [andb].
    eexists. split; [reflexivity|]. split; [reflexivity|].
    split.
    { apply Hload_new; [|exact Hfresh].
      right. eexists. split; [|reflexivity]. reflexivity. }
    split; [reflexivity|].
    unfold load_font. rewrite Ha0. cbn [freed set_font_list_next].
    replace (freed s1) with fr by reflexivity. rewrite Hcur_live.
    cbn [font_list_next].
    apply find_font_at; [reflexivity|exact Haddrs].
Qed.

(** The registry after [gfxFontInit] and one [gfxDrawText] is in good
    order. *)
Lemma one_text_job_wf : fonts_wf Fonts.one_text_job.
Proof.
  assert (Hchain : font_list_next Fonts.one_text_job = [Fonts.default_font])
    by (vm_compute; reflexivity).
  constructor; rewrite ?Hchain.
  - reflexivity.
  - reflexivity.
  - repeat constructor. intros [].
  - repeat constructor. intros [].
  - constructor; [|constructor].
    change (next_addr Fonts.one_text_job) with 2.
    change (next_ttf Fonts.one_text_job) with 2.
    cbn [font_addr Fonts.default_font].
    split; [unfold font_list_addr; lia|].
    split; [reflexivity|]. exists 1. split; [reflexivity|lia].
  - change (freed Fonts.one_text_job) with (@nil addr). constructor.
Qed.

(** C7 on that registry: the size goes from 15 to 20 while the queued
    text job holds the font. *)
Lemma set_size_defers_close_witness :
  cur_default_font Fonts.one_text_job = Some 1 /\
  find_font 1 (font_list_next Fonts.one_text_job) = Some Fonts.default_font /\
  exists s1 s2,
    gfxFontSetSize 20 Fonts.one_text_job = Ret 0 s1 /\
    trace s1 =
      [Ev_TTF_OpenFont "fonts/IBMPlexSans-Medium.ttf" 15 (Some 1);
       Ev_TTF_OpenFont "fonts/IBMPlexSans-Medium.ttf" 20 (Some 2)] /\
    cur_default_font s1 = Some 2 /\
    gfxFontPutFont (Some 1) s1 = Ret tt s2 /\
    trace s2 = trace s1 ++ [Ev_TTF_CloseFont (Some 1)] /\
    load_font 1 s2 = None.
Proof.
  split; [reflexivity|]. split; [reflexivity|].
  destruct (set_size_defers_close Fonts.one_text_job 1 Fonts.default_font 1
              "IBMPlexSans-Medium.ttf" 20 one_text_job_wf
              eq_refl eq_refl eq_refl eq_refl
              ltac:(cbn; lia)
              ltac:(discriminate) eq_refl
              ltac:(vm_compute; discriminate) eq_refl)
    as (s1 & H1 & H2 & _ & H4 & _ & _ & _ & s2 & H8 & _ & _ & H11).
  change (ref_count (font_ref Fonts.default_font) =? 1) with true in H11.
  destruct H11 as (H11 & H12 & _).
  exists s1, s2.
  split; [exact H1|].
  split; [rewrite H2; vm_compute; reflexivity|].
  split; [exact H4|].
  split; [exact H8|].
  split; [exact H11|exact H12].
Defined.

(** The scenario end to end: a text job is queued, the size is changed,
    and the drain renders the text with the old backend font, which is
    closed right after that rendering. *)
Example deferred_resize_scenario :
  let s1 := Demo.after (gfxFontSetSize 20 Fonts.one_text_job) in
  let s2 := Demo.after (gfxDrawUpdateScreen s1) in
  gfxFontSetSize 20 Fonts.one_text_job = Ret 0 s1 /\
  gfxDrawUpdateScreen s1 = Ret 0 s2 /\
  trace s2 =
    [Ev_TTF_OpenFont "fonts/IBMPlexSans-Medium.ttf" 15 (Some 1);
     Ev_TTF_OpenFont "fonts/IBMPlexSans-Medium.ttf" 20 (Some 2);
     Ev_RenderText (Some 1) (Some "hi"%string) 0xFF0000;
     Ev_TTF_CloseFont (Some 1);
     Ev_CopyText 0 0;
     Ev_RenderPresent] /\
  map font_addr (font_list_next s2) = [2] /\
  cur_default_font s2 = Some 2.
Proof. vm_compute. repeat split; reflexivity. Qed.

(** ** C5: releasing a reference *)

(** What the release loop does when the entry it frees is the last of the
    chain: the entry is handed to [gfxFontDeleteFont] but the chain still
    ends with it. *)
Lemma put_walk_keeps_last_entry test fr pre f :
  Forall (fun g => is_freed (font_addr g) fr = false /\ test g = false) pre ->
  is_freed (font_addr f) fr = false ->
  test f = true ->
  put_deletes (put_ref f) = true ->
  put_walk test fr (pre ++ [f]) =
    PutHit (pre ++ [put_ref f]) (Some (put_ref f)).
Proof.
  intros Hpre Hlive Htest Hdel.
  rewrite (put_walk_at test fr pre f [] Hpre Hlive Htest), Hdel.
  reflexivity.
Qed.

(** C5 (the code departs from the claim).  The default font is acquired
    once with [gfxFontGetCurFontHandle]; [gfxFontSetSize] to a size the
    backend refuses marks it pending-free and appends nothing, so the
    entry is the last of the chain.  The release (by handle or by
    backend font) then takes the count to zero and closes the backend
    font, but the freed node stays linked: the next walk over the
    registry reads freed memory. *)
Theorem released_last_font_stays_linked :
  let s1 := Demo.after (gfxFontGetCurFontHandle
                          (Demo.after (gfxFontInit Demo.boot))) in
  let s2 := Demo.after (gfxFontSetSize 1000 s1) in
  let s3 := Demo.after (gfxFontPutFontHandle (Some 1) s2) in
  gfxFontGetCurFontHandle (Demo.after (gfxFontInit Demo.boot)) =
    Ret (Some 1) s1 /\
  gfxFontSetSize 1000 s1 = Ret (-1) s2 /\
  map (fun f => (font_addr f, ref_count (font_ref f),
                 pending_free (font_ref f))) (font_list_next s2) =
    [(1, 1, 1)] /\
  gfxFontPutFontHandle (Some 1) s2 = Ret tt s3 /\
  gfxFontPutFont (Some 1) s2 = Ret tt s3 /\
  trace s3 = trace s2 ++ [Ev_TTF_CloseFont (Some 1)] /\
  is_freed 1 (freed s3) = true /\
  map (fun f => (font_addr f, ref_count (font_ref f),
                 pending_free (font_ref f))) (font_list_next s3) =
    [(1, 0, 1)] /\
  gfxFontLoadFont (Some "Other.ttf"%string) 12 s3 = Fault UseAfterFree.
Proof. vm_compute. repeat split; reflexivity. Qed.

(** ** Loaded images: list lemmas *)

Lemma find_image_addr a l i : find_image a l = Some i -> img_addr i = a.
Proof.
  induction l as [|j l IH]; cbn [find_image]; [discriminate|].
  destruct (Z.eqb_spec (img_addr j) a); intros H; [|auto].
  inversion H; subst; reflexivity.
Qed.

Lemma find_update_image a l i i' :
  find_image a l = Some i ->
  img_addr i' = a ->
  find_image a (update_image i' l) = Some i' /\
  update_image i' (update_image i' l) = update_image i' l.
Proof.
  intros H Ha. subst a.
  induction l as [|j l IH]; cbn [find_image] in H; [discriminate|].
  cbn [update_image].
  destruct (Z.eqb_spec (img_addr j) (img_addr i')) as [E|E].
  - cbn [find_image update_image]. rewrite Z.eqb_refl. split; reflexivity.
  - cbn [find_image update_image].
    destruct (Z.eqb_spec (img_addr j) (img_addr i')); [contradiction|].
    destruct (IH H) as [H1 H2]. rewrite H1, H2. split; reflexivity.
Qed.

Lemma find_unlink_image a l :
  NoDup (map img_addr l) -> find_image a (unlink_image a l) = None.
Proof.
  induction l as [|j l IH]; intros Hnd; [reflexivity|].
  cbn [map] in Hnd. inversion Hnd as [|? ? Hnotin Hnd']; subst.
  cbn [unlink_image].
  destruct (Z.eqb_spec (img_addr j) a) as [E|E].
  - subst a. clear IH Hnd Hnd'.
    induction l as [|k l IH]; [reflexivity|].
    cbn [find_image].
    destruct (Z.eqb_spec (img_addr k) (img_addr j)) as [E|E].
    + exfalso. apply Hnotin. left. exact E.
    + apply IH. intros Hin. apply Hnotin. right. exact Hin.
  - cbn [find_image].
    destruct (Z.eqb_spec (img_addr j) a); [contradiction|].
    apply IH. exact Hnd'.
Qed.

(** [vPutLoadedImage] on a registered image: the count goes down by one;
    when it reaches zero with pending-free set, the entry is unlinked and
    its surface, file and texture are released. *)
Lemma vPutLoadedImage_spec s a i :
  find_image a (loaded_images_list s) = Some i ->
  let i' := set_img_counts (to_uint (img_ref_count i - 1))
                           (img_pending_free i) i in
  vPutLoadedImage (Some a) s =
    if negb (img_pending_free i =? 0) && (to_uint (img_ref_count i - 1) =? 0)
    then
      Ret tt
        (free_node a
           (log (Ev_SDL_DestroyTexture (img_tex i))
              (log (Ev_SDL_RWclose (img_ops i))
                 (log (Ev_SDL_FreeSurface (img_surf i))
                    (set_loaded_images_list
                       (unlink_image a
                          (update_image i' (loaded_images_list s)))
                       s)))))
    else
      Ret tt (set_loaded_images_list
                (update_image i' (loaded_images_list s)) s).
Proof.
  intros H i'. unfold vPutLoadedImage, load_image, bind. rewrite H.
  fold i'. cbn [img_pending_free img_ref_count set_img_counts i'].
  destruct (negb (img_pending_free i =? 0) &&
            (to_uint (img_ref_count i - 1) =? 0)); [|reflexivity].
  unfold freeLoadedImage, store_image.
  cbn [loaded_images_list set_loaded_images_list].
  destruct (find_update_image a _ i i' H (find_image_addr _ _ _ H))
    as [-> _].
  reflexivity.
Qed.

Lemma to_uint_add_l a b : to_uint (to_uint a + b) = to_uint (a + b).
Proof. unfold to_uint. apply Z.add_mod_idemp_l. lia. Qed.

Lemma image_count_protocol :
  forall (ops : list ref_op) (s : state) (a : addr) (i : loaded_image_t),
    find_image a (loaded_images_list s) = Some i ->
    img_pending_free i = 0 ->
    0 <= img_ref_count i < 2 ^ 32 ->
    exists s' i',
      run_ref_ops a ops s = Ret tt s' /\
      find_image a (loaded_images_list s') = Some i' /\
      img_pending_free i' = 0 /\
      img_ref_count i' =
        to_uint (img_ref_count i + fold_right Z.add 0 (map ref_delta ops)).
Proof.
  induction ops as [|op ops IH]; intros s a i Hfind Hpf Hrange.
  - exists s, i. cbn. rewrite Z.add_0_r, to_uint_id by exact Hrange.
    repeat split; auto.
  - pose proof (find_image_addr _ _ _ Hfind) as Ha.
    set (i1 := set_img_counts (to_uint (img_ref_count i + ref_delta op))
                              (img_pending_free i) i).
    assert (Hstep : run_ref_op a op s =
                    Ret tt (set_loaded_images_list
                              (update_image i1 (loaded_images_list s)) s)).
    { subst i1. destruct op; cbn [run_ref_op ref_delta].
      - unfold get_image, load_image, bind. rewrite Hfind. reflexivity.
      - rewrite (vPutLoadedImage_spec s a i Hfind). rewrite Hpf.
        reflexivity. }
    destruct (find_update_image a _ i i1 Hfind Ha) as [Hf1 _].
    destruct (IH (set_loaded_images_list
                    (update_image i1 (loaded_images_list s)) s) a i1
                 Hf1 Hpf (to_uint_range _)) as (s' & i' & R & F & P & C).
    exists s', i'. cbn [run_ref_ops]. unfold bind. rewrite Hstep.
    split; [exact R|]. split; [exact F|]. split; [exact P|].
    rewrite C. cbn [img_ref_count i1 set_img_counts map fold_right].
    rewrite to_uint_add_l. f_equal. lia.
Qed.

(** With [k] acquisitions and [j <= k] releases from a count of zero, the
    count is [k - j]. *)
Corollary image_count_k_minus_j :
  forall (ops : list ref_op) (s : state) (a : addr) (i : loaded_image_t),
    find_image a (loaded_images_list s) = Some i ->
    img_pending_free i = 0 ->
    img_ref_count i = 0 ->
    let k := Z.of_nat (count_occ ref_op_eq_dec ops Acquire) in
    let j := Z.of_nat (count_occ ref_op_eq_dec ops Release) in
    j <= k < 2 ^ 32 ->
    exists s' i',
      run_ref_ops a ops s = Ret tt s' /\
      find_image a (loaded_images_list s') = Some i' /\
      img_ref_count i' = k - j.
Proof.
  intros ops s a i Hfind Hpf Hzero k j Hkj.
  destruct (image_count_protocol ops s a i Hfind Hpf ltac:(lia))
    as (s' & i' & R & F & _ & C).
  exists s', i'. split; [exact R|]. split; [exact F|].
  rewrite C, Hzero, Z.add_0_l.
  assert (Hsum : fold_right Z.add 0 (map ref_delta ops) = k - j).
  { subst k j. clear. induction ops as [|op ops IH]; [reflexivity|].
    cbn [map fold_right count_occ]. rewrite IH.
    destruct op; cbn [ref_delta];
      repeat match goal with
             | |- context [match ?d with left _ => _ | right _ => _ end] =>
                 destruct d; try discriminate; try congruence
             end; lia. }
  rewrite Hsum. apply to_uint_id. lia.
Qed.

(** ** C6: [gfxDrawFreeLoadedImage] called twice *)

(** With references outstanding the call only sets the flag, and a second
    call changes nothing more. *)
Lemma free_referenced_image_twice s a i :
  find_image a (loaded_images_list s) = Some i ->
  img_ref_count i <> 0 ->
  exists s1,
    gfxDrawFreeLoadedImage (Some a) s = Ret (0, Some a) s1 /\
    find_image a (loaded_images_list s1) =
      Some (set_img_counts (img_ref_count i) 1 i) /\
    trace s1 = trace s /\
    gfxDrawFreeLoadedImage (Some a) s1 = Ret (0, Some a) s1.
Proof.
  intros Hfind Hrc.
  pose proof (find_image_addr _ _ _ Hfind) as Ha.
  set (i1 := set_img_counts (img_ref_count i) 1 i).
  destruct (find_update_image a _ i i1 Hfind Ha) as [Hf1 Hupd].
  exists (set_loaded_images_list (update_image i1 (loaded_images_list s)) s).
  assert (Hnz : (img_ref_count i =? 0) = false) by (apply Z.eqb_neq; exact Hrc).
  split.
  - unfold gfxDrawFreeLoadedImage, load_image, bind. rewrite Hfind, Hnz.
    reflexivity.
  - split; [exact Hf1|]. split; [reflexivity|].
    unfold gfxDrawFreeLoadedImage, load_image, bind.
    cbn [loaded_images_list set_loaded_images_list]. rewrite Hf1.
    cbn [img_ref_count i1 set_img_counts]. rewrite Hnz.
    unfold store_image. cbn [loaded_images_list set_loaded_images_list].
    change (set_img_counts (img_ref_count i) 1 i1) with i1.
    rewrite Hupd. reflexivity.
Qed.

(** C6 (the code departs from the claim).  When the count is zero the
    first call frees the image and stores [NULL] in the caller's handle;
    the second call on that handle reads [ref_count] through the null
    pointer. *)
Theorem second_free_dereferences_null :
  forall (s : state) (i : loaded_image_t) (pending : Z)
         (rest : list loaded_image_t),
    let i0 := set_img_counts 0 pending i in
    let s0 := set_loaded_images_list (i0 :: rest) s in
    let s1 := free_node (img_addr i)
                (log (Ev_SDL_DestroyTexture (img_tex i))
                   (log (Ev_SDL_RWclose (img_ops i))
                      (log (Ev_SDL_FreeSurface (img_surf i))
                         (set_loaded_images_list rest s)))) in
    gfxDrawFreeLoadedImage (Some (img_addr i)) s0 = Ret (0, None) s1 /\
    gfxDrawFreeLoadedImage None s1 = Fault NullDereference.
Proof.
  intros s i pending rest i0 s0 s1.
  split.
  - unfold gfxDrawFreeLoadedImage, load_image, bind, freeLoadedImage.
    subst s0 i0 s1.
    cbn [loaded_images_list set_loaded_images_list find_image img_addr
         set_img_counts].
    rewrite Z.eqb_refl.
    cbn [img_ref_count set_img_counts Z.eqb loaded_images_list
         set_loaded_images_list find_image img_addr].
    rewrite Z.eqb_refl.
    cbn [unlink_image img_addr set_img_counts loaded_images_list
         set_loaded_images_list img_tex img_ops img_surf].
    rewrite Z.eqb_refl. reflexivity.
  - reflexivity.
Qed.

(** The same on a registry that holds one unreferenced image; a second
    call through a copy of the old handle reads the freed image. *)
Example free_twice_scenario :
  let s1 := Demo.after (gfxDrawFreeLoadedImage (Some 1) Animation.stage) in
  gfxDrawFreeLoadedImage (Some 1) Animation.stage = Ret (0, None) s1 /\
  loaded_images_list s1 = [] /\
  trace s1 = [Ev_SDL_FreeSurface 9; Ev_SDL_RWclose 8;
              Ev_SDL_DestroyTexture 7] /\
  gfxDrawFreeLoadedImage None s1 = Fault NullDereference /\
  gfxDrawFreeLoadedImage (Some 1) s1 = Fault UseAfterFree.
Proof. vm_compute. repeat split; reflexivity. Qed.

(** ** C8: cell size and the last cell *)

(** C8, as stated, fails: with a 100-pixel box, two columns and 5 pixels
    of padding the cell is 45 wide, and 2 * 45 + 2 * 5 * 2 = 110 exceeds
    100; the job [gfxDrawSprite] queues for the last cell crops 45 pixels
    from pixel 60 on, and so ends at 105, outside the box. *)
Lemma cell_size_counterexample :
  exists sh s1,
    gfxDrawSpritesheetSetDivisions Sheet.padded 2 2 = Some sh /\
    sprite_width sh = 45 /\
    ~ (sprite_cols sh * sprite_width sh
       + 2 * padding_x sh * sprite_cols sh <= sheet_width sh) /\
    gfxDrawSprite (Some sh) (sprite_cols sh - 1) (sprite_rows sh - 1) 0 0
      Animation.stage = Ret 0 s1 /\
    job_list s1 =
      [{| job_type := DRAW_LOADED_IMAGE_CROP;
          job_data :=
            Some (U_loaded_image_crop
                    {| crop_image := Some 1; crop_x := 0; crop_y := 0;
                       crop_c_x := 60; crop_c_y := 60;
                       crop_c_w := 45; crop_c_h := 45 |}) |}] /\
    ~ (60 + 45 <= sheet_x sh + sheet_width sh).
Proof.
  eexists _, _. split; [vm_compute; reflexivity|]. vm_compute.
  repeat split; try reflexivity; intros H; apply H; reflexivity.
Qed.

(** C8, amended.  For [cols = C >= 1], [rows = R >= 1] and a padding
    whose total [2 * px * (C - 1)] fits the box (so that the [unsigned]
    subtraction does not wrap), the cell size set by
    [gfxDrawSpritesheetSetDivisions] is [(W - 2 * px * (C - 1)) / C] and
    satisfies [C * cell_w + 2 * px * (C - 1) <= W], likewise in height:
    [C] cells with the [C - 1] gaps of [2 * px] between them fit the
    box, which the call leaves as it is. *)
Theorem cell_size_fits :
  forall (sh0 : spritesheet_t) (C R : Z),
    let W := sheet_width sh0 in
    let H := sheet_height sh0 in
    let px := padding_x sh0 in
    let py := padding_y sh0 in
    1 <= C < 2 ^ 32 ->
    1 <= R < 2 ^ 32 ->
    0 <= px ->
    0 <= py ->
    2 * px * (C - 1) <= W < 2 ^ 32 ->
    2 * py * (R - 1) <= H < 2 ^ 32 ->
    exists sh,
      gfxDrawSpritesheetSetDivisions sh0 C R = Some sh /\
      sprite_cols sh = C /\
      sprite_rows sh = R /\
      sprite_width sh = (W - 2 * px * (C - 1)) / C /\
      sprite_height sh = (H - 2 * py * (R - 1)) / R /\
      C * sprite_width sh + 2 * px * (C - 1) <= W /\
      R * sprite_height sh + 2 * py * (R - 1) <= H /\
      sheet_width sh = W /\ sheet_height sh = H /\
      padding_x sh = px /\ padding_y sh = py.
Proof.
  intros sh0 C R W H px py HC HR Hpx Hpy HW HH.
  assert (Haxis : forall n p w,
             1 <= n < 2 ^ 32 -> 0 <= p ->
             2 * p * (n - 1) <= w < 2 ^ 32 ->
             let cell := uint_sub w (uint_mul (uint_mul p (uint_sub
                                                              (to_uint n) 1))
                                              2) / to_uint n in
             cell = (w - 2 * p * (n - 1)) / n /\
             n * cell + 2 * p * (n - 1) <= w).
  { intros n p w Hn Hp Hw cell.
    assert (E1 : to_uint n = n) by (apply to_uint_id; lia).
    assert (E2 : uint_sub (to_uint n) 1 = n - 1)
      by (unfold uint_sub; rewrite E1; apply to_uint_id; lia).
    assert (Hpn : 0 <= p * (n - 1)) by nia.
    assert (E3 : uint_mul p (uint_sub (to_uint n) 1) = p * (n - 1))
      by (unfold uint_mul; rewrite E2; apply to_uint_id; lia).
    assert (E4 : uint_mul (uint_mul p (uint_sub (to_uint n) 1)) 2
                 = 2 * p * (n - 1))
      by (unfold uint_mul at 1; rewrite E3, to_uint_id; lia).
    assert (E5 : cell = (w - 2 * p * (n - 1)) / n).
    { subst cell. rewrite E4, E1. unfold uint_sub.
      rewrite to_uint_id by lia. reflexivity. }
    split; [exact E5|]. rewrite E5.
    pose proof (Z.mul_div_le (w - 2 * p * (n - 1)) n ltac:(lia)). lia. }
  destruct (Haxis C px W HC Hpx HW) as (A1 & A2).
  destruct (Haxis R py H HR Hpy HH) as (B1 & B2).
  unfold gfxDrawSpritesheetSetDivisions.
  fold W H px py.
  destruct (Z.eqb_spec (to_uint C) 0) as [E|_];
    [rewrite to_uint_id in E; lia|].
  destruct (Z.eqb_spec (to_uint R) 0) as [E|_];
    [rewrite to_uint_id in E; lia|].
  cbn [orb]. eexists. split; [reflexivity|].
  cbn [sprite_cols sprite_rows sprite_width sprite_height padding_x
       padding_y sheet_width sheet_height].
  fold px py.
  split; [apply to_uint_id; lia|].
  split; [apply to_uint_id; lia|].
  repeat split; assumption.
Qed.

(** The amended claim on the box of the counterexample. *)
Lemma cell_size_fits_witness :
  exists sh,
    gfxDrawSpritesheetSetDivisions Sheet.padded 2 2 = Some sh /\
    sprite_width sh = 45 /\
    sprite_cols sh * sprite_width sh
      + 2 * padding_x Sheet.padded * (sprite_cols sh - 1) <= 100.
Proof.
  destruct (cell_size_fits Sheet.padded 2 2
              ltac:(lia) ltac:(lia) ltac:(cbn; lia) ltac:(cbn; lia)
              ltac:(cbn; lia) ltac:(cbn; lia))
    as (sh & H1 & H2 & _ & H4 & _ & H6 & _).
  exists sh. split; [exact H1|]. split; [rewrite H4; reflexivity|].
  rewrite H2. exact H6.
Defined.

(** ** C9: [gfxDrawSprite] and cells outside the grid *)

(** What the two range tests reject, they reject without touching the
    state. *)
Lemma gfxDrawSprite_rejects sh column row x y s :
  to_schar column < 0 \/ sprite_cols sh < to_schar column \/
  to_schar row < 0 \/ sprite_rows sh < to_schar row ->
  gfxDrawSprite (Some sh) column row x y s = Ret (-1) s.
Proof.
  intros H. unfold gfxDrawSprite.
  destruct (Z.ltb_spec (to_schar column) 0) as [|Hc]; [reflexivity|].
  destruct (Z.gtb_spec (to_uint (to_schar column)) (sprite_cols sh))
    as [|Hc']; [reflexivity|].
  destruct (Z.ltb_spec (to_schar row) 0) as [|Hr]; [reflexivity|].
  destruct (Z.gtb_spec (to_uint (to_schar row)) (sprite_rows sh))
    as [|Hr']; [reflexivity|].
  exfalso.
  assert (Bc : - 2 ^ 7 <= to_schar column < 2 ^ 7).
  { unfold to_schar.
    pose proof (Z.mod_pos_bound (column + 2 ^ 7) (2 ^ 8)). lia. }
  assert (Br : - 2 ^ 7 <= to_schar row < 2 ^ 7).
  { unfold to_schar.
    pose proof (Z.mod_pos_bound (row + 2 ^ 7) (2 ^ 8)). lia. }
  rewrite to_uint_id in Hc' by lia. rewrite to_uint_id in Hr' by lia.
  lia.
Qed.

(** C9 (the code departs from the claim).  On a sheet of 4 columns and 1
    row, [gfxDrawSprite] accepts column 4 and accepts row 1: the tests
    are [column > sprite_cols] and [row > sprite_rows].  Each call returns
    0, queues a crop that starts past the sheet and takes a reference on
    the image. *)
Theorem sprite_accepts_column_equal_to_cols :
  let s1 := Demo.after (gfxDrawSprite (Some Animation.sheet) 4 0 10 20
                          Animation.stage) in
  let s2 := Demo.after (gfxDrawSprite (Some Animation.sheet) 0 1 10 20
                          Animation.stage) in
  sprite_cols Animation.sheet = 4 /\
  sprite_rows Animation.sheet = 1 /\
  gfxDrawSprite (Some Animation.sheet) 4 0 10 20 Animation.stage =
    Ret 0 s1 /\
  job_list s1 =
    [{| job_type := DRAW_LOADED_IMAGE_CROP;
        job_data := Some (U_loaded_image_crop
                            {| crop_image := Some 1;
                               crop_x := 10; crop_y := 20;
                               crop_c_x := 128; crop_c_y := 0;
                               crop_c_w := 32; crop_c_h := 32 |}) |}] /\
  map img_ref_count (loaded_images_list Animation.stage) = [0] /\
  map img_ref_count (loaded_images_list s1) = [1] /\
  gfxDrawSprite (Some Animation.sheet) 0 1 10 20 Animation.stage =
    Ret 0 s2 /\
  List.length (job_list s2) = 1%nat /\
  map img_ref_count (loaded_images_list s2) = [1].
Proof. vm_compute. repeat split; reflexivity. Qed.

(** ** C10: centred text *)

(** Narrowing an [int] to [signed short] forgets the [int] wrap-around. *)
Lemma to_sshort_to_int z : to_sshort (to_int z) = to_sshort z.
Proof.
  unfold to_sshort, to_int. rewrite (Z.mod_eq (z + 2 ^ 31)) by lia.
  set (q := (z + 2 ^ 31) / 2 ^ 32).
  replace (z + 2 ^ 31 - 2 ^ 32 * q - 2 ^ 31 + 2 ^ 15)
    with (z + 2 ^ 15 + (- q * 2 ^ 16) * 2 ^ 16) by lia.
  rewrite Z.mod_add by lia. reflexivity.
Qed.

(** [gfxDrawText] sees its coordinates as [signed short] values only. *)
Lemma gfxDrawText_coordinates str x1 y1 x2 y2 colour s :
  to_sshort x1 = to_sshort x2 ->
  to_sshort y1 = to_sshort y2 ->
  gfxDrawText str x1 y1 colour s = gfxDrawText str x2 y2 colour s.
Proof.
  intros Hx Hy. unfold gfxDrawText. rewrite Hx, Hy. reflexivity.
Qed.

(** C10.  [gfxDrawCenteredText] is the composition the claim describes:
    it returns what [gfxDrawText] returns for the string at
    [(x - w / 2, y - h / 2)] in the state [gfxGetTextSize] leaves, where
    [(w, h)] is the measured size and the halves are truncated; when the
    measure fails it returns [-1] and the queue is the queue it was
    called with. *)
Theorem centered_text_refines :
  forall (str : option string) (x y colour : Z) (s : state),
    gfxDrawCenteredText str x y colour s =
      centered_text_spec str x y colour s /\
    (forall w h s1,
        gfxGetTextSize str s = Ret (0, Some (w, h)) s1 ->
        gfxDrawCenteredText str x y colour s =
          gfxDrawText str (to_sshort x - Z.quot w 2)
                      (to_sshort y - Z.quot h 2) colour s1) /\
    (forall rc size s1,
        gfxGetTextSize str s = Ret (rc, size) s1 ->
        rc <> 0 ->
        gfxDrawCenteredText str x y colour s = Ret (-1) s1 /\
        job_list s1 = job_list s).
Proof.
  intros str x y colour s.
  assert (Hspec : gfxDrawCenteredText str x y colour s =
                  centered_text_spec str x y colour s).
  { unfold gfxDrawCenteredText, centered_text_spec, bind.
    destruct (gfxGetTextSize str s) as [[rc size] s1| |]; try reflexivity.
    destruct rc; try reflexivity.
    destruct size as [[w h]|]; try reflexivity.
    apply gfxDrawText_coordinates; unfold int_sub;
      apply to_sshort_to_int. }
  split; [exact Hspec|]. split.
  - intros w h s1 Hsize. rewrite Hspec. unfold centered_text_spec.
    rewrite Hsize. reflexivity.
  - intros rc size s1 Hsize Hrc.
    unfold gfxDrawCenteredText, bind. rewrite Hsize.
    split.
    + destruct rc; [contradiction| |]; reflexivity.
    + apply gfxGetTextSize_frame in Hsize. apply Hsize.
Qed.

(** The failure branch: the example backend cannot render the empty
    string, so the measure reports [-1]. *)
Lemma centered_text_refines_witness :
  let s := Demo.after (gfxFontInit Demo.boot) in
  let s1 := Demo.after (gfxGetTextSize (Some EmptyString) s) in
  gfxGetTextSize (Some EmptyString) s = Ret (-1, None) s1 /\
  gfxDrawCenteredText (Some EmptyString) 100 50 Demo.Red s = Ret (-1) s1 /\
  job_list s1 = job_list s.
Proof.
  intros s s1.
  assert (Hsize : gfxGetTextSize (Some EmptyString) s = Ret (-1, None) s1)
    by (vm_compute; reflexivity).
  split; [exact Hsize|].
  destruct (centered_text_refines (Some EmptyString) 100 50 Demo.Red s)
    as (_ & _ & H).
  apply (H (-1) None s1 Hsize). discriminate.
Defined.

(** A string of two characters measures 18 x 17 in the example backend:
    centred on (100, 50) it is queued at (91, 42). *)
Example centered_text_scenario :
  let s := Demo.after (gfxFontInit Demo.boot) in
  let s1 := Demo.after (gfxDrawCenteredText (Some "hi"%string) 100 50
                          Demo.Red s) in
  gfxDrawCenteredText (Some "hi"%string) 100 50 Demo.Red s = Ret 0 s1 /\
  job_list s1 =
    [{| job_type := DRAW_TEXT;
        job_data := Some (U_text {| text_str := Some "hi"%string;
                                    text_x := 91; text_y := 42;
                                    text_colour := 0xFF0000;
                                    text_font := Some 1 |}) |}].
Proof. vm_compute. split; reflexivity. Qed.

(** ** Equality of states *)

Lemma state_eq s s' :
  job_list s = job_list s' ->
  global_offset s = global_offset s' ->
  loaded_images_list s = loaded_images_list s' ->
  font_list s = font_list s' ->
  font_list_next s = font_list_next s' ->
  cur_default_font s = cur_default_font s' ->
  freed s = freed s' ->
  next_addr s = next_addr s' ->
  next_ttf s = next_ttf s' ->
  calloc_plan s = calloc_plan s' ->
  trace s = trace s' ->
  env s = env s' ->
  s = s'.
Proof. destruct s, s'; cbn; intros; subst; reflexivity. Qed.

(** ** Colours *)

Lemma land_byte_mask x n :
  0 <= n ->
  Z.land x (Z.shiftl 255 n) = Z.shiftl (Z.land (Z.shiftr x n) 255) n.
Proof.
  intros Hn. apply Z.bits_inj'. intros i Hi.
  rewrite Z.land_spec, !Z.shiftl_spec by lia.
  rewrite Z.land_spec.
  destruct (Z.ltb_spec i n) as [Hlt|Hge].
  - rewrite !(Z.testbit_neg_r _ (i - n)) by lia.
    rewrite andb_false_r. reflexivity.
  - rewrite Z.shiftr_spec by lia.
    replace (i - n + n) with i by lia. reflexivity.
Qed.

Lemma byte_at x n :
  0 <= n -> Z.land (Z.shiftr x n) 255 = (x / 2 ^ n) mod 2 ^ 8.
Proof.
  intros Hn. rewrite Z.shiftr_div_pow2 by lia.
  change 255 with (Z.ones 8). rewrite Z.land_ones by lia. reflexivity.
Qed.

Lemma swapBytes_arith x :
  let u := to_uint x in
  swapBytes x =
    (u mod 2 ^ 8) * 2 ^ 24 + ((u / 2 ^ 8) mod 2 ^ 8) * 2 ^ 16
    + ((u / 2 ^ 16) mod 2 ^ 8) * 2 ^ 8 + (u / 2 ^ 24) mod 2 ^ 8.
Proof.
  intros u. unfold swapBytes. fold u.
  change FIRST_BYTE with (Z.shiftl 255 0).
  change SECOND_BYTE with (Z.shiftl 255 8).
  change THIRD_BYTE with (Z.shiftl 255 16).
  change FOURTH_BYTE with (Z.shiftl 255 24).
  rewrite !land_byte_mask by lia.
  rewrite !byte_at by lia.
  unfold THREE_BYTES, ONE_BYTE.
  rewrite !Z.shiftl_mul_pow2, !Z.shiftr_div_pow2 by lia.
  unfold uint_add, to_uint in *.
  pose proof (Z.mod_pos_bound (u / 2 ^ 0) (2 ^ 8) ltac:(lia)).
  pose proof (Z.mod_pos_bound (u / 2 ^ 8) (2 ^ 8) ltac:(lia)).
  pose proof (Z.mod_pos_bound (u / 2 ^ 16) (2 ^ 8) ltac:(lia)).
  pose proof (Z.mod_pos_bound (u / 2 ^ 24) (2 ^ 8) ltac:(lia)).
  change (2 ^ 0) with 1 in *. rewrite Z.div_1_r in *. rewrite Z.mul_1_r.
  set (b0 := u mod 2 ^ 8) in *.
  set (b1 := (u / 2 ^ 8) mod 2 ^ 8) in *.
  set (b2 := (u / 2 ^ 16) mod 2 ^ 8) in *.
  set (b3 := (u / 2 ^ 24) mod 2 ^ 8) in *.
  replace (b1 * 2 ^ 8 * 2 ^ 8) with (b1 * 2 ^ 16) by lia.
  replace (b2 * 2 ^ 16 / 2 ^ 8) with (b2 * 2 ^ 8)
    by (change (2 ^ 16) with (2 ^ 8 * 2 ^ 8);
        rewrite Z.mul_assoc, Z.div_mul by lia; reflexivity).
  replace (b3 * 2 ^ 24 / 2 ^ 24) with b3 by (rewrite Z.div_mul by lia; reflexivity).
  rewrite (Z.mod_small (b0 * 2 ^ 24)) by lia.
  rewrite (Z.mod_small (b1 * 2 ^ 16)) by lia.
  rewrite (Z.mod_small (b0 * 2 ^ 24 + b1 * 2 ^ 16)) by lia.
  rewrite (Z.mod_small (b0 * 2 ^ 24 + b1 * 2 ^ 16 + b2 * 2 ^ 8)) by lia.
  rewrite Z.mod_small by lia. reflexivity.
Qed.

Lemma swapBytes_range x : 0 <= swapBytes x < 2 ^ 32.
Proof. unfold swapBytes, uint_add. apply to_uint_range. Qed.

Lemma swapBytes_of_bytes b0 b1 b2 b3 :
  0 <= b0 < 2 ^ 8 -> 0 <= b1 < 2 ^ 8 -> 0 <= b2 < 2 ^ 8 ->
  0 <= b3 < 2 ^ 8 ->
  swapBytes (b0 + b1 * 2 ^ 8 + b2 * 2 ^ 16 + b3 * 2 ^ 24) =
    b3 + b2 * 2 ^ 8 + b1 * 2 ^ 16 + b0 * 2 ^ 24.
Proof.
  intros H0 H1 H2 H3. rewrite swapBytes_arith. cbv zeta.
  rewrite to_uint_id by lia.
  set (x := b0 + b1 * 2 ^ 8 + b2 * 2 ^ 16 + b3 * 2 ^ 24).
  assert (E0 : x mod 2 ^ 8 = b0) by (subst x; Z.div_mod_to_equations; lia).
  assert (E1 : (x / 2 ^ 8) mod 2 ^ 8 = b1)
    by (subst x; Z.div_mod_to_equations; lia).
  assert (E2 : (x / 2 ^ 16) mod 2 ^ 8 = b2)
    by (subst x; Z.div_mod_to_equations; lia).
  assert (E3 : (x / 2 ^ 24) mod 2 ^ 8 = b3)
    by (subst x; Z.div_mod_to_equations; lia).
  rewrite E0, E1, E2, E3. lia.
Qed.

Lemma bytes_of_uint u :
  0 <= u < 2 ^ 32 ->
  u = u mod 2 ^ 8 + (u / 2 ^ 8) mod 2 ^ 8 * 2 ^ 8
      + (u / 2 ^ 16) mod 2 ^ 8 * 2 ^ 16 + (u / 2 ^ 24) mod 2 ^ 8 * 2 ^ 24.
Proof. intros H. Z.div_mod_to_equations. lia. Qed.

(** X1. [swapBytes] reverses the four bytes of its argument, taken as an
    [unsigned int]; applying it twice gives the argument back. *)
Theorem swapBytes_reverses_the_bytes :
  forall x : Z,
    let u := to_uint x in
    swapBytes x =
      (u mod 2 ^ 8) * 2 ^ 24 + ((u / 2 ^ 8) mod 2 ^ 8) * 2 ^ 16
      + ((u / 2 ^ 16) mod 2 ^ 8) * 2 ^ 8 + (u / 2 ^ 24) mod 2 ^ 8 /\
    swapBytes (swapBytes x) = u.
Proof.
  intros x u. split; [apply swapBytes_arith|].
  rewrite (swapBytes_arith x). cbv zeta.
  pose proof (to_uint_range x) as Hu. fold u in Hu |- *.
  pose proof (Z.mod_pos_bound u (2 ^ 8) ltac:(lia)).
  pose proof (Z.mod_pos_bound (u / 2 ^ 8) (2 ^ 8) ltac:(lia)).
  pose proof (Z.mod_pos_bound (u / 2 ^ 16) (2 ^ 8) ltac:(lia)).
  pose proof (Z.mod_pos_bound (u / 2 ^ 24) (2 ^ 8) ltac:(lia)).
  replace (u mod 2 ^ 8 * 2 ^ 24 + (u / 2 ^ 8) mod 2 ^ 8 * 2 ^ 16
           + (u / 2 ^ 16) mod 2 ^ 8 * 2 ^ 8 + (u / 2 ^ 24) mod 2 ^ 8)
    with ((u / 2 ^ 24) mod 2 ^ 8 + (u / 2 ^ 16) mod 2 ^ 8 * 2 ^ 8
          + (u / 2 ^ 8) mod 2 ^ 8 * 2 ^ 16 + u mod 2 ^ 8 * 2 ^ 24) by lia.
  rewrite swapBytes_of_bytes by assumption.
  symmetry. apply bytes_of_uint. exact Hu.
Qed.

Lemma lor_low_byte a : Z.lor (a * 2 ^ 8) 255 = a * 2 ^ 8 + 255.
Proof.
  pose proof (Z.add_lor_land (a * 2 ^ 8) 255) as H.
  assert (E : Z.land (a * 2 ^ 8) 255 = 0).
  { change 255 with (Z.ones 8). rewrite Z.land_ones by lia.
    apply Z.mod_mul. lia. }
  rewrite E in H. lia.
Qed.

Lemma portion_at c n :
  0 <= n ->
  Z.shiftr (Z.land c (Z.shiftl 255 n)) n = (c / 2 ^ n) mod 2 ^ 8.
Proof.
  intros Hn. rewrite land_byte_mask by lia.
  rewrite Z.shiftr_shiftl_l by lia. rewrite Z.sub_diag, Z.shiftl_0_r.
  apply byte_at. exact Hn.
Qed.

Lemma RED_PORTION_arith c : RED_PORTION c = (c / 2 ^ 16) mod 2 ^ 8.
Proof. exact (portion_at c 16 ltac:(lia)). Qed.

Lemma GREEN_PORTION_arith c : GREEN_PORTION c = (c / 2 ^ 8) mod 2 ^ 8.
Proof. exact (portion_at c 8 ltac:(lia)). Qed.

Lemma BLUE_PORTION_arith c : BLUE_PORTION c = c mod 2 ^ 8.
Proof.
  unfold BLUE_PORTION. change 0x0000FF with (Z.ones 8).
  apply Z.land_ones. lia.
Qed.

(** X2. The colour the drawing helpers hand to SDL2_gfx for a
    [0xRRGGBB] colour has the red channel in its lowest byte, then green,
    then blue, and a solid alpha in its highest byte; the channels are
    the ones the macros [RED_PORTION], [GREEN_PORTION] and
    [BLUE_PORTION] extract for the text colour, and bits of the colour
    above the 24th are dropped. *)
Theorem gfx_colour_channels :
  forall colour : Z,
    let c := to_uint colour in
    gfx_colour colour =
      RED_PORTION c + GREEN_PORTION c * 2 ^ 8 + BLUE_PORTION c * 2 ^ 16
      + ALPHA_SOLID * 2 ^ 24.
Proof.
  intros colour c. unfold gfx_colour. fold c.
  rewrite RED_PORTION_arith, GREEN_PORTION_arith, BLUE_PORTION_arith.
  unfold ONE_BYTE, ALPHA_SOLID. rewrite Z.shiftl_mul_pow2 by lia.
  pose proof (to_uint_range colour) as Hc. fold c in Hc.
  assert (E : to_uint (c * 2 ^ 8) = (c mod 2 ^ 24) * 2 ^ 8)
    by (unfold to_uint; Z.div_mod_to_equations; lia).
  rewrite E, lor_low_byte.
  pose proof (Z.mod_pos_bound c (2 ^ 8) ltac:(lia)).
  pose proof (Z.mod_pos_bound (c / 2 ^ 8) (2 ^ 8) ltac:(lia)).
  pose proof (Z.mod_pos_bound (c / 2 ^ 16) (2 ^ 8) ltac:(lia)).
  replace (c mod 2 ^ 24 * 2 ^ 8 + 255)
    with (255 + c mod 2 ^ 8 * 2 ^ 8 + (c / 2 ^ 8) mod 2 ^ 8 * 2 ^ 16
          + (c / 2 ^ 16) mod 2 ^ 8 * 2 ^ 24)
    by (Z.div_mod_to_equations; lia).
  rewrite swapBytes_of_bytes by lia. lia.
Qed.

(** X3. [_drawPoly] receives the colour as a [signed short]: the red
    channel of the caller's colour is lost.  The colour handed to SDL2_gfx
    keeps green and blue, and its red channel is the sign extension of
    the remaining 16 bits: 255 when green is 128 or more, else 0. *)
Theorem polygon_colour_loses_red :
  forall colour : Z,
    let c := to_uint colour in
    gfx_colour_short colour =
      (if GREEN_PORTION c <? 128 then 0 else 255)
      + GREEN_PORTION c * 2 ^ 8 + BLUE_PORTION c * 2 ^ 16
      + ALPHA_SOLID * 2 ^ 24.
Proof.
  intros colour c. unfold gfx_colour_short.
  rewrite GREEN_PORTION_arith, BLUE_PORTION_arith.
  unfold ONE_BYTE, ALPHA_SOLID. rewrite Z.shiftl_mul_pow2 by lia.
  pose proof (to_sshort_range colour) as Hs.
  rewrite to_int_id by lia. rewrite lor_low_byte.
  pose proof (Z.mod_pos_bound c (2 ^ 8) ltac:(lia)).
  pose proof (Z.mod_pos_bound (c / 2 ^ 8) (2 ^ 8) ltac:(lia)).
  assert (Es : to_sshort colour =
               c mod 2 ^ 8 + (c / 2 ^ 8) mod 2 ^ 8 * 2 ^ 8
               - (if (c / 2 ^ 8) mod 2 ^ 8 <? 128 then 0 else 2 ^ 16)).
  { subst c. unfold to_sshort, to_uint in *.
    destruct (Z.ltb_spec (((colour mod 2 ^ 32) / 2 ^ 8) mod 2 ^ 8) 128);
      Z.div_mod_to_equations; lia. }
  rewrite swapBytes_arith. cbv zeta.
  set (g := (c / 2 ^ 8) mod 2 ^ 8) in *.
  set (b := c mod 2 ^ 8) in *.
  assert (Eu : to_uint (to_sshort colour * 2 ^ 8 + 255) =
               255 + b * 2 ^ 8 + g * 2 ^ 16
               + (if g <? 128 then 0 else 255) * 2 ^ 24).
  { rewrite Es. unfold to_uint.
    destruct (g <? 128); Z.div_mod_to_equations; lia. }
  rewrite Eu.
  set (r := if g <? 128 then 0 else 255).
  assert (0 <= r < 2 ^ 8) by (subst r; destruct (g <? 128); lia).
  set (x := 255 + b * 2 ^ 8 + g * 2 ^ 16 + r * 2 ^ 24).
  assert (E0 : x mod 2 ^ 8 = 255) by (subst x; Z.div_mod_to_equations; lia).
  assert (E1 : (x / 2 ^ 8) mod 2 ^ 8 = b)
    by (subst x; Z.div_mod_to_equations; lia).
  assert (E2 : (x / 2 ^ 16) mod 2 ^ 8 = g)
    by (subst x; Z.div_mod_to_equations; lia).
  assert (E3 : (x / 2 ^ 24) mod 2 ^ 8 = r)
    by (subst x; Z.div_mod_to_equations; lia).
  rewrite E0, E1, E2, E3. lia.
Qed.

(** ** A polygon from the request to SDL *)

Lemma to_sshort_to_uint z : to_sshort (to_uint z) = to_sshort z.
Proof.
  unfold to_sshort, to_uint. f_equal.
  rewrite (Z.mod_eq z (2 ^ 32)) by lia.
  replace (z - 2 ^ 32 * (z / 2 ^ 32) + 2 ^ 15)
    with (z + 2 ^ 15 + (- (z / 2 ^ 32) * 2 ^ 16) * 2 ^ 16) by lia.
  apply Z.mod_add. lia.
Qed.

(** X4. A polygon request copies the first [n] points of the caller's
    array; one drain hands SDL these points, each shifted by the global
    offset current at the drain, and the colour narrowed to a
    [signed short], and leaves the state as it was but for the two calls
    logged. *)
Theorem polygon_request_end_to_end :
  forall (s : state) (points : list coord_t) (n colour : Z),
    job_list s = [] ->
    calloc_plan s = [] ->
    is_cur_gl_thread (env s) = true ->
    frame_period_elapsed (env s) = true ->
    0 <= n <= Z.of_nat (List.length points) ->
    n < 2 ^ 31 ->
    let used := firstn (Z.to_nat n) points in
    exists s1,
      gfxDrawPoly points n colour s = Ret 0 s1 /\
      gfxDrawUpdateScreen s1 =
        Ret 0
            (set_trace
               (trace s ++
                  [Ev_drawPoly
                     (map (fun p => add_offset (coord_x p)
                                      (offset_x (global_offset s))) used)
                     (map (fun p => add_offset (coord_y p)
                                      (offset_y (global_offset s))) used)
                     n (to_sshort colour);
                   Ev_RenderPresent]) s).
Proof.
  intros s points n colour Hq Hplan Hgl Hfps Hn Hn31 used.
  set (job := {| job_type := DRAW_POLY;
                 job_data :=
                   Some (U_poly {| poly_points := Some used;
                                   poly_n := n;
                                   poly_colour := to_uint colour |}) |}).
  exists (set_job_list [job] s).
  assert (Hlen : Z.of_nat (List.length used) = n).
  { subst used. rewrite length_firstn. lia. }
  split.
  { unfold gfxDrawPoly, INIT_JOB, _pushDrawJob, calloc. rewrite Hplan.
    cbn [bind calloc_plan set_job set_job_list job_list].
    rewrite ?Hplan.
    cbn [bind calloc_plan set_job set_job_list job_list].
    rewrite ?Hplan.
    rewrite (to_int_id n) by lia. rewrite (to_uint_id n) by lia.
    destruct (Z.leb_spec 0 n); [|lia]. cbn [andb].
    destruct (Z.ltb_spec (Z.of_nat (List.length points)) n); [lia|].
    f_equal. unfold write_job, set_job.
    cbn [job_list set_job_list]. rewrite Hq. cbn [app update_last].
    apply state_eq; reflexivity. }
  unfold gfxDrawUpdateScreen.
  change (env (set_job_list [job] s)) with (env s). rewrite Hgl, Hfps.
  change (_waitingDrawJobs (set_job_list [job] s)) with 1.
  change (job_list (set_job_list [job] s)) with [job].
  cbn [negb Z.eqb List.length drain].
  unfold popDrawJob at 1. change (job_list (set_job_list [job] s)) with [job].
  cbn [job_data job bind].
  set (s0 := set_job_list [] (set_job_list [job] s)).
  unfold vHandleDrawJob, job.
  cbn [job_data job_type poly_points poly_n poly_colour].
  change (global_offset s0) with (global_offset s).
  unfold _drawPoly, calloc.
  change (calloc_plan s0) with (calloc_plan s). rewrite Hplan.
  cbv beta iota. change (calloc_plan s0) with (calloc_plan s).
  rewrite Hplan. cbv beta iota zeta.
  rewrite (to_uint_id n) by lia. rewrite to_sshort_to_uint.
  destruct (Z.eqb_spec n 0) as [E0|N0].
  - assert (Hused : used = []).
    { subst used. rewrite E0. reflexivity. }
    rewrite Hused, E0. cbn [map bind Z.eqb drain].
    unfold popDrawJob. cbn [job_list log set_trace s0 set_job_list].
    f_equal. apply state_eq; try reflexivity.
    + cbn [job_list log set_trace set_job_list]. symmetry. exact Hq.
    + cbn [trace log set_trace set_job_list].
      rewrite <- app_assoc. reflexivity.
  - rewrite Hlen. destruct (Z.ltb_spec n n); [lia|].
    cbn [andb].
    assert (Hused : firstn (Z.to_nat n) used = used).
    { apply firstn_all2. lia. }
    rewrite Hused. cbn [bind Z.eqb drain].
    unfold popDrawJob. cbn [job_list log set_trace s0 set_job_list].
    f_equal. apply state_eq; try reflexivity.
    + cbn [job_list log set_trace set_job_list]. symmetry. exact Hq.
    + cbn [trace log set_trace set_job_list].
      rewrite <- app_assoc. reflexivity.
Qed.

Lemma polygon_request_end_to_end_witness :
  let s := Demo.after (gfxDrawSetGlobalXOffset 5 Demo.boot) in
  let points := [{| coord_x := 0; coord_y := 0 |};
                 {| coord_x := 10; coord_y := 0 |};
                 {| coord_x := 10; coord_y := 10 |};
                 {| coord_x := 0; coord_y := 10 |}] in
  exists s1,
    gfxDrawPoly points 3 Demo.Red s = Ret 0 s1 /\
    gfxDrawUpdateScreen s1 =
      Ret 0 (set_trace [Ev_drawPoly [5; 15; 15] [0; 0; 10] 3 0;
                        Ev_RenderPresent] s).
Proof.
  intros s points.
  exact (polygon_request_end_to_end s points 3 Demo.Red eq_refl eq_refl
           eq_refl eq_refl ltac:(cbn; lia) ltac:(lia)).
Defined.

(** ** What one drain logs and what it leaves queued *)

Lemma logs_refl P s : logs P s s.
Proof. exists []. rewrite app_nil_r. split; [reflexivity|constructor]. Qed.

Lemma logs_trans P s1 s2 s3 : logs P s1 s2 -> logs P s2 s3 -> logs P s1 s3.
Proof.
  intros (e1 & H1 & F1) (e2 & H2 & F2). exists (e1 ++ e2).
  rewrite H2, H1, app_assoc. split; [reflexivity|].
  apply Forall_app. split; assumption.
Qed.

Lemma logs_same_trace P s s' : trace s' = trace s -> logs P s s'.
Proof.
  intros H. exists []. rewrite app_nil_r. split; [exact H|constructor].
Qed.

Lemma logs_one (P : event -> Prop) e s s' :
  P e -> trace s' = trace s ++ [e] -> logs P s s'.
Proof.
  intros H E. exists [e]. split; [exact E|]. constructor; [exact H|constructor].
Qed.

Lemma logs_log (P : event -> Prop) e s : P e -> logs P s (log e s).
Proof. intros H. eapply logs_one; [exact H|reflexivity]. Qed.

Ltac not_present := unfold is_draw_call; discriminate.

Lemma calloc_trace s ok s1 : calloc s = (ok, s1) -> trace s1 = trace s.
Proof. unfold calloc. intros H. frame_by_cases H. Qed.

Lemma put_font_logs test s u s' :
  put_font test s = Ret u s' -> logs is_draw_call s s'.
Proof.
  unfold put_font, gfxFontDeleteFont. intros H.
  repeat (break_in H; try discriminate H); invert_ret;
    try (apply logs_same_trace; reflexivity);
    (eapply logs_one; [|reflexivity]; not_present).
Qed.

Lemma vPutLoadedImage_logs img s u s' :
  vPutLoadedImage img s = Ret u s' -> logs is_draw_call s s'.
Proof.
  unfold vPutLoadedImage, bind. intros H.
  destruct (load_image img s) eqn:E; try discriminate H.
  apply load_image_ret in E. subst.
  break_in H.
  - unfold freeLoadedImage in H.
    repeat (break_in H; try discriminate H); invert_ret;
      first [ apply logs_same_trace; reflexivity
            | eexists; split;
              [cbn; rewrite <- !app_assoc; reflexivity
              |repeat constructor; not_present] ].
  - invert_ret. apply logs_same_trace. reflexivity.
Qed.

Lemma vHandleDrawJob_logs job s r s' :
  vHandleDrawJob job s = Ret r s' -> logs is_draw_call s s'.
Proof.
  unfold vHandleDrawJob. intros H.
  destruct job as [job|]; [|invert_ret; apply logs_refl].
  destruct (job_data job) as [d|]; [|invert_ret; apply logs_refl].
  destruct (job_type job), d; try discriminate H;
    try (invert_ret; apply logs_refl);
    try (cbv [_clearDisplay _drawArc _drawEllipse _drawRectangle
              _drawFilledRectangle _drawCircle _drawLine _drawArrow] in H;
         invert_ret; (eapply logs_one; [|reflexivity]; not_present)).
  - unfold _drawText, bind in H.
    destruct (gfxFontPutFont _ _) eqn:E; try discriminate H. invert_ret.
    unfold gfxFontPutFont in E. apply put_font_logs in E.
    eapply logs_trans;
      [|eapply logs_trans; [exact E|apply logs_log; not_present]].
    apply logs_log; not_present.
  - unfold _drawPoly in H.
    destruct (calloc s) as [okx s1] eqn:E1.
    destruct (calloc s1) as [oky s2] eqn:E2.
    apply calloc_trace in E1. apply calloc_trace in E2.
    repeat (break_in H; try discriminate H); invert_ret;
      (eapply logs_one; [|cbn; rewrite E2, E1; reflexivity]; not_present).
  - unfold _drawTriangle in H.
    repeat (break_in H; try discriminate H); invert_ret.
    eapply logs_one; [|reflexivity]; not_present.
  - unfold bind, _loadImage, _drawImage, _drawScaledImage in H. invert_ret.
    eapply logs_trans; [|apply logs_log; not_present].
    apply logs_log; not_present.
  - unfold bind in H.
    destruct (xDrawLoadedImage _ _ _ _) eqn:E1; try discriminate H.
    destruct (vPutLoadedImage _ _) eqn:E2; try discriminate H. invert_ret.
    apply vPutLoadedImage_logs in E2.
    eapply logs_trans; [|exact E2].
    unfold xDrawLoadedImage, bind in E1.
    destruct (load_image _ _) eqn:E; try discriminate E1.
    apply load_image_ret in E. subst. invert_ret.
    eapply logs_one; [|reflexivity]; not_present.
  - unfold bind in H.
    destruct (xDrawLoadedImageCropped _ _ _ _ _ _ _ _) eqn:E1;
      try discriminate H.
    destruct (vPutLoadedImage _ _) eqn:E2; try discriminate H. invert_ret.
    apply vPutLoadedImage_logs in E2.
    eapply logs_trans; [|exact E2].
    unfold xDrawLoadedImageCropped, bind in E1.
    destruct (load_image _ _) eqn:E; try discriminate E1.
    apply load_image_ret in E. subst. invert_ret.
    eapply logs_one; [|reflexivity]; not_present.
  - unfold bind, _loadImage, _drawScaledImage in H. invert_ret.
    eapply logs_trans; [|apply logs_log; not_present].
    apply logs_log; not_present.
Qed.

Lemma dispatch_in_order_prefix :
  forall (q : list draw_job_t) (s : state) (rc : Z) (s' : state),
    dispatch_in_order q s = Ret rc s' ->
    exists done evs,
      q = done ++ job_list s' /\
      Forall is_draw_call evs /\
      (rc = 0 /\ job_list s' = [] /\
       trace s' = trace s ++ evs ++ [Ev_RenderPresent]
       \/
       rc = -1 /\ done <> [] /\ trace s' = trace s ++ evs).
Proof.
  induction q as [|j q IH]; intros s rc s' H; cbn [dispatch_in_order] in H.
  - invert_ret. exists [], []. split; [reflexivity|].
    split; [constructor|]. left. repeat split.
  - destruct (job_data j) eqn:Ed.
    + unfold bind in H.
      destruct (vHandleDrawJob (Some j) (set_job_list q s)) as [r s1| |] eqn:E;
        try discriminate H.
      pose proof (vHandleDrawJob_frame _ _ _ _ E) as (Hq & _ & _).
      apply vHandleDrawJob_logs in E. destruct E as (ev1 & Ht & Hf).
      cbn in Hq, Ht.
      destruct (r =? -1) eqn:Er.
      * injection H as <- <-. apply Z.eqb_eq in Er.
        exists [j], ev1. rewrite Hq. split; [reflexivity|].
        split; [exact Hf|]. right. split; [first [exact Er|reflexivity]|]. split; [discriminate|exact Ht].
      * apply IH in H. destruct H as (done & evs & Hd & Hfe & Hcase).
        exists (j :: done), (ev1 ++ evs). rewrite Hd at 1.
        split; [reflexivity|].
        split; [apply Forall_app; split; assumption|].
        destruct Hcase as [(? & ? & Htr)|(? & ? & Htr)]; [left|right];
          (split; [assumption|]); (split; [try assumption; discriminate|]);
          rewrite Htr, Ht, <- ?app_assoc; reflexivity.
    + invert_ret. exists [j], []. split; [reflexivity|].
      split; [constructor|].
      right. split; [reflexivity|]. split; [discriminate|].
      cbn. rewrite app_nil_r. reflexivity.
Qed.

Lemma dispatch_in_order_split :
  forall (q : list draw_job_t) (s : state) (rc : Z) (s' : state),
    job_list s = q ->
    dispatch_in_order q s = Ret rc s' ->
    (rc = 0 /\
     exists s0,
       dispatched s q s0 /\ job_list s0 = [] /\
       s' = log Ev_RenderPresent s0)
    \/
    (rc = -1 /\
     exists before failing s0,
       q = before ++ failing :: job_list s' /\
       dispatched s before s0 /\
       fails_at_head failing s0 s').
Proof.
  induction q as [|j q IH]; intros s rc s' Hq H; cbn [dispatch_in_order] in H.
  - invert_ret. left. split; [reflexivity|]. exists s.
    split; [constructor|]. split; [exact Hq|].
    apply state_eq; try reflexivity. cbn. symmetry. exact Hq.
  - assert (Hpop : popDrawJob s = (Some j, set_job_list q s))
      by (unfold popDrawJob; rewrite Hq; reflexivity).
    destruct (job_data j) eqn:Ed.
    + unfold bind in H.
      destruct (vHandleDrawJob (Some j) (set_job_list q s)) as [r s1| |] eqn:E;
        try discriminate H.
      pose proof (vHandleDrawJob_frame _ _ _ _ E) as (Hq1 & _ & _).
      cbn in Hq1.
      destruct (r =? -1) eqn:Er.
      * injection H as <- <-. apply Z.eqb_eq in Er. subst r.
        right. split; [reflexivity|]. exists [], j, s.
        split; [rewrite Hq1; reflexivity|]. split; [constructor|].
        exists (set_job_list q s). split; [exact Hpop|]. right.
        split; [congruence|exact E].
      * apply Z.eqb_neq in Er.
        apply IH in H; [|exact Hq1].
        destruct H as [(H0 & s0 & Hd & Hn & Hs)
                      |(H1 & b & f & s0 & Hb & Hd & Hf)].
        -- left. split; [exact H0|]. exists s0.
           split; [|split; assumption].
           eapply dispatched_next; eauto. congruence.
        -- right. split; [exact H1|]. exists (j :: b), f, s0.
           split; [rewrite Hb at 1; reflexivity|].
           split; [|exact Hf].
           eapply dispatched_next; eauto. congruence.
    + invert_ret. right. split; [reflexivity|]. exists [], j, s.
      split; [reflexivity|]. split; [constructor|].
      exists (set_job_list q s). split; [exact Hpop|]. left.
      split; [exact Ed|reflexivity].
Qed.

(** X5. One call of [gfxDrawUpdateScreen] on the rendering thread takes
    jobs off the head of the queue, in order, and stops at the first job
    that fails (it has no payload, or its dispatch reports [-1]).  When
    it returns [0] every job was dispatched, the queue is empty and
    [SDL_RenderPresent] is the last call made.  When it returns [-1] the
    jobs before the failing one were dispatched, the failing job was
    taken off the queue, exactly the jobs behind it stay queued, and the
    frame is not presented: no call made is [SDL_RenderPresent]. *)
Theorem drain_stops_at_first_failure :
  forall (s : state) (rc : Z) (s' : state),
    is_cur_gl_thread (env s) = true ->
    frame_period_elapsed (env s) = true ->
    job_list s <> [] ->
    gfxDrawUpdateScreen s = Ret rc s' ->
    exists evs,
      Forall is_draw_call evs /\
      ((rc = 0 /\
        job_list s' = [] /\
        trace s' = trace s ++ evs ++ [Ev_RenderPresent] /\
        exists s0,
          dispatched s (job_list s) s0 /\ s' = log Ev_RenderPresent s0)
       \/
       (rc = -1 /\
        trace s' = trace s ++ evs /\
        exists before failing s0,
          job_list s = before ++ failing :: job_list s' /\
          dispatched s before s0 /\
          fails_at_head failing s0 s')).
Proof.
  intros s rc s' Hgl Hfps Hne H.
  rewrite gfxDrawUpdateScreen_drains in H by assumption.
  pose proof (dispatch_in_order_split _ _ _ _ eq_refl H) as Hsplit.
  apply dispatch_in_order_prefix in H.
  destruct H as (done & evs & Hd & Hf & Hcase).
  exists evs. split; [exact Hf|].
  destruct Hsplit as [(H0 & s0 & Hdone & _ & Hs')
                     |(H1 & before & failing & s0 & Hb & Hdone & Hfail)].
  - left. destruct Hcase as [(_ & Hnil & Htr)|(Hrc & _)]; [|lia].
    split; [exact H0|]. split; [exact Hnil|]. split; [exact Htr|].
    exists s0. split; [exact Hdone|exact Hs'].
  - right. destruct Hcase as [(Hrc & _)|(_ & _ & Htr)]; [lia|].
    split; [exact H1|]. split; [exact Htr|].
    exists before, failing, s0. repeat split; assumption.
Qed.

Lemma drain_stops_at_first_failure_witness :
  let s := Scenes.three_jobs in
  let s' := Demo.after (gfxDrawUpdateScreen s) in
  List.length (job_list s) = 3%nat /\
  gfxDrawUpdateScreen s = Ret (-1) s' /\
  job_list s' = [shape_job (Box 1 2 3 4 Demo.White)] /\
  trace s' = [Ev_drawCircle 10 20 3 0xFF0000;
              Ev_drawArrow 0 0 10 10 4 1 0xFF0000] /\
  exists before failing,
    job_list s = before ++ failing :: job_list s' /\
    job_type failing = DRAW_ARROW.
Proof.
  intros s s'.
  assert (Hrun : gfxDrawUpdateScreen s = Ret (-1) s')
    by (vm_compute; reflexivity).
  destruct (drain_stops_at_first_failure s (-1) s' eq_refl eq_refl
              ltac:(vm_compute; discriminate) Hrun)
    as (evs & _ & [(H0 & _)|(_ & _ & before & failing & s0 & Hq & _)]);
    [discriminate H0|].
  split; [vm_compute; reflexivity|]. split; [exact Hrun|].
  split; [vm_compute; reflexivity|]. split; [vm_compute; reflexivity|].
  exists before, failing. split; [exact Hq|].
  assert (Hs' : job_list s' = [shape_job (Box 1 2 3 4 Demo.White)])
    by (vm_compute; reflexivity).
  assert (Hs : exists c a,
             job_list s = [c; a; shape_job (Box 1 2 3 4 Demo.White)] /\
             job_type a = DRAW_ARROW)
    by (eexists _, _; vm_compute; split; reflexivity).
  destruct Hs as (c & a & Hs & Ha).
  rewrite Hs, Hs' in Hq.
  change [c; a; shape_job (Box 1 2 3 4 Demo.White)]
    with ([c; a] ++ [shape_job (Box 1 2 3 4 Demo.White)]) in Hq.
  change (before ++ [failing; shape_job (Box 1 2 3 4 Demo.White)])
    with (before ++ [failing] ++ [shape_job (Box 1 2 3 4 Demo.White)])
    in Hq.
  rewrite app_assoc in Hq. apply app_inj_tail in Hq. destruct Hq as (Hq & _).
  change [c; a] with ([c] ++ [a]) in Hq.
  apply app_inj_tail in Hq. destruct Hq as (_ & <-). exact Ha.
Defined.

(** ** The font registry in good order *)

Lemma fonts_wf_split s a cur :
  fonts_wf s ->
  find_font a (font_list_next s) = Some cur ->
  exists pre post,
    font_list_next s = pre ++ cur :: post /\
    font_addr cur = a /\
    (a =? font_list_addr) = false /\
    is_freed a (freed s) = false /\
    Forall (fun g => font_addr g <> a) pre /\
    Forall (fun g => is_freed (font_addr g) (freed s) = false /\
                     ref_font (font_ref g) <> ref_font (font_ref cur)) pre.
Proof.
  intros [Wsa Wsf Waddr Wfont Wnodes Wfreed] Hfind.
  destruct (find_font_split _ _ _ Hfind) as (pre & post & Hchain & Ha & Hpre).
  exists pre, post. rewrite Hchain in Waddr, Wfont, Wnodes.
  pose proof (NoDup_map_split _ _ _ _ Wfont) as Hfonts. cbn beta in Hfonts.
  apply Forall_app in Wnodes. destruct Wnodes as [Wpre Wrest].
  inversion Wrest as [|? ? (Hcur_addr & Hcur_live & _) Wpost]; subst x l.
  subst a. repeat split; try assumption.
  - apply Z.eqb_neq. lia.
  - apply Forall_forall. intros g Hg.
    rewrite Forall_forall in Wpre, Hfonts.
    destruct (Wpre g Hg) as (_ & Hgl & _). split; [exact Hgl|].
    apply Hfonts. exact Hg.
Qed.

Lemma load_font_wf s a cur :
  fonts_wf s ->
  find_font a (font_list_next s) = Some cur ->
  load_font a s = Some cur.
Proof.
  intros Hwf Hfind.
  destruct (fonts_wf_split _ _ _ Hwf Hfind) as (_ & _ & _ & _ & Ha0 & Hl & _).
  unfold load_font. rewrite Ha0, Hl. exact Hfind.
Qed.

Lemma update_font_same f l :
  find_font (font_addr f) l = Some f -> update_font f l = l.
Proof.
  induction l as [|g l IH]; cbn; [reflexivity|].
  destruct (Z.eqb_spec (font_addr g) (font_addr f)).
  - intros H. inversion H. reflexivity.
  - intros H. rewrite IH by exact H. reflexivity.
Qed.

Lemma update_font_twice f1 f2 l :
  font_addr f1 = font_addr f2 ->
  update_font f2 (update_font f1 l) = update_font f2 l.
Proof.
  intros E. induction l as [|g l IH]; cbn; [reflexivity|].
  rewrite E. destruct (Z.eqb_spec (font_addr g) (font_addr f2)).
  - cbn. rewrite E, Z.eqb_refl. reflexivity.
  - cbn. destruct (Z.eqb_spec (font_addr g) (font_addr f2)); [contradiction|].
    rewrite IH. reflexivity.
Qed.

Lemma find_update_font a l f f' :
  find_font a l = Some f ->
  font_addr f' = a ->
  find_font a (update_font f' l) = Some f'.
Proof.
  intros H E. subst a. induction l as [|g l IH]; cbn in *; [discriminate|].
  destruct (Z.eqb_spec (font_addr g) (font_addr f')).
  - cbn. rewrite Z.eqb_refl. reflexivity.
  - cbn. destruct (Z.eqb_spec (font_addr g) (font_addr f')); [contradiction|].
    apply IH. exact H.
Qed.

Lemma map_update_font {B : Type} (g : gfx_font -> B) f f' l :
  find_font (font_addr f') l = Some f ->
  g f' = g f ->
  map g (update_font f' l) = map g l.
Proof.
  intros H E. induction l as [|x l IH]; cbn in *; [reflexivity|].
  destruct (Z.eqb_spec (font_addr x) (font_addr f')).
  - inversion H; subst. cbn. rewrite E. reflexivity.
  - cbn. rewrite IH by exact H. reflexivity.
Qed.

Lemma Forall_update_font (P : gfx_font -> Prop) f' l :
  Forall P l -> P f' -> Forall P (update_font f' l).
Proof.
  intros H Hf. induction H as [|x l Hx Hl IH]; cbn; [constructor|].
  destruct (font_addr x =? font_addr f'); constructor; assumption.
Qed.

(** Changing the counters of a registered entry keeps the registry in
    good order. *)
Lemma fonts_wf_update s f f' :
  fonts_wf s ->
  find_font (font_addr f') (font_list_next s) = Some f ->
  ref_font (font_ref f') = ref_font (font_ref f) ->
  fonts_wf (set_font_list_next (update_font f' (font_list_next s)) s).
Proof.
  intros Hwf Hfind Href.
  pose proof (find_font_split _ _ _ Hfind) as (pre & post & Hchain & Ha & _).
  destruct Hwf as [Wsa Wsf Waddr Wfont Wnodes Wfreed].
  constructor; cbn [font_list font_list_next set_font_list_next freed
                    next_addr next_ttf]; try assumption.
  - rewrite (map_update_font font_addr f f') by (auto; congruence).
    exact Waddr.
  - rewrite (map_update_font (fun f => ref_font (font_ref f)) f f')
      by assumption.
    exact Wfont.
  - apply Forall_update_font; [exact Wnodes|].
    rewrite Hchain in Wnodes. apply Forall_app in Wnodes.
    destruct Wnodes as [_ Wrest]. inversion Wrest as [|? ? Hf _]; subst.
    rewrite Href, <- Ha in *. exact Hf.
Qed.

(** The good order of the registry only depends on the registry. *)
Lemma fonts_wf_same_registry s s' :
  font_list s' = font_list s ->
  font_list_next s' = font_list_next s ->
  freed s' = freed s ->
  next_addr s' = next_addr s ->
  next_ttf s' = next_ttf s ->
  fonts_wf s -> fonts_wf s'.
Proof.
  intros E1 E2 E3 E4 E5 [Wsa Wsf Waddr Wfont Wnodes Wfreed].
  constructor; rewrite ?E1, ?E2, ?E3, ?E4, ?E5; assumption.
Qed.

Lemma get_cur_font_wf s a cur :
  fonts_wf s ->
  cur_default_font s = Some a ->
  find_font a (font_list_next s) = Some cur ->
  get_cur_font s =
    Ret (bump_ref cur)
        (set_font_list_next (update_font (bump_ref cur) (font_list_next s))
           s).
Proof.
  intros Hwf Hcur Hfind. unfold get_cur_font. rewrite Hcur.
  rewrite (load_font_wf _ _ _ Hwf Hfind). fold (bump_ref cur).
  destruct (fonts_wf_split _ _ _ Hwf Hfind) as (_ & _ & _ & Ha & Ha0 & _).
  unfold store_font. change (font_addr (bump_ref cur)) with (font_addr cur).
  rewrite Ha, Ha0. reflexivity.
Qed.

Lemma gfxFontPutFont_wf s a cur h :
  fonts_wf s ->
  find_font a (font_list_next s) = Some cur ->
  ref_font (font_ref cur) = Some h ->
  gfxFontPutFont (Some h) s =
    if put_deletes (put_ref cur) then
      match put_walk (fun it => option_Z_eqb (ref_font (font_ref it))
                                             (Some h))
                     (freed s) (font_list_next s) with
      | PutHit chain' (Some d) =>
          gfxFontDeleteFont d (set_font_list_next chain' s)
      | _ => Ret tt s
      end
    else
      Ret tt (set_font_list_next (update_font (put_ref cur)
                                    (font_list_next s)) s).
Proof.
  intros Hwf Hfind Hh.
  destruct (fonts_wf_split _ _ _ Hwf Hfind)
    as (pre & post & Hchain & Ha & Ha0 & Hlive & Hpre & Hpre2).
  unfold gfxFontPutFont, put_font.
  rewrite (wf_sentinel_font _ Hwf). cbn [option_Z_eqb].
  rewrite Hchain.
  rewrite put_walk_at.
  - destruct (put_deletes (put_ref cur)) eqn:Ed.
    + destruct post; reflexivity.
    + rewrite update_font_at; [reflexivity|cbn; congruence|].
      change (font_addr (put_ref cur)) with (font_addr cur).
      rewrite Ha. exact Hpre.
  - eapply Forall_impl; [|exact Hpre2]. cbn beta.
    intros g (Hg1 & Hg2). split; [exact Hg1|].
    apply option_Z_eqb_neq. rewrite <- Hh. exact Hg2.
  - rewrite Ha. exact Hlive.
  - rewrite Hh. apply option_Z_eqb_refl.
Qed.

Lemma put_bump_ref f :
  0 <= ref_count (font_ref f) < 2 ^ 32 -> put_ref (bump_ref f) = f.
Proof.
  intros H. destruct f as [a p n [h c pf] sz]. unfold put_ref, bump_ref.
  cbn [font_ref ref_count] in H. unfold set_ref_count, set_ref.
  cbn [font_ref ref_count ref_font pending_free font_addr font_path
       font_name font_size].
  assert (E : to_uint (to_uint (c + 1) - 1) = c)
    by (unfold to_uint; Z.div_mod_to_equations; lia).
  rewrite E. reflexivity.
Qed.

Lemma set_font_list_next_same s l :
  l = font_list_next s -> set_font_list_next l s = s.
Proof. intros ->. destruct s; reflexivity. Qed.

(** X6. Measuring a string takes the current default font and gives it
    back: apart from the call logged, the whole state is as before. *)
Theorem measuring_text_restores_the_registry :
  forall (s : state) (a : addr) (cur : gfx_font) (str : string),
    fonts_wf s ->
    cur_default_font s = Some a ->
    find_font a (font_list_next s) = Some cur ->
    0 <= ref_count (font_ref cur) < 2 ^ 32 ->
    pending_free (font_ref cur) = 0 \/ ref_count (font_ref cur) <> 0 ->
    gfxGetTextSize (Some str) s =
      Ret (match TTF_text_size (env s) (ref_font (font_ref cur)) str with
           | RenderSize w h => (0, Some (to_int w, to_int h))
           | _ => (-1, None)
           end)
          (log (Ev_RenderText (ref_font (font_ref cur)) (Some str) 0) s).
Proof.
  intros s a cur str Hwf Hcur Hfind Hrc Hkeep.
  pose proof (fonts_wf_split _ _ _ Hwf Hfind) as (_ & _ & _ & Ha & _).
  assert (Hh : exists h, ref_font (font_ref cur) = Some h).
  { destruct (find_font_split _ _ _ Hfind) as (pre & post & Hchain & _ & _).
    pose proof (wf_nodes _ Hwf) as Wn. rewrite Hchain in Wn.
    apply Forall_app in Wn. destruct Wn as [_ Wn].
    inversion Wn as [|? ? (_ & _ & (h & Hh & _)) _]. exists h. exact Hh. }
  destruct Hh as (h & Hh).
  unfold gfxGetTextSize, _getTextSize, gfxFontGetCurFont.
  rewrite (get_cur_font_wf _ _ _ Hwf Hcur Hfind). cbn [bind].
  change (ref_font (font_ref (bump_ref cur))) with (ref_font (font_ref cur)).
  set (s1 := set_font_list_next _ s).
  set (s2 := log _ s1).
  assert (Hwf2 : fonts_wf s2).
  { apply (fonts_wf_same_registry s1); try reflexivity.
    apply fonts_wf_update with (f := cur); [exact Hwf| |reflexivity].
    change (font_addr (bump_ref cur)) with (font_addr cur).
    rewrite Ha. exact Hfind. }
  assert (Hfind2 : find_font a (font_list_next s2) = Some (bump_ref cur)).
  { apply find_update_font with (f := cur); [exact Hfind|exact Ha]. }
  rewrite Hh.
  rewrite (gfxFontPutFont_wf _ _ _ _ Hwf2 Hfind2 Hh).
  rewrite put_bump_ref by exact Hrc.
  assert (Hd : put_deletes cur = false).
  { unfold put_deletes. destruct Hkeep as [-> | Hnz].
    - apply andb_false_r.
    - apply Z.eqb_neq in Hnz. rewrite Hnz. reflexivity. }
  rewrite Hd. cbn [bind].
  assert (Es : set_font_list_next (update_font cur (font_list_next s2)) s2 =
               log (Ev_RenderText (Some h) (Some str) 0) s).
  { subst s2 s1. cbn [font_list_next log set_trace set_font_list_next].
    rewrite update_font_twice by reflexivity.
    rewrite update_font_same by (rewrite Ha; exact Hfind).
    rewrite Hh. destruct s; reflexivity. }
  rewrite Es.
  replace (env s1) with (env s) by reflexivity.
  destruct (TTF_text_size (env s) (Some h) str); reflexivity.
Qed.

Lemma measuring_text_restores_the_registry_witness :
  gfxGetTextSize (Some "hi"%string) Fonts.one_text_job =
    Ret (0, Some (18, 17))
        (log (Ev_RenderText (Some 1) (Some "hi"%string) 0)
             Fonts.one_text_job).
Proof.
  exact (measuring_text_restores_the_registry Fonts.one_text_job 1
           Fonts.default_font "hi" one_text_job_wf eq_refl eq_refl
           ltac:(cbn; lia) (or_introl eq_refl)).
Defined.

Lemma fonts_wf_live s :
  fonts_wf s ->
  Forall (fun f => is_freed (font_addr f) (freed s) = false)
         (font_list_next s).
Proof.
  intros Hwf. eapply Forall_impl; [|exact (wf_nodes _ Hwf)].
  cbn beta. intros f (_ & H & _). exact H.
Qed.

Lemma chain_live_wf s : fonts_wf s -> chain_live s = true.
Proof.
  intros Hwf. unfold chain_live. apply forallb_forall.
  pose proof (fonts_wf_live _ Hwf) as H. rewrite Forall_forall in H.
  intros f Hf. rewrite (H f Hf). reflexivity.
Qed.

Lemma walk_find_live test fr chain :
  Forall (fun f => is_freed (font_addr f) fr = false) chain ->
  walk_find test fr chain =
    match find test chain with
    | Some f => WalkAt f
    | None => WalkEnd
    end.
Proof.
  induction 1 as [|f l Hf Hl IH]; cbn; [reflexivity|].
  rewrite Hf. destruct (test f); [reflexivity|exact IH].
Qed.

Lemma put_walk_miss test fr chain :
  Forall (fun f => is_freed (font_addr f) fr = false) chain ->
  Forall (fun f => test f = false) chain ->
  put_walk test fr chain = PutMiss.
Proof.
  induction 1 as [|f l Hf Hl IH]; intros Ht; cbn; [reflexivity|].
  inversion Ht; subst. rewrite Hf. rewrite H1. rewrite IH by assumption.
  reflexivity.
Qed.

(** X7. Selecting the default font by name takes the first entry of the
    registry with that name, in the order the fonts were loaded; when no
    entry has the name the call returns [-1] and changes nothing. *)
Theorem select_by_name_takes_the_first_match :
  forall (s : state) (name : string),
    fonts_wf s ->
    font_name (font_list s) = None ->
    gfxFontSelectFontFromName name s =
      match find (fun it => match font_name it with
                            | Some n => String.eqb n name
                            | None => false
                            end) (font_list_next s) with
      | Some it => Ret 0 (set_cur_default_font (Some (font_addr it)) s)
      | None => Ret (-1) s
      end.
Proof.
  intros s name Hwf Hsent.
  unfold gfxFontSelectFontFromName, select_font. rewrite Hsent.
  rewrite walk_find_live by (apply fonts_wf_live; exact Hwf).
  destruct (find _ _); reflexivity.
Qed.

Lemma resized_wf : fonts_wf Scenes.resized.
Proof.
  assert (Hchain : font_list_next Scenes.resized =
                   [set_pending_free 1 Fonts.default_font;
                    loaded_font Fonts.one_text_job
                      "IBMPlexSans-Medium.ttf" 20])
    by (vm_compute; reflexivity).
  constructor; rewrite ?Hchain.
  - reflexivity.
  - reflexivity.
  - vm_compute. repeat (constructor; [cbn; intuition discriminate|]).
    constructor.
  - vm_compute. repeat (constructor; [cbn; intuition discriminate|]).
    constructor.
  - change (next_addr Scenes.resized) with 3.
    change (next_ttf Scenes.resized) with 3.
    change (freed Scenes.resized) with (@nil addr).
    repeat constructor; try (vm_compute; reflexivity);
      try (vm_compute; discriminate);
      eexists; (split; [reflexivity|vm_compute; reflexivity]).
  - change (freed Scenes.resized) with (@nil addr). constructor.
Qed.

Lemma select_by_name_takes_the_first_match_witness :
  gfxFontSelectFontFromName "IBMPlexSans-Medium.ttf" Scenes.resized =
    Ret 0 (set_cur_default_font (Some 1) Scenes.resized) /\
  cur_default_font Scenes.resized = Some 2.
Proof.
  split; [|reflexivity].
  exact (select_by_name_takes_the_first_match Scenes.resized
           "IBMPlexSans-Medium.ttf" resized_wf eq_refl).
Defined.

(** The consequence on that registry: selecting the font by its name
    goes back to the entry that is marked for release; the queued text
    job releases it during the drain, and the current default font is
    then a freed node. *)
Example select_by_name_after_resize :
  let s1 := Demo.after (gfxFontSelectFontFromName "IBMPlexSans-Medium.ttf"
                          Scenes.resized) in
  let s2 := Demo.after (gfxDrawUpdateScreen s1) in
  gfxDrawUpdateScreen s1 = Ret 0 s2 /\
  cur_default_font s2 = Some 1 /\
  is_freed 1 (freed s2) = true /\
  gfxDrawText (Some "hi"%string) 0 0 Demo.Red s2 = Fault UseAfterFree.
Proof. vm_compute. repeat split; reflexivity. Qed.

(** X8. Releasing a backend font that no registry entry holds changes
    nothing. *)
Theorem releasing_an_unknown_font_changes_nothing :
  forall (s : state) (h : TTF_Font),
    fonts_wf s ->
    Forall (fun f => ref_font (font_ref f) <> Some h) (font_list_next s) ->
    gfxFontPutFont (Some h) s = Ret tt s.
Proof.
  intros s h Hwf Hno. unfold gfxFontPutFont, put_font.
  rewrite (wf_sentinel_font _ Hwf). cbn [option_Z_eqb].
  rewrite put_walk_miss; [reflexivity|apply fonts_wf_live; exact Hwf|].
  eapply Forall_impl; [|exact Hno]. cbn beta. intros f Hf.
  apply option_Z_eqb_neq. exact Hf.
Qed.

Lemma releasing_an_unknown_font_changes_nothing_witness :
  gfxFontPutFont (Some 7) Fonts.one_text_job = Ret tt Fonts.one_text_job.
Proof.
  apply (releasing_an_unknown_font_changes_nothing Fonts.one_text_job 7
           one_text_job_wf).
  vm_compute. repeat constructor; discriminate.
Defined.

Lemma delete_fonts_spec :
  forall (chain : list gfx_font) (s : state),
    NoDup (map font_addr chain) ->
    Forall (fun f => font_addr f <> font_list_addr /\
                     is_freed (font_addr f) (freed s) = false) chain ->
    delete_fonts chain s =
      Ret tt
          (set_freed (rev (map font_addr chain) ++ freed s)
             (set_trace
                (trace s ++
                   map (fun f => Ev_TTF_CloseFont (ref_font (font_ref f)))
                       chain) s)).
Proof.
  induction chain as [|f chain IH]; intros s Hnd Hall.
  - cbn. rewrite app_nil_r. destruct s; reflexivity.
  - inversion Hnd as [|? ? Hnotin Hnd']; subst.
    inversion Hall as [|? ? (Hf0 & Hfl) Hall']; subst.
    cbn [delete_fonts]. rewrite Hfl. unfold gfxFontDeleteFont.
    apply Z.eqb_neq in Hf0. rewrite Hf0. cbn [bind].
    rewrite IH.
    + cbn [map rev]. f_equal. unfold free_node, log.
      cbn [freed trace set_freed set_trace].
      rewrite <- !app_assoc. cbn [app]. destruct s; reflexivity.
    + exact Hnd'.
    + apply Forall_forall. intros g Hg.
      rewrite Forall_forall in Hall'. destruct (Hall' g Hg) as (Hg0 & Hgl).
      split; [exact Hg0|].
      change (is_freed (font_addr g) (font_addr f :: freed s) = false).
      rewrite is_freed_cons, Hgl, orb_false_r. apply Z.eqb_neq.
      intros E. apply Hnotin. rewrite <- E. apply in_map. exact Hg.
Qed.

Lemma is_freed_in a fr : In a fr -> is_freed a fr = true.
Proof.
  intros H. unfold is_freed. apply existsb_exists. exists a.
  split; [exact H|apply Z.eqb_refl].
Qed.

(** X9. [gfxFontExit] closes the backend font of every registry entry
    once, in registry order, and frees every entry; it leaves the list
    head and [cur_default_font] as they were, so that every entry is
    still linked after it was freed and the next use of the current
    default font reads freed memory. *)
Theorem exit_closes_every_font_and_leaves_them_linked :
  forall (s : state),
    fonts_wf s ->
    exists s',
      gfxFontExit s = Ret tt s' /\
      trace s' =
        trace s ++ map (fun f => Ev_TTF_CloseFont (ref_font (font_ref f)))
                       (font_list_next s) /\
      font_list_next s' = font_list_next s /\
      cur_default_font s' = cur_default_font s /\
      Forall (fun f => is_freed (font_addr f) (freed s') = true)
             (font_list_next s') /\
      (forall a f,
          cur_default_font s = Some a ->
          find_font a (font_list_next s) = Some f ->
          gfxFontGetCurFont s' = Fault UseAfterFree /\
          gfxFontGetCurFontSize s' = Fault UseAfterFree).
Proof.
  intros s Hwf. eexists. split.
  - unfold gfxFontExit. apply delete_fonts_spec.
    + exact (wf_addrs _ Hwf).
    + eapply Forall_impl; [|exact (wf_nodes _ Hwf)]. cbn beta.
      intros f (Hf & Hl & _). split; [lia|exact Hl].
  - cbn [trace font_list_next cur_default_font freed set_freed set_trace].
    split; [reflexivity|]. split; [reflexivity|]. split; [reflexivity|].
    assert (Hfr : forall f, In f (font_list_next s) ->
                   is_freed (font_addr f)
                     (rev (map font_addr (font_list_next s)) ++ freed s)
                   = true).
    { intros f Hf. apply is_freed_in. apply in_or_app. left.
      apply in_rev. rewrite rev_involutive. apply in_map. exact Hf. }
    split; [apply Forall_forall; exact Hfr|].
    intros a f Hcur Hfind.
    destruct (fonts_wf_split _ _ _ Hwf Hfind)
      as (pre & post & Hchain & Ha & Ha0 & _).
    assert (Hin : In f (font_list_next s))
      by (rewrite Hchain; apply in_or_app; right; left; reflexivity).
    apply Hfr in Hin. rewrite Ha in Hin.
    unfold gfxFontGetCurFont, gfxFontGetCurFontSize, get_cur_font.
    cbn [cur_default_font set_freed set_trace]. rewrite Hcur.
    unfold load_font. cbn [freed set_freed set_trace].
    rewrite Ha0, Hin. split; reflexivity.
Qed.

Lemma exit_closes_every_font_and_leaves_them_linked_witness :
  exists s',
    gfxFontExit Fonts.one_text_job = Ret tt s' /\
    trace s' = trace Fonts.one_text_job ++ [Ev_TTF_CloseFont (Some 1)] /\
    gfxFontGetCurFont s' = Fault UseAfterFree.
Proof.
  destruct (exit_closes_every_font_and_leaves_them_linked
              Fonts.one_text_job one_text_job_wf)
    as (s' & H1 & H2 & _ & _ & _ & H6).
  exists s'. split; [exact H1|]. split; [exact H2|].
  exact (proj1 (H6 1 Fonts.default_font eq_refl eq_refl)).
Defined.

Ltac load_case :=
  do 2 eexists; split; [reflexivity|];
  cbn [job_list font_list font_list_next cur_default_font next_ttf
       next_addr freed free_node log set_freed set_trace set_next_ttf
       set_calloc_plan set_next_addr trace];
  repeat (split; [reflexivity|]);
  first [ left; split; [reflexivity|]; split; [reflexivity|];
          first [ left; split; reflexivity | right; split; reflexivity ]
        | right; repeat split; reflexivity ].

Lemma _loadFont_cases s name size :
  exists r s1,
    _loadFont (Some name) size s = Ret r s1 /\
    job_list s1 = job_list s /\
    font_list s1 = font_list s /\
    font_list_next s1 = font_list_next s /\
    cur_default_font s1 = cur_default_font s /\
    env s1 = env s /\
    (r = None /\ next_ttf s1 = next_ttf s /\
     (next_addr s1 = next_addr s /\ freed s1 = freed s \/
      next_addr s1 = next_addr s + 1 /\ freed s1 = next_addr s :: freed s)
     \/
     r = Some (loaded_font s name size) /\
     next_addr s1 = next_addr s + 1 /\
     next_ttf s1 = next_ttf s + 1 /\
     freed s1 = freed s).
Proof.
  unfold _loadFont, calloc_node, _getFontPath, calloc, loaded_font.
  destruct s as [q off imgs sentinel chain curp fr na nt plan tr en].
  cbn [calloc_plan next_addr set_calloc_plan set_next_addr env fonts_dir
       bind].
  destruct plan as [|[|] plan];
    cbn [calloc_plan next_addr set_calloc_plan set_next_addr env bind].
  - destruct (_ >? _); [load_case|].
    cbn [calloc_plan next_addr set_calloc_plan set_next_addr env bind].
    destruct (TTF_OpenFont_ok _ _ _); load_case.
  - destruct (_ >? _); [load_case|].
    destruct plan as [|[|] plan];
      cbn [calloc_plan next_addr set_calloc_plan set_next_addr env bind];
      try load_case;
      destruct (TTF_OpenFont_ok _ _ _); load_case.
  - load_case.
Qed.

Lemma is_freed_older a b fr :
  a < b -> is_freed a fr = false -> is_freed a (b :: fr) = false.
Proof.
  intros Hlt H. rewrite is_freed_cons, H, orb_false_r. apply Z.eqb_neq. lia.
Qed.

Lemma NoDup_snoc {A : Type} (l : list A) (x : A) :
  NoDup l -> ~ In x l -> NoDup (l ++ [x]).
Proof.
  intros Hl Hx. apply NoDup_rev in Hl.
  rewrite <- (rev_involutive (l ++ [x])). apply NoDup_rev.
  rewrite rev_app_distr. cbn. constructor; [|exact Hl].
  rewrite <- in_rev. exact Hx.
Qed.

(** X10. [gfxFontLoadFont] always returns on a registry in good order and
    keeps it in good order.  On success exactly one entry is linked
    behind the entries already there, with a fresh node, a fresh backend
    font, no reference and no pending release; on failure the chain is
    as before.  In both cases the entries already registered and the
    current default font are not touched. *)
Theorem load_font_appends_one_entry :
  forall (s : state) (name : string) (size : Z),
    fonts_wf s ->
    font_list_addr < next_addr s ->
    exists rc s1,
      gfxFontLoadFont (Some name) size s = Ret rc s1 /\
      fonts_wf s1 /\
      cur_default_font s1 = cur_default_font s /\
      job_list s1 = job_list s /\
      (rc = 0 /\
       font_list_next s1 =
         font_list_next s ++
           [loaded_font s name
              (if size =? 0 then DEFAULT_FONT_SIZE (env s) else size)]
       \/
       rc = -1 /\ font_list_next s1 = font_list_next s).
Proof.
  intros s name size Hwf Hheap0.
  unfold gfxFontLoadFont, _appendFont.
  rewrite (chain_live_wf _ Hwf).
  set (sz := if size =? 0 then DEFAULT_FONT_SIZE (env s) else size).
  destruct (_loadFont_cases s name sz)
    as (r & s1 & Hrun & Hq & Hsent & Hchain & Hcur & Henv & Hcase).
  rewrite Hrun. cbn [bind].
  destruct Hwf as [Wsa Wsf Waddr Wfont Wnodes Wfreed].
  destruct Hcase as [(-> & Hnt & Hheap)|(-> & Hna & Hnt & Hfr)].
  - exists (-1), s1. split; [reflexivity|].
    split; [|split; [exact Hcur|split; [exact Hq|right; split;
                                          [reflexivity|exact Hchain]]]].
    constructor; rewrite ?Hsent, ?Hchain, ?Hnt; try assumption.
    + destruct Hheap as [(-> & ->)|(-> & ->)]; [exact Wnodes|].
      eapply Forall_impl; [|exact Wnodes]. cbn beta.
      intros f (Hf & Hl & Hh). split; [lia|].
      split; [apply is_freed_older; [lia|exact Hl]|exact Hh].
    + destruct Hheap as [(-> & ->)|(-> & ->)]; [exact Wfreed|].
      constructor; [lia|].
      eapply Forall_impl; [|exact Wfreed]. cbn beta. intros; lia.
  - exists 0, (set_font_list_next
                 (font_list_next s1 ++ [loaded_font s name sz]) s1).
    split; [reflexivity|].
    cbn [cur_default_font job_list font_list_next set_font_list_next].
    split; [|split; [exact Hcur|split; [exact Hq|left; split;
                                          [reflexivity|]]]].
    2:{ rewrite Hchain. reflexivity. }
    constructor;
      cbn [font_list font_list_next set_font_list_next freed next_addr
           next_ttf];
      rewrite ?Hsent, ?Hchain, ?Hnt, ?Hna, ?Hfr; try assumption.
    + rewrite map_app. cbn [map loaded_font font_addr].
      apply NoDup_snoc; [exact Waddr|].
      intros Hin. apply in_map_iff in Hin. destruct Hin as (f & Hf & Hin).
      rewrite Forall_forall in Wnodes. destruct (Wnodes f Hin) as (? & _).
      lia.
    + rewrite map_app. cbn [map loaded_font font_ref ref_font].
      apply NoDup_snoc; [exact Wfont|].
      intros Hin. apply in_map_iff in Hin. destruct Hin as (f & Hf & Hin).
      rewrite Forall_forall in Wnodes.
      destruct (Wnodes f Hin) as (_ & _ & (h & Hh & Hlt)).
      rewrite Hh in Hf. inversion Hf. lia.
    + apply Forall_app. split.
      * eapply Forall_impl; [|exact Wnodes]. cbn beta.
        intros f (Hf & Hl & (h & Hh & Hlt)). split; [lia|].
        split; [exact Hl|]. exists h. split; [exact Hh|lia].
      * constructor; [|constructor].
        cbn [loaded_font font_addr font_ref ref_font].
        split; [lia|].
        split; [apply is_freed_fresh; exact Wfreed|].
        eexists. split; [reflexivity|lia].
    + eapply Forall_impl; [|exact Wfreed]. cbn beta. intros; lia.
Qed.

Lemma load_font_appends_one_entry_witness :
  exists s1,
    gfxFontLoadFont (Some "Other.ttf"%string) 0 Fonts.one_text_job =
      Ret 0 s1 /\
    fonts_wf s1 /\
    map (fun f => (font_addr f, font_name f, font_size f))
        (font_list_next s1) =
      [(1, Some "IBMPlexSans-Medium.ttf"%string, 15);
       (2, Some "Other.ttf"%string, 15)].
Proof.
  destruct (load_font_appends_one_entry Fonts.one_text_job "Other.ttf" 0
              one_text_job_wf ltac:(vm_compute; reflexivity))
    as (rc & s1 & Hrun & Hwf & _ & _ & [(-> & Hch)|(-> & Hch)]).
  - exists s1. split; [exact Hrun|]. split; [exact Hwf|].
    rewrite Hch. vm_compute. reflexivity.
  - vm_compute in Hrun. discriminate Hrun.
Defined.

(** X11. [gfxFontInit] puts the registry in good order: on success the
    registry holds exactly the default font, at the default size, not
    referenced, and this entry is the current default font; on failure
    the registry is empty and the current default font is not set. *)
Theorem font_init_gives_a_registry_in_good_order :
  forall (s : state),
    font_addr (font_list s) = font_list_addr ->
    ref_font (font_ref (font_list s)) = None ->
    font_list_addr < next_addr s ->
    Forall (fun a => a < next_addr s) (freed s) ->
    exists rc s1,
      gfxFontInit s = Ret rc s1 /\
      fonts_wf s1 /\
      (rc = 0 /\
       font_list_next s1 =
         [loaded_font s (DEFAULT_FONT (env s)) (DEFAULT_FONT_SIZE (env s))] /\
       cur_default_font s1 = Some (next_addr s)
       \/
       rc = -1 /\ font_list_next s1 = [] /\
       cur_default_font s1 = cur_default_font s).
Proof.
  intros s Hsa Hsf Hheap Hfreed. unfold gfxFontInit.
  destruct (_loadFont_cases s (DEFAULT_FONT (env s))
              (DEFAULT_FONT_SIZE (env s)))
    as (r & s1 & Hrun & _ & Hsent & _ & Hcur & _ & Hcase).
  rewrite Hrun. cbn [bind].
  destruct Hcase as [(-> & Hnt & Hcases)|(-> & Hna & Hnt & Hfr)].
  - exists (-1), (set_font_list_next [] s1). split; [reflexivity|].
    split; [|right; repeat split; exact Hcur].
    constructor;
      cbn [font_list font_list_next set_font_list_next freed next_addr
           next_ttf];
      rewrite ?Hsent; try assumption; try constructor.
    destruct Hcases as [(-> & ->)|(-> & ->)]; [exact Hfreed|].
    constructor; [lia|].
    eapply Forall_impl; [|exact Hfreed]. cbn beta. intros; lia.
  - exists 0. eexists. split; [reflexivity|].
    split; [|left; repeat split].
    constructor;
      cbn [font_list font_list_next set_font_list_next set_cur_default_font
           freed next_addr next_ttf];
      rewrite ?Hsent, ?Hna, ?Hnt, ?Hfr; try assumption.
    + cbn. constructor; [intros []|constructor].
    + cbn. constructor; [intros []|constructor].
    + constructor; [|constructor].
      cbn [loaded_font font_addr font_ref ref_font].
      split; [lia|]. split; [apply is_freed_fresh; exact Hfreed|].
      eexists. split; [reflexivity|lia].
    + eapply Forall_impl; [|exact Hfreed]. cbn beta. intros; lia.
Qed.

Lemma font_init_gives_a_registry_in_good_order_witness :
  exists s1,
    gfxFontInit Demo.boot = Ret 0 s1 /\
    fonts_wf s1 /\
    font_list_next s1 = [Scenes.booted_font] /\
    cur_default_font s1 = Some 1.
Proof.
  destruct (font_init_gives_a_registry_in_good_order Demo.boot eq_refl
              eq_refl ltac:(vm_compute; reflexivity) ltac:(constructor))
    as (rc & s1 & Hrun & Hwf & [(-> & Hch & Hcur)|(-> & _)]).
  - exists s1. split; [exact Hrun|]. split; [exact Hwf|].
    split; [exact Hch|exact Hcur].
  - vm_compute in Hrun. discriminate Hrun.
Defined.

Lemma load_font_wf_ext s s' a f :
  fonts_wf s ->
  freed s' = freed s ->
  font_list_next s' = font_list_next s ->
  find_font a (font_list_next s) = Some f ->
  load_font a s' = Some f.
Proof.
  intros Hwf Hfr Hch Hfind.
  destruct (fonts_wf_split _ _ _ Hwf Hfind) as (_ & _ & _ & _ & Ha0 & Hl & _).
  unfold load_font. rewrite Ha0, Hfr, Hl, Hch. exact Hfind.
Qed.

Lemma find_font_fresh a l f :
  Forall (fun g => font_addr g <> a) l ->
  font_addr f = a ->
  find_font a (l ++ [f]) = Some f.
Proof. intros Hl Hf. apply find_font_at; assumption. Qed.

Lemma fonts_wf_below s :
  fonts_wf s ->
  Forall (fun g => font_addr g <> next_addr s) (font_list_next s).
Proof.
  intros Hwf. eapply Forall_impl; [|exact (wf_nodes _ Hwf)]. cbn beta.
  intros g (Hg & _). lia.
Qed.

(** X12. After [gfxFontSetSize] reported success, the size of the current
    default font is the size asked for, whether the size was already
    that one, the entry was resized in place, or a new entry was loaded
    because the old one is still referenced. *)
Theorem set_size_then_get_size :
  forall (s : state) (a : addr) (cur : gfx_font) (nm : string) (size : Z)
         (s1 : state),
    fonts_wf s ->
    font_list_addr < next_addr s ->
    cur_default_font s = Some a ->
    find_font a (font_list_next s) = Some cur ->
    font_name cur = Some nm ->
    0 <= size < 2 ^ 32 ->
    gfxFontSetSize size s = Ret 0 s1 ->
    gfxFontGetCurFontSize s1 = Ret size s1.
Proof.
  intros s a cur nm size s1 Hwf Hheap Hcur Hfind Hnm Hsize Hrun.
  pose proof (fonts_wf_split _ _ _ Hwf Hfind)
    as (pre & post & Hchain & Ha & Ha0 & Hlive & Hpre & _).
  subst a.
  unfold gfxFontSetSize in Hrun.
  rewrite Hcur, (load_font_wf _ _ _ Hwf Hfind) in Hrun.
  destruct (Z.eqb_spec (font_size cur) size) as [Esz|Nsz].
  { (* the size is already the one asked for *)
    invert_ret. unfold gfxFontGetCurFontSize.
    rewrite Hcur, (load_font_wf _ _ _ Hwf Hfind). reflexivity. }
  destruct (ref_count (font_ref cur) =? 0).
  - (* resized in place *)
    destruct (font_path cur) as [p|]; [|discriminate Hrun].
    cbn [env log set_trace] in Hrun.
    destruct (TTF_OpenFont_ok (env s) p (to_int size));
      [|discriminate Hrun].
    invert_ret. unfold gfxFontGetCurFontSize, store_font.
    cbn [font_addr set_font_and_size]. rewrite Ha0.
    cbn [cur_default_font set_font_list_next log set_trace set_next_ttf].
    rewrite Hcur. unfold load_font.
    cbn [freed font_list_next set_font_list_next log set_trace
         set_next_ttf].
    rewrite Ha0, Hlive.
    rewrite (find_update_font _ _ cur) by (auto; reflexivity).
    cbn [font_size set_font_and_size]. rewrite to_uint_id by exact Hsize.
    reflexivity.
  - (* a new entry behind the referenced one *)
    set (s0 := store_font (set_pending_free 1 cur) s) in Hrun.
    assert (Es0 : s0 = set_font_list_next
                         (update_font (set_pending_free 1 cur)
                            (font_list_next s)) s).
    { subst s0. unfold store_font.
      change (font_addr (set_pending_free 1 cur)) with (font_addr cur).
      rewrite Ha0. reflexivity. }
    clearbody s0.
    assert (Hwf0 : fonts_wf s0).
    { rewrite Es0. apply fonts_wf_update with (f := cur);
        [exact Hwf| |reflexivity].
      change (font_addr (set_pending_free 1 cur)) with (font_addr cur).
      exact Hfind. }
    unfold _appendFont in Hrun. rewrite (chain_live_wf _ Hwf0) in Hrun.
    rewrite Hnm in Hrun.
    destruct (_loadFont_cases s0 nm size)
      as (r & s2 & Hload & _ & Hsent & Hch & _ & _ & Hcase).
    rewrite Hload in Hrun. cbn [bind] in Hrun.
    destruct Hcase as [(-> & _)|(-> & Hna & Hnt & Hfr)];
      [discriminate Hrun|].
    cbn [bind] in Hrun. injection Hrun as Hs1. subst s1.
    unfold gfxFontGetCurFontSize.
    cbn [cur_default_font set_cur_default_font loaded_font font_addr].
    unfold load_font.
    cbn [freed font_list_next set_font_list_next set_cur_default_font].
    assert (Hna0 : (next_addr s0 =? font_list_addr) = false).
    { apply Z.eqb_neq. rewrite Es0. cbn [next_addr set_font_list_next].
      lia. }
    rewrite Hna0, Hfr.
    rewrite (is_freed_fresh _ _ (wf_freed _ Hwf0)).
    rewrite Hch.
    rewrite find_font_fresh;
      [|apply fonts_wf_below; exact Hwf0|reflexivity].
    cbn [font_size loaded_font]. rewrite to_uint_id by exact Hsize.
    reflexivity.
Qed.

Lemma set_size_then_get_size_witness :
  let s1 := Demo.after (gfxFontSetSize 20 Fonts.one_text_job) in
  gfxFontGetCurFontSize s1 = Ret 20 s1.
Proof.
  apply (set_size_then_get_size Fonts.one_text_job 1 Fonts.default_font
           "IBMPlexSans-Medium.ttf" 20 _ one_text_job_wf
           ltac:(vm_compute; reflexivity) eq_refl eq_refl eq_refl
           ltac:(lia)).
  vm_compute. reflexivity.
Defined.

(** X13. What a failed [gfxFontSetSize] leaves behind.  When the current
    default font has no reference, its backend font was closed before the
    new one failed to open: the entry stays the current default font and
    still records the closed font, which the next
    [gfxFontGetCurFont] hands out.  When the font is referenced, the
    entry is marked for release and there is no current default font any
    more, so the next [gfxFontGetCurFont] dereferences [NULL]. *)
Theorem failed_set_size_outcomes :
  forall (s : state) (a : addr) (cur : gfx_font) (nm p : string) (size : Z)
         (s1 : state),
    fonts_wf s ->
    cur_default_font s = Some a ->
    find_font a (font_list_next s) = Some cur ->
    font_name cur = Some nm ->
    font_path cur = Some p ->
    gfxFontSetSize size s = Ret (-1) s1 ->
    (ref_count (font_ref cur) = 0 /\
     trace s1 =
       trace s ++ [Ev_TTF_CloseFont (ref_font (font_ref cur));
                   Ev_TTF_OpenFont p (to_int size) None] /\
     cur_default_font s1 = Some a /\
     font_list_next s1 = font_list_next s /\
     exists s2,
       gfxFontGetCurFont s1 = Ret (ref_font (font_ref cur)) s2)
    \/
    (ref_count (font_ref cur) <> 0 /\
     cur_default_font s1 = None /\
     load_font a s1 = Some (set_pending_free 1 cur) /\
     gfxFontGetCurFont s1 = Fault NullDereference).
Proof.
  intros s a cur nm p size s1 Hwf Hcur Hfind Hnm Hp Hrun.
  pose proof (fonts_wf_split _ _ _ Hwf Hfind)
    as (pre & post & Hchain & Ha & Ha0 & Hlive & Hpre & _).
  subst a.
  unfold gfxFontSetSize in Hrun.
  rewrite Hcur, (load_font_wf _ _ _ Hwf Hfind) in Hrun.
  destruct (Z.eqb_spec (font_size cur) size) as [Esz|Nsz];
    [discriminate Hrun|].
  destruct (Z.eqb_spec (ref_count (font_ref cur)) 0) as [Erc|Nrc].
  - left. rewrite Hp in Hrun. cbn [env log set_trace] in Hrun.
    destruct (TTF_OpenFont_ok (env s) p (to_int size));
      [discriminate Hrun|].
    injection Hrun as Hs1. subst s1.
    split; [exact Erc|].
    split; [cbn; rewrite <- app_assoc; reflexivity|].
    split; [exact Hcur|]. split; [reflexivity|].
    unfold gfxFontGetCurFont, get_cur_font.
    cbn [cur_default_font log set_trace]. rewrite Hcur.
    unfold load_font. cbn [freed font_list_next log set_trace].
    rewrite Ha0, Hlive, Hfind. cbn [bind].
    eexists. reflexivity.
  - right.
    set (s0 := store_font (set_pending_free 1 cur) s) in Hrun.
    assert (Es0 : s0 = set_font_list_next
                         (update_font (set_pending_free 1 cur)
                            (font_list_next s)) s).
    { subst s0. unfold store_font.
      change (font_addr (set_pending_free 1 cur)) with (font_addr cur).
      rewrite Ha0. reflexivity. }
    clearbody s0.
    assert (Hwf0 : fonts_wf s0).
    { rewrite Es0. apply fonts_wf_update with (f := cur);
        [exact Hwf| |reflexivity].
      change (font_addr (set_pending_free 1 cur)) with (font_addr cur).
      exact Hfind. }
    assert (Hfind0 : find_font (font_addr cur) (font_list_next s0) =
                     Some (set_pending_free 1 cur)).
    { rewrite Es0. cbn [font_list_next set_font_list_next].
      apply find_update_font with (f := cur); [exact Hfind|reflexivity]. }
    pose proof (fonts_wf_split _ _ _ Hwf0 Hfind0)
      as (_ & _ & _ & _ & _ & Hlive0 & _).
    assert (Hlt : font_addr cur < next_addr s0).
    { destruct (find_font_split _ _ _ Hfind0) as (p0 & q0 & Hc0 & _ & _).
      pose proof (wf_nodes _ Hwf0) as Wn. rewrite Hc0 in Wn.
      apply Forall_app in Wn. destruct Wn as [_ Wn].
      inversion Wn as [|? ? (Hb & _) _]. exact (proj2 Hb). }
    unfold _appendFont in Hrun. rewrite (chain_live_wf _ Hwf0) in Hrun.
    rewrite Hnm in Hrun.
    destruct (_loadFont_cases s0 nm size)
      as (r & s2 & Hload & _ & Hsent & Hch & _ & _ & Hcase).
    rewrite Hload in Hrun. cbn [bind] in Hrun.
    destruct Hcase as [(-> & _ & Hheap)|(-> & _)];
      [|discriminate Hrun].
    cbn [bind] in Hrun. injection Hrun as Hs1. subst s1.
    split; [exact Nrc|]. split; [reflexivity|].
    split; [|reflexivity].
    unfold load_font.
    cbn [freed font_list_next set_cur_default_font].
    rewrite Ha0, Hch, Hfind0.
    destruct Hheap as [(_ & ->)|(_ & ->)].
    + rewrite Hlive0. reflexivity.
    + rewrite is_freed_older by assumption. reflexivity.
Qed.

Lemma failed_set_size_outcomes_witness :
  let s1 := Demo.after (gfxFontSetSize 1000 Fonts.one_text_job) in
  cur_default_font s1 = None /\
  gfxFontGetCurFont s1 = Fault NullDereference.
Proof.
  intros s1.
  destruct (failed_set_size_outcomes Fonts.one_text_job 1 Fonts.default_font
              "IBMPlexSans-Medium.ttf" "fonts/IBMPlexSans-Medium.ttf" 1000
              s1 one_text_job_wf eq_refl eq_refl eq_refl eq_refl
              ltac:(vm_compute; reflexivity))
    as [(H & _)|(_ & H1 & _ & H2)].
  - vm_compute in H. discriminate H.
  - split; [exact H1|exact H2].
Defined.

(** ** A text job holds the font from the request to the dispatch *)


Lemma gfxDrawText_wf s a cur ch rest x y colour :
  fonts_wf s ->
  cur_default_font s = Some a ->
  find_font a (font_list_next s) = Some cur ->
  calloc_plan s = [] ->
  gfxDrawText (Some (String ch rest)) x y colour s =
    Ret 0
        (set_job_list
           (job_list s ++
              [{| job_type := DRAW_TEXT;
                  job_data :=
                    Some (U_text {| text_str := Some (String ch rest);
                                    text_x := to_sshort x;
                                    text_y := to_sshort y;
                                    text_colour := to_uint colour;
                                    text_font := ref_font (font_ref cur) |})
               |}])
           (set_font_list_next
              (update_font (bump_ref cur) (font_list_next s)) s)).
Proof.
  intros Hwf Hcur Hfind Hplan.
  unfold gfxDrawText, INIT_JOB, _pushDrawJob, calloc.
  cbn [String.eqb]. rewrite Hplan.
  cbn [bind calloc_plan set_job set_job_list job_list].
  rewrite ?Hplan.
  cbn [bind calloc_plan set_job set_job_list job_list].
  rewrite ?Hplan.
  cbn [bind calloc_plan set_job set_job_list job_list].
  unfold gfxFontGetCurFont.
  match goal with
  | |- context [get_cur_font ?st] =>
      assert (Hwf1 : fonts_wf st)
        by (apply (fonts_wf_same_registry s); try reflexivity; exact Hwf);
      rewrite (get_cur_font_wf st a cur Hwf1 Hcur Hfind)
  end.
  cbn [bind]. unfold write_job, set_job.
  cbn [job_list set_job_list set_font_list_next font_list_next].
  rewrite !update_last_app.
  change (ref_font (font_ref (bump_ref cur))) with (ref_font (font_ref cur)).
  destruct s; reflexivity.
Qed.

(** X14. A text request takes one reference on the current default font
    and its dispatch gives it back: after [gfxDrawText] and one drain the
    state is the one before the request, but for the three calls logged
    (render with the font held by the job, copy at the shifted position,
    present). *)
Theorem text_job_returns_its_font :
  forall (s : state) (a : addr) (cur : gfx_font) (ch : Ascii.ascii)
         (rest : string) (x y colour : Z),
    fonts_wf s ->
    cur_default_font s = Some a ->
    find_font a (font_list_next s) = Some cur ->
    0 <= ref_count (font_ref cur) < 2 ^ 32 ->
    pending_free (font_ref cur) = 0 \/ ref_count (font_ref cur) <> 0 ->
    job_list s = [] ->
    calloc_plan s = [] ->
    is_cur_gl_thread (env s) = true ->
    frame_period_elapsed (env s) = true ->
    let str := String ch rest in
    exists s1,
      gfxDrawText (Some str) x y colour s = Ret 0 s1 /\
      load_font a s1 = Some (bump_ref cur) /\
      gfxDrawUpdateScreen s1 =
        Ret 0
            (set_trace
               (trace s ++
                  [Ev_RenderText (ref_font (font_ref cur)) (Some str)
                                 (to_uint colour);
                   Ev_CopyText
                     (shifted x (offset_x (global_offset s)))
                     (shifted y (offset_y (global_offset s)));
                   Ev_RenderPresent]) s).
Proof.
  intros s a cur ch rest x y colour Hwf Hcur Hfind Hrc Hkeep Hq Hplan
    Hgl Hfps str.
  pose proof (fonts_wf_split _ _ _ Hwf Hfind) as (_ & _ & _ & Ha & _).
  assert (Hh : exists h, ref_font (font_ref cur) = Some h).
  { destruct (find_font_split _ _ _ Hfind) as (pre & post & Hchain & _ & _).
    pose proof (wf_nodes _ Hwf) as Wn. rewrite Hchain in Wn.
    apply Forall_app in Wn. destruct Wn as [_ Wn].
    inversion Wn as [|? ? (_ & _ & (h & Hh & _)) _]. exists h. exact Hh. }
  destruct Hh as (h & Hh).
  eexists. split; [eapply gfxDrawText_wf; eassumption|].
  rewrite Hq. cbn [app].
  set (s0 := set_font_list_next _ s).
  assert (Hwf0 : fonts_wf s0).
  { apply fonts_wf_update with (f := cur); [exact Hwf| |reflexivity].
    change (font_addr (bump_ref cur)) with (font_addr cur).
    rewrite Ha. exact Hfind. }
  assert (Hfind0 : find_font a (font_list_next s0) = Some (bump_ref cur)).
  { apply find_update_font with (f := cur); [exact Hfind|exact Ha]. }
  split.
  { apply load_font_wf_ext with (s := s0);
      [exact Hwf0|reflexivity|reflexivity|exact Hfind0]. }
  unfold gfxDrawUpdateScreen.
  cbn [env set_job_list _waitingDrawJobs job_list].
  replace (env s0) with (env s) by reflexivity.
  rewrite Hgl, Hfps. cbn [negb Z.eqb List.length].
  cbn [drain popDrawJob job_list set_job_list job_data bind].
  unfold vHandleDrawJob.
  cbn [job_data job_type text_str text_x text_y text_colour text_font
       global_offset set_job_list].
  replace (global_offset s0) with (global_offset s) by reflexivity.
  unfold _drawText. rewrite Hh.
  match goal with
  | |- context [gfxFontPutFont _ ?st] =>
      assert (Hwf1 : fonts_wf st)
        by (apply (fonts_wf_same_registry s0); try reflexivity; exact Hwf0);
      rewrite (gfxFontPutFont_wf st a (bump_ref cur) h Hwf1 Hfind0 Hh)
  end.
  rewrite put_bump_ref by exact Hrc.
  assert (Hd : put_deletes cur = false).
  { unfold put_deletes. destruct Hkeep as [-> | Hnz].
    - apply andb_false_r.
    - apply Z.eqb_neq in Hnz. rewrite Hnz. reflexivity. }
  rewrite Hd. cbn [bind Z.eqb].
  cbn [popDrawJob job_list set_job_list set_font_list_next log set_trace
       font_list_next].
  f_equal. subst s0. cbn [font_list_next set_font_list_next].
  rewrite update_font_twice by reflexivity.
  rewrite update_font_same by (rewrite Ha; exact Hfind).
  unfold shifted. rewrite to_uint_idem.
  apply state_eq; try reflexivity.
  - symmetry. exact Hq.
  - change (((trace s ++ [Ev_RenderText (Some h) (Some str) (to_uint colour)])
             ++ [Ev_CopyText
                   (to_sshort (int_add (to_sshort x)
                                 (offset_x (global_offset s))))
                   (to_sshort (int_add (to_sshort y)
                                 (offset_y (global_offset s))))])
            ++ [Ev_RenderPresent] =
            trace s ++
              [Ev_RenderText (Some h) (Some str) (to_uint colour);
               Ev_CopyText
                 (to_sshort (int_add (to_sshort x)
                               (offset_x (global_offset s))))
                 (to_sshort (int_add (to_sshort y)
                               (offset_y (global_offset s))));
               Ev_RenderPresent]).
    rewrite <- !app_assoc. reflexivity.
Qed.

Lemma booted_wf : fonts_wf Scenes.booted.
Proof.
  assert (Hchain : font_list_next Scenes.booted = [Scenes.booted_font])
    by (vm_compute; reflexivity).
  constructor; rewrite ?Hchain.
  - reflexivity.
  - reflexivity.
  - repeat constructor. intros [].
  - repeat constructor. intros [].
  - constructor; [|constructor].
    change (next_addr Scenes.booted) with 2.
    change (next_ttf Scenes.booted) with 2.
    cbn [font_addr Scenes.booted_font].
    split; [unfold font_list_addr; lia|].
    split; [reflexivity|]. exists 1. split; [reflexivity|lia].
  - change (freed Scenes.booted) with (@nil addr). constructor.
Qed.

Lemma text_job_returns_its_font_witness :
  let s := Demo.after (gfxDrawSetGlobalYOffset 4 Scenes.booted) in
  exists s1,
    gfxDrawText (Some "hi"%string) 5 6 Demo.Red s = Ret 0 s1 /\
    load_font 1 s1 = Some Fonts.default_font /\
    gfxDrawUpdateScreen s1 =
      Ret 0
          (set_trace
             (trace s ++
                [Ev_RenderText (Some 1) (Some "hi"%string) 0xFF0000;
                 Ev_CopyText 5 10; Ev_RenderPresent]) s).
Proof.
  intros s.
  assert (Hwf : fonts_wf s)
    by (apply (fonts_wf_same_registry Scenes.booted); try reflexivity;
        exact booted_wf).
  exact (text_job_returns_its_font s 1 Scenes.booted_font _ _ 5 6
           Demo.Red Hwf eq_refl eq_refl ltac:(cbn; lia) (or_introl eq_refl)
           eq_refl eq_refl eq_refl eq_refl).
Defined.

(** ** Loading and freeing images *)

Lemma find_image_app a l i l' :
  find_image a l = Some i -> find_image a (l ++ l') = Some i.
Proof.
  induction l as [|j l IH]; cbn; [discriminate|].
  destruct (img_addr j =? a); [trivial|exact IH].
Qed.

Lemma find_image_fresh a l i :
  Forall (fun j => img_addr j <> a) l ->
  img_addr i = a ->
  find_image a (l ++ [i]) = Some i.
Proof.
  intros Hl Hi. induction Hl as [|j l Hj Hl IH]; cbn.
  - apply Z.eqb_eq in Hi. rewrite Hi. reflexivity.
  - apply Z.eqb_neq in Hj. rewrite Hj. exact IH.
Qed.

Lemma unlink_image_fresh a l i :
  Forall (fun j => img_addr j <> a) l ->
  img_addr i = a ->
  unlink_image a (l ++ [i]) = l.
Proof.
  intros Hl Hi. induction Hl as [|j l Hj Hl IH]; cbn.
  - apply Z.eqb_eq in Hi. rewrite Hi. reflexivity.
  - apply Z.eqb_neq in Hj. rewrite Hj, IH. reflexivity.
Qed.

Lemma gfxDrawLoadScaledImage_cases :
  forall (v : video) (g : gl_binding) (ren : SDL_Renderer) (name : string)
         (scale : float) (s : state),
    renderer g = Some ren ->
    cur_gl_thread g = true ->
    (gfxDrawLoadScaledImage v g (Some name) scale s = Fault UseAfterFree /\
     exists file ops,
       open_image v name = DecodeFailed file ops \/
       exists surf,
         open_image v name = Decoded file ops surf /\
         SDL_CreateTextureFromSurface v ren surf = 0)
    \/
    exists r s1,
      gfxDrawLoadScaledImage v g (Some name) scale s = Ret (r, g) s1 /\
      job_list s1 = job_list s /\
      (forall a i,
          find_image a (loaded_images_list s) = Some i ->
          find_image a (loaded_images_list s1) = Some i) /\
      match r with
      | None =>
          loaded_images_list s1 = loaded_images_list s /\
          (trace s1 = trace s \/
           exists file,
             open_image v name = RWopsFailed file /\
             trace s1 = trace s ++ [Ev_fclose file])
      | Some a =>
          a = next_addr s /\
          next_addr s1 = next_addr s + 1 /\
          trace s1 = trace s /\
          exists file ops surf,
            open_image v name = Decoded file ops surf /\
            let tex := SDL_CreateTextureFromSurface v ren surf in
            tex <> 0 /\
            loaded_images_list s1 =
              loaded_images_list s ++
                [{| img_addr := a; img_filename := name; img_tex := tex;
                    img_ops := ops; img_surf := surf;
                    img_w := fst (SDL_QueryTexture v tex);
                    img_h := snd (SDL_QueryTexture v tex);
                    img_scale := scale; img_ref_count := 0;
                    img_pending_free := 0 |}]
      end.
Proof.
  intros v g ren name scale s Hren Hgl.
  unfold gfxDrawLoadScaledImage, no_renderer.
  rewrite Hren, Hgl. cbn [orb negb bind]. rewrite Hren.
  unfold calloc_node, calloc.
  assert (Hnone : forall s1 : state,
             job_list s1 = job_list s ->
             loaded_images_list s1 = loaded_images_list s ->
             (trace s1 = trace s \/
              exists file,
                open_image v name = RWopsFailed file /\
                trace s1 = trace s ++ [Ev_fclose file]) ->
             exists (r : option addr) (s1' : state),
               Ret (None, g) s1 = Ret (r, g) s1' /\
               job_list s1' = job_list s /\
               (forall a i,
                   find_image a (loaded_images_list s) = Some i ->
                   find_image a (loaded_images_list s1') = Some i) /\
               match r with
               | None =>
                   loaded_images_list s1' = loaded_images_list s /\
                   (trace s1' = trace s \/
                    exists file,
                      open_image v name = RWopsFailed file /\
                      trace s1' = trace s ++ [Ev_fclose file])
               | Some a => False
               end).
  { intros s1 Hq Hl Ht. exists None, s1. split; [reflexivity|].
    split; [exact Hq|]. split; [rewrite Hl; trivial|]. split; assumption. }
  assert (Hwrap : forall m : outcome (option addr * gl_binding),
             (exists (r : option addr) (s1' : state),
                 m = Ret (r, g) s1' /\
                 job_list s1' = job_list s /\
                 (forall a i,
                     find_image a (loaded_images_list s) = Some i ->
                     find_image a (loaded_images_list s1') = Some i) /\
                 match r with
                 | None =>
                     loaded_images_list s1' = loaded_images_list s /\
                     (trace s1' = trace s \/
                      exists file,
                        open_image v name = RWopsFailed file /\
                        trace s1' = trace s ++ [Ev_fclose file])
                 | Some a => False
                 end) ->
             exists (r : option addr) (s1 : state),
               m = Ret (r, g) s1 /\
               job_list s1 = job_list s /\
               (forall a i,
                   find_image a (loaded_images_list s) = Some i ->
                   find_image a (loaded_images_list s1) = Some i) /\
               match r with
               | None =>
                   loaded_images_list s1 = loaded_images_list s /\
                   (trace s1 = trace s \/
                    exists file,
                      open_image v name = RWopsFailed file /\
                      trace s1 = trace s ++ [Ev_fclose file])
               | Some a =>
                   a = next_addr s /\
                   next_addr s1 = next_addr s + 1 /\
                   trace s1 = trace s /\
                   exists file ops surf,
                     open_image v name = Decoded file ops surf /\
                     let tex := SDL_CreateTextureFromSurface v ren surf in
                     tex <> 0 /\
                     loaded_images_list s1 =
                       loaded_images_list s ++
                         [{| img_addr := a; img_filename := name;
                             img_tex := tex; img_ops := ops;
                             img_surf := surf;
                             img_w := fst (SDL_QueryTexture v tex);
                             img_h := snd (SDL_QueryTexture v tex);
                             img_scale := scale; img_ref_count := 0;
                             img_pending_free := 0 |}]
               end).
  { intros m (r & s1 & Hm & Hq & Hf & Hr). exists r, s1.
    split; [exact Hm|]. split; [exact Hq|]. split; [exact Hf|].
    destruct r; [contradiction|exact Hr]. }
  assert (Hopen : forall s2 : state,
             job_list s2 = job_list s ->
             loaded_images_list s2 = loaded_images_list s ->
             trace s2 = trace s ->
             next_addr s2 = next_addr s + 1 ->
             let m :=
               match open_image v name with
               | FileMissing => Ret (None, g) (free_node (next_addr s) s2)
               | RWopsFailed file =>
                   Ret (None, g)
                       (free_node (next_addr s) (log (Ev_fclose file) s2))
               | DecodeFailed _ _ => Fault UseAfterFree
               | Decoded file ops surf =>
                   let tex := SDL_CreateTextureFromSurface v ren surf in
                   if tex =? 0 then Fault UseAfterFree
                   else
                     let (w, h) := SDL_QueryTexture v tex in
                     Ret (Some (next_addr s), g)
                         (set_loaded_images_list
                            (loaded_images_list s2 ++
                               [{| img_addr := next_addr s;
                                   img_filename := name;
                                   img_tex := tex; img_ops := ops;
                                   img_surf := surf; img_w := w;
                                   img_h := h; img_scale := scale;
                                   img_ref_count := 0;
                                   img_pending_free := 0 |}]) s2)
               end in
             (m = Fault UseAfterFree /\
              exists file ops,
                open_image v name = DecodeFailed file ops \/
                exists surf,
                  open_image v name = Decoded file ops surf /\
                  SDL_CreateTextureFromSurface v ren surf = 0)
             \/
             exists (r : option addr) (s1 : state),
               m = Ret (r, g) s1 /\
               job_list s1 = job_list s /\
               (forall a i,
                   find_image a (loaded_images_list s) = Some i ->
                   find_image a (loaded_images_list s1) = Some i) /\
               match r with
               | None =>
                   loaded_images_list s1 = loaded_images_list s /\
                   (trace s1 = trace s \/
                    exists file,
                      open_image v name = RWopsFailed file /\
                      trace s1 = trace s ++ [Ev_fclose file])
               | Some a =>
                   a = next_addr s /\
                   next_addr s1 = next_addr s + 1 /\
                   trace s1 = trace s /\
                   exists file ops surf,
                     open_image v name = Decoded file ops surf /\
                     let tex := SDL_CreateTextureFromSurface v ren surf in
                     tex <> 0 /\
                     loaded_images_list s1 =
                       loaded_images_list s ++
                         [{| img_addr := a; img_filename := name;
                             img_tex := tex; img_ops := ops;
                             img_surf := surf;
                             img_w := fst (SDL_QueryTexture v tex);
                             img_h := snd (SDL_QueryTexture v tex);
                             img_scale := scale; img_ref_count := 0;
                             img_pending_free := 0 |}]
               end).
  { intros s2 Hq Hl Ht Hn m. subst m.
    destruct (open_image v name) as [|file|file ops|file ops surf] eqn:Eo.
    - right. apply Hwrap, Hnone; [exact Hq|exact Hl|left; exact Ht].
    - right. apply Hwrap, Hnone; [exact Hq|exact Hl|].
      right. exists file. split; [reflexivity|].
      cbn [free_node set_freed log set_trace trace]. rewrite Ht. reflexivity.
    - left. split; [reflexivity|]. exists file, ops. left. reflexivity.
    - cbv zeta.
      destruct (Z.eqb_spec (SDL_CreateTextureFromSurface v ren surf) 0)
        as [E0|E0].
      + left. split; [reflexivity|]. exists file, ops. right.
        exists surf. split; [reflexivity|exact E0].
      + right.
        destruct (SDL_QueryTexture v (SDL_CreateTextureFromSurface v ren surf))
          as [w h] eqn:Eq.
        eexists _, _. split; [reflexivity|].
        split; [exact Hq|].
        cbn [loaded_images_list set_loaded_images_list].
        split; [intros a i Hi; rewrite Hl; apply find_image_app; exact Hi|].
        split; [reflexivity|]. split; [exact Hn|]. split; [exact Ht|].
        exists file, ops, surf. split; [reflexivity|].
        split; [exact E0|]. rewrite Hl, Eq. reflexivity. }
  destruct (calloc_plan s) as [|[|] plan] eqn:Ep.
  - (* no plan: both allocations succeed *)
    cbn [calloc_plan set_next_addr next_addr]. rewrite ?Ep.
    cbn [calloc_plan set_next_addr next_addr]. rewrite ?Ep.
    apply (Hopen (set_next_addr (next_addr s + 1) s)); reflexivity.
  - cbn [calloc_plan set_next_addr set_calloc_plan next_addr].
    destruct plan as [|[|] plan'].
    + apply (Hopen (set_next_addr (next_addr s + 1)
                      (set_calloc_plan [] s))); reflexivity.
    + apply (Hopen (set_calloc_plan plan'
                      (set_next_addr (next_addr s + 1)
                         (set_calloc_plan (true :: plan') s))));
        reflexivity.
    + right. apply Hwrap, Hnone; [reflexivity|reflexivity|left; reflexivity].
  - right. apply Hwrap, Hnone; [reflexivity|reflexivity|left; reflexivity].
Qed.

(** X15. [gfxDrawLoadScaledImage] called by the thread that holds the
    rendering context (a renderer exists, so that nothing is bound
    anew).  The call returns [NULL] and leaves the image registry as it
    was, the only call logged being the [fclose] after a failed
    [SDL_RWFromFP]; or it returns a handle, a fresh node linked behind the
    images already loaded, with the scale given, no reference and no
    pending release; or, when [IMG_Load_RW] or
    [SDL_CreateTextureFromSurface] fails, its error path closes the file
    a second time.  Handles loaded before stay valid, and the binding is
    not changed. *)
Theorem image_load_appends_or_changes_nothing :
  forall (v : video) (g : gl_binding) (ren : SDL_Renderer) (name : string)
         (scale : float) (s : state),
    renderer g = Some ren ->
    cur_gl_thread g = true ->
    (gfxDrawLoadScaledImage v g (Some name) scale s = Fault UseAfterFree /\
     exists file ops,
       open_image v name = DecodeFailed file ops \/
       exists surf,
         open_image v name = Decoded file ops surf /\
         SDL_CreateTextureFromSurface v ren surf = 0)
    \/
    exists r s1,
      gfxDrawLoadScaledImage v g (Some name) scale s = Ret (r, g) s1 /\
      job_list s1 = job_list s /\
      (forall a i,
          find_image a (loaded_images_list s) = Some i ->
          find_image a (loaded_images_list s1) = Some i) /\
      match r with
      | None =>
          loaded_images_list s1 = loaded_images_list s /\
          (trace s1 = trace s \/
           exists file,
             open_image v name = RWopsFailed file /\
             trace s1 = trace s ++ [Ev_fclose file])
      | Some a =>
          a = next_addr s /\
          next_addr s1 = next_addr s + 1 /\
          trace s1 = trace s /\
          exists file ops surf,
            open_image v name = Decoded file ops surf /\
            let tex := SDL_CreateTextureFromSurface v ren surf in
            tex <> 0 /\
            loaded_images_list s1 =
              loaded_images_list s ++
                [{| img_addr := a; img_filename := name; img_tex := tex;
                    img_ops := ops; img_surf := surf;
                    img_w := fst (SDL_QueryTexture v tex);
                    img_h := snd (SDL_QueryTexture v tex);
                    img_scale := scale; img_ref_count := 0;
                    img_pending_free := 0 |}]
      end.
Proof. exact gfxDrawLoadScaledImage_cases. Qed.

Lemma image_load_appends_or_changes_nothing_witness :
  (exists s1,
      gfxDrawLoadImage Scenes.display Scenes.drawing_thread
        (Some "hero.png"%string) Animation.stage =
        Ret (Some 2, Scenes.drawing_thread) s1 /\
      map img_addr (loaded_images_list s1) = [1; 2] /\
      map img_tex (loaded_images_list s1) = [7; 7] /\
      trace s1 = []) /\
  gfxDrawLoadImage Scenes.display Scenes.drawing_thread
    (Some "notes.txt"%string) Animation.stage = Fault UseAfterFree.
Proof.
  split.
  - destruct (image_load_appends_or_changes_nothing Scenes.display
                Scenes.drawing_thread 1 "hero.png" float_one Animation.stage
                eq_refl eq_refl)
      as [(Hf & _)|(r & s1 & Hrun & _ & _ & Hr)].
    + vm_compute in Hf. discriminate Hf.
    + exists s1. unfold gfxDrawLoadImage. vm_compute in Hrun.
      injection Hrun as <- <-. vm_compute. repeat split; reflexivity.
  - destruct (image_load_appends_or_changes_nothing Scenes.display
                Scenes.drawing_thread 1 "notes.txt" float_one Animation.stage
                eq_refl eq_refl)
      as [(Hf & _)|(r & s1 & Hrun & _)].
    + exact Hf.
    + vm_compute in Hrun. discriminate Hrun.
Defined.

(** X16. An image that the thread holding the rendering context loaded
    and frees before any job used it leaves the image registry as it was
    before the load: the node is unlinked, its surface, file and texture
    are released, in this order, and the caller's handle is set to
    [NULL]. *)
Theorem image_load_then_free :
  forall (v : video) (g : gl_binding) (ren : SDL_Renderer) (name : string)
         (scale : float) (s : state) (a : addr) (g1 : gl_binding)
         (s1 : state),
    renderer g = Some ren ->
    cur_gl_thread g = true ->
    Forall (fun i => img_addr i < next_addr s) (loaded_images_list s) ->
    gfxDrawLoadScaledImage v g (Some name) scale s = Ret (Some a, g1) s1 ->
    exists file ops surf s2,
      open_image v name = Decoded file ops surf /\
      g1 = g /\
      gfxDrawFreeLoadedImage (Some a) s1 = Ret (0, None) s2 /\
      loaded_images_list s2 = loaded_images_list s /\
      trace s2 =
        trace s ++
          [Ev_SDL_FreeSurface surf; Ev_SDL_RWclose ops;
           Ev_SDL_DestroyTexture (SDL_CreateTextureFromSurface v ren surf)] /\
      job_list s2 = job_list s.
Proof.
  intros v g ren name scale s a g1 s1 Hren Hgl Hold Hload.
  destruct (gfxDrawLoadScaledImage_cases v g ren name scale s Hren Hgl)
    as [(Hf & _)|(r & s1' & Hrun & Hq & _ & Hr)];
    [rewrite Hf in Hload; discriminate Hload|].
  rewrite Hrun in Hload. injection Hload as -> <- ->.
  destruct Hr as (-> & _ & Htr & file & ops & surf & Ho & _ & Hl).
  exists file, ops, surf.
  assert (Hfresh : Forall (fun j => img_addr j <> next_addr s)
                          (loaded_images_list s)).
  { eapply Forall_impl; [|exact Hold]. cbn beta. intros; lia. }
  unfold gfxDrawFreeLoadedImage, load_image, bind, freeLoadedImage.
  rewrite Hl.
  rewrite (find_image_fresh (next_addr s) _ _ Hfresh)
    by reflexivity.
  cbn [img_ref_count Z.eqb img_surf img_ops img_tex].
  rewrite Hl.
  rewrite (find_image_fresh (next_addr s) _ _ Hfresh) by reflexivity.
  rewrite (unlink_image_fresh (next_addr s) _ _ Hfresh) by reflexivity.
  eexists. split; [exact Ho|]. split; [reflexivity|].
  split; [reflexivity|].
  split; [reflexivity|]. split; [|exact Hq].
  cbn [trace free_node set_freed log set_trace set_loaded_images_list
       img_surf img_ops img_tex].
  rewrite Htr, <- !app_assoc. reflexivity.
Qed.

Lemma image_load_then_free_witness :
  let s1 := Demo.after (gfxDrawLoadImage Scenes.display
                          Scenes.drawing_thread (Some "hero.png"%string)
                          Animation.stage) in
  gfxDrawLoadImage Scenes.display Scenes.drawing_thread
    (Some "hero.png"%string) Animation.stage =
    Ret (Some 2, Scenes.drawing_thread) s1 /\
  map img_addr (loaded_images_list s1) = [1; 2] /\
  exists s2,
    gfxDrawFreeLoadedImage (Some 2) s1 = Ret (0, None) s2 /\
    loaded_images_list s2 = loaded_images_list Animation.stage /\
    trace s2 = [Ev_SDL_FreeSurface 9; Ev_SDL_RWclose 8;
                Ev_SDL_DestroyTexture 7].
Proof.
  intros s1.
  assert (Hload : gfxDrawLoadScaledImage Scenes.display
                    Scenes.drawing_thread (Some "hero.png"%string)
                    float_one Animation.stage =
                  Ret (Some 2, Scenes.drawing_thread) s1)
    by (vm_compute; reflexivity).
  split; [exact Hload|]. split; [vm_compute; reflexivity|].
  destruct (image_load_then_free Scenes.display Scenes.drawing_thread 1
              "hero.png" float_one Animation.stage 2 Scenes.drawing_thread
              s1 eq_refl eq_refl
              ltac:(vm_compute; repeat constructor) Hload)
    as (file & ops & surf & s2 & Ho & _ & H1 & H2 & H3 & _).
  vm_compute in Ho. injection Ho as <- <- <-.
  exists s2. split; [exact H1|]. split; [exact H2|exact H3].
Defined.

(** ** A load that binds the rendering context *)

Lemma rebind_textures_spec v ren l s :
  rebind_textures v ren l s =
    (map (fun i =>
            if img_tex i =? 0 then i
            else set_img_tex
                   (SDL_CreateTextureFromSurface v ren (img_surf i)) i) l,
     set_trace
       (trace s ++
          map (fun i => Ev_SDL_DestroyTexture (img_tex i))
              (filter (fun i => negb (img_tex i =? 0)) l)) s).
Proof.
  revert s. induction l as [|i l IH]; intros s.
  - cbn. f_equal. apply state_eq; try reflexivity.
    cbn. rewrite app_nil_r. reflexivity.
  - cbn [rebind_textures map filter].
    destruct (img_tex i =? 0) eqn:E; cbn [negb].
    + rewrite IH. reflexivity.
    + rewrite IH. f_equal. apply state_eq; try reflexivity.
      cbn [trace set_trace log map]. rewrite <- app_assoc. reflexivity.
Qed.

(** X26. A load by a thread that does not hold the rendering context
    (or before any renderer exists) binds the context first.  When SDL
    makes the context current and creates the renderer, the old renderer
    is destroyed, the new one is cleared to white, the texture of every
    loaded image is destroyed and made again from its surface, in
    registry order, and the caller becomes the thread that holds the
    context; the image is then loaded as by that thread. *)
Theorem load_from_another_thread_rebinds :
  forall (v : video) (g : gl_binding) (ren : SDL_Renderer)
         (filename : option string) (scale : float) (s : state),
    cur_gl_thread g = false \/ renderer g = None ->
    0 <= SDL_GL_MakeCurrent v ->
    SDL_CreateRenderer v = Some ren ->
    let bound := {| renderer := Some ren; cur_gl_thread := true |} in
    let remade i :=
      if img_tex i =? 0 then i
      else set_img_tex (SDL_CreateTextureFromSurface v ren (img_surf i)) i in
    let calls :=
      [Ev_SDL_GL_MakeCurrent] ++
      match renderer g with
      | Some old => [Ev_SDL_DestroyRenderer old]
      | None => []
      end ++
      [Ev_SDL_SetRenderDrawColor ren 255 255 255 255;
       Ev_SDL_RenderClear ren] ++
      map (fun i => Ev_SDL_DestroyTexture (img_tex i))
          (filter (fun i => negb (img_tex i =? 0)) (loaded_images_list s)) in
    let s' := set_loaded_images_list (map remade (loaded_images_list s))
                (set_trace (trace s ++ calls) s) in
    gfxDrawBindThread v g s = Ret (0, bound) s' /\
    gfxDrawLoadScaledImage v g filename scale s =
      gfxDrawLoadScaledImage v bound filename scale s'.
Proof.
  intros v g ren filename scale s Hg Hmc Hcr bound remade calls s'.
  assert (Hcond : negb (cur_gl_thread g) || no_renderer g = true).
  { unfold no_renderer. destruct Hg as [-> | ->]; [reflexivity|].
    apply orb_true_r. }
  assert (Hcond' : no_renderer g || negb (cur_gl_thread g) = true)
    by (rewrite orb_comm; exact Hcond).
  assert (Hbind : gfxDrawBindThread v g s = Ret (0, bound) s').
  { unfold gfxDrawBindThread. rewrite Hcond.
    destruct (Z.ltb_spec (SDL_GL_MakeCurrent v) 0) as [|_]; [lia|].
    rewrite Hcr. rewrite rebind_textures_spec.
    f_equal. subst s' calls remade.
    destruct (renderer g) as [old|];
      (apply state_eq; try reflexivity);
      cbn [trace set_trace log set_loaded_images_list loaded_images_list
           app];
      rewrite <- ?app_assoc; reflexivity. }
  split; [exact Hbind|].
  unfold gfxDrawLoadScaledImage at 1. rewrite Hcond', Hbind.
  reflexivity.
Qed.

Lemma load_from_another_thread_rebinds_witness :
  let bound := {| renderer := Some 2; cur_gl_thread := true |} in
  exists s' s1,
    gfxDrawBindThread Scenes.display Scenes.other_thread Animation.stage =
      Ret (0, bound) s' /\
    map img_tex (loaded_images_list s') = [27] /\
    trace s' = [Ev_SDL_GL_MakeCurrent; Ev_SDL_DestroyRenderer 1;
                Ev_SDL_SetRenderDrawColor 2 255 255 255 255;
                Ev_SDL_RenderClear 2; Ev_SDL_DestroyTexture 7] /\
    gfxDrawLoadImage Scenes.display Scenes.other_thread
      (Some "hero.png"%string) Animation.stage = Ret (Some 2, bound) s1 /\
    map img_tex (loaded_images_list s1) = [27; 27] /\
    trace s1 = trace s'.
Proof.
  intros bound.
  destruct (load_from_another_thread_rebinds Scenes.display
              Scenes.other_thread 2 (Some "hero.png"%string) float_one
              Animation.stage (or_introl eq_refl) ltac:(cbn; lia) eq_refl)
    as (Hbind & Hload).
  eexists _, _. split; [exact Hbind|].
  split; [vm_compute; reflexivity|]. split; [vm_compute; reflexivity|].
  unfold gfxDrawLoadImage. rewrite Hload.
  split; [vm_compute; reflexivity|].
  split; vm_compute; reflexivity.
Defined.

(** ** A loaded image between the request and the dispatch *)

Lemma unlink_update_image a l i' :
  img_addr i' = a ->
  unlink_image a (update_image i' l) = unlink_image a l.
Proof.
  intros <-. induction l as [|j l IH]; cbn; [reflexivity|].
  destruct (Z.eqb_spec (img_addr j) (img_addr i')).
  - cbn. rewrite Z.eqb_refl. reflexivity.
  - cbn. destruct (Z.eqb_spec (img_addr j) (img_addr i')); [contradiction|].
    rewrite IH. reflexivity.
Qed.

Lemma update_image_twice i1 i2 l :
  img_addr i1 = img_addr i2 ->
  update_image i2 (update_image i1 l) = update_image i2 l.
Proof.
  intros E. induction l as [|j l IH]; cbn; [reflexivity|].
  rewrite E. destruct (Z.eqb_spec (img_addr j) (img_addr i2)).
  - cbn. rewrite E, Z.eqb_refl. reflexivity.
  - cbn. destruct (Z.eqb_spec (img_addr j) (img_addr i2)); [contradiction|].
    rewrite IH. reflexivity.
Qed.

Lemma gfxDrawLoadedImage_registered s a i x y :
  find_image a (loaded_images_list s) = Some i ->
  calloc_plan s = [] ->
  gfxDrawLoadedImage (Some a) x y s =
    Ret 0
        (set_job_list
           (job_list s ++
              [{| job_type := DRAW_LOADED_IMAGE;
                  job_data :=
                    Some (U_loaded_image {| loaded_img := Some a;
                                            loaded_x := to_sshort x;
                                            loaded_y := to_sshort y |}) |}])
           (set_loaded_images_list
              (update_image
                 (set_img_counts (to_uint (img_ref_count i + 1))
                    (img_pending_free i) i)
                 (loaded_images_list s)) s)).
Proof.
  intros Hfind Hplan.
  unfold gfxDrawLoadedImage, INIT_JOB, _pushDrawJob, calloc.
  rewrite Hplan.
  cbn [bind calloc_plan set_job set_job_list job_list].
  rewrite ?Hplan.
  cbn [bind calloc_plan set_job set_job_list job_list].
  unfold get_image, load_image.
  cbn [loaded_images_list set_job set_job_list]. rewrite Hfind. cbn [bind].
  f_equal. unfold write_job, set_job, store_image.
  cbn [job_list set_job_list set_loaded_images_list loaded_images_list].
  rewrite !update_last_app.
  apply state_eq; reflexivity.
Qed.

Lemma loaded_image_job_dispatch s a i x y :
  find_image a (loaded_images_list s) = Some i ->
  let e := Ev_drawLoadedImage (img_tex i)
             (add_offset x (offset_x (global_offset s)))
             (add_offset y (offset_y (global_offset s)))
             (img_w i) (img_h i) (img_scale i) in
  vHandleDrawJob
    (Some {| job_type := DRAW_LOADED_IMAGE;
             job_data := Some (U_loaded_image {| loaded_img := Some a;
                                                 loaded_x := x;
                                                 loaded_y := y |}) |}) s =
    call _u, s2 <- vPutLoadedImage (Some a) (log e s) ;;
    Ret (render_rc (env s) e) s2.
Proof.
  intros Hfind e. unfold vHandleDrawJob.
  cbn [job_data job_type loaded_img loaded_x loaded_y].
  unfold xDrawLoadedImage, load_image. rewrite Hfind. cbn [bind].
  reflexivity.
Qed.

(** X17. Deferred release of an image: when [gfxDrawFreeLoadedImage] is
    called on an image that a queued job still holds, nothing is released
    and the caller's handle stays set; the drain draws the image and
    releases it right after that, so that the registry no longer knows
    the handle. *)
Theorem queued_image_is_released_after_its_draw :
  forall (s : state) (a : addr) (i : loaded_image_t) (x y : Z),
    find_image a (loaded_images_list s) = Some i ->
    img_ref_count i = 0 ->
    NoDup (map img_addr (loaded_images_list s)) ->
    job_list s = [] ->
    calloc_plan s = [] ->
    is_cur_gl_thread (env s) = true ->
    frame_period_elapsed (env s) = true ->
    let e := Ev_drawLoadedImage (img_tex i)
               (shifted x (offset_x (global_offset s)))
               (shifted y (offset_y (global_offset s)))
               (img_w i) (img_h i) (img_scale i) in
    let failed := render_rc (env s) e =? -1 in
    exists s1 s2 s3,
      gfxDrawLoadedImage (Some a) x y s = Ret 0 s1 /\
      gfxDrawFreeLoadedImage (Some a) s1 = Ret (0, Some a) s2 /\
      trace s2 = trace s /\
      find_image a (loaded_images_list s2) = Some (set_img_counts 1 1 i) /\
      gfxDrawUpdateScreen s2 = Ret (if failed then -1 else 0) s3 /\
      trace s3 =
        trace s ++
          [e; Ev_SDL_FreeSurface (img_surf i); Ev_SDL_RWclose (img_ops i);
           Ev_SDL_DestroyTexture (img_tex i)] ++
          (if failed then [] else [Ev_RenderPresent]) /\
      loaded_images_list s3 = unlink_image a (loaded_images_list s) /\
      find_image a (loaded_images_list s3) = None /\
      job_list s3 = [].
Proof.
  intros s a i x y Hfind Hrc Hnd Hq Hplan Hgl Hfps e failed.
  pose proof (find_image_addr _ _ _ Hfind) as Ha.
  set (job := {| job_type := DRAW_LOADED_IMAGE;
                 job_data :=
                   Some (U_loaded_image {| loaded_img := Some a;
                                           loaded_x := to_sshort x;
                                           loaded_y := to_sshort y |}) |}).
  set (i1 := set_img_counts 1 (img_pending_free i) i).
  set (i2 := set_img_counts 1 1 i).
  set (l := loaded_images_list s) in *.
  set (s1 := set_job_list [job] (set_loaded_images_list (update_image i1 l) s)).
  set (s2 := set_job_list [job] (set_loaded_images_list (update_image i2 l) s)).
  assert (Hf1 : find_image a (update_image i1 l) = Some i1)
    by (apply (find_update_image a _ i i1 Hfind); exact Ha).
  assert (Hf2 : find_image a (update_image i2 l) = Some i2)
    by (apply (find_update_image a _ i i2 Hfind); exact Ha).
  set (s3 := free_node a
               (log (Ev_SDL_DestroyTexture (img_tex i))
                  (log (Ev_SDL_RWclose (img_ops i))
                     (log (Ev_SDL_FreeSurface (img_surf i))
                        (set_loaded_images_list (unlink_image a l)
                           (log e (set_job_list [] s2))))))).
  exists s1, s2, (if failed then s3 else log Ev_RenderPresent s3).
  split.
  { rewrite (gfxDrawLoadedImage_registered s a i x y Hfind Hplan).
    rewrite Hq, Hrc. reflexivity. }
  split.
  { unfold gfxDrawFreeLoadedImage, load_image, bind.
    change (loaded_images_list s1) with (update_image i1 l).
    rewrite Hf1. change (img_ref_count i1 =? 0) with false. cbn iota.
    f_equal. apply state_eq; try reflexivity.
    unfold store_image.
    change (loaded_images_list s1) with (update_image i1 l).
    cbn [loaded_images_list set_loaded_images_list].
    rewrite update_image_twice by reflexivity. reflexivity. }
  split; [reflexivity|].
  split; [exact Hf2|].
  unfold gfxDrawUpdateScreen.
  change (env s2) with (env s). rewrite Hgl, Hfps.
  change (_waitingDrawJobs s2) with 1.
  change (job_list s2) with [job].
  cbn [negb Z.eqb List.length drain].
  unfold popDrawJob at 1. change (job_list s2) with [job].
  cbn [job_data job bind].
  set (s2' := set_job_list [] s2).
  assert (Hf2' : find_image a (loaded_images_list s2') = Some i2)
    by exact Hf2.
  unfold job.
  rewrite (loaded_image_job_dispatch s2' a i2 (to_sshort x) (to_sshort y)
             Hf2').
  cbn zeta.
  change (global_offset s2') with (global_offset s).
  change (env s2') with (env s).
  change (img_tex i2) with (img_tex i).
  change (img_w i2) with (img_w i).
  change (img_h i2) with (img_h i).
  change (img_scale i2) with (img_scale i).
  change (add_offset (to_sshort x) (offset_x (global_offset s)))
    with (shifted x (offset_x (global_offset s))).
  change (add_offset (to_sshort y) (offset_y (global_offset s)))
    with (shifted y (offset_y (global_offset s))).
  fold e.
  assert (Hf2e : find_image a (loaded_images_list (log e s2')) = Some i2)
    by exact Hf2.
  rewrite (vPutLoadedImage_spec (log e s2') a i2 Hf2e).
  cbn zeta.
  change (negb (img_pending_free i2 =? 0) &&
          (to_uint (img_ref_count i2 - 1) =? 0)) with true.
  cbn iota. cbn [bind]. fold failed.
  assert (Hun : unlink_image a
                  (update_image
                     (set_img_counts (to_uint (img_ref_count i2 - 1))
                        (img_pending_free i2) i2)
                     (loaded_images_list (log e s2'))) =
                unlink_image a l).
  { change (loaded_images_list (log e s2')) with (update_image i2 l).
    rewrite !unlink_update_image by exact Ha. reflexivity. }
  rewrite Hun.
  change (free_node a _) with s3.
  assert (Htr3 : trace s3 =
                 trace s ++ [e; Ev_SDL_FreeSurface (img_surf i);
                             Ev_SDL_RWclose (img_ops i);
                             Ev_SDL_DestroyTexture (img_tex i)]).
  { change (trace s3) with
      ((((trace s ++ [e]) ++ [Ev_SDL_FreeSurface (img_surf i)])
        ++ [Ev_SDL_RWclose (img_ops i)])
       ++ [Ev_SDL_DestroyTexture (img_tex i)]).
    rewrite <- !app_assoc. reflexivity. }
  assert (Hl3 : loaded_images_list s3 = unlink_image a l) by reflexivity.
  assert (Hq3 : job_list s3 = []) by reflexivity.
  assert (HfindN : find_image a (loaded_images_list s3) = None)
    by (rewrite Hl3; apply find_unlink_image; exact Hnd).
  assert (HtrF : trace s3 =
                 trace s ++ [e; Ev_SDL_FreeSurface (img_surf i);
                             Ev_SDL_RWclose (img_ops i);
                             Ev_SDL_DestroyTexture (img_tex i)] ++ [])
    by (rewrite Htr3, app_nil_r; reflexivity).
  assert (HtrP : trace (log Ev_RenderPresent s3) =
                 trace s ++ [e; Ev_SDL_FreeSurface (img_surf i);
                             Ev_SDL_RWclose (img_ops i);
                             Ev_SDL_DestroyTexture (img_tex i)]
                   ++ [Ev_RenderPresent]).
  { change (trace (log Ev_RenderPresent s3))
      with (trace s3 ++ [Ev_RenderPresent]).
    rewrite Htr3, <- !app_assoc. reflexivity. }
  destruct failed.
  - split; [reflexivity|]. split; [exact HtrF|].
    split; [exact Hl3|]. split; [exact HfindN|exact Hq3].
  - cbn [drain]. unfold popDrawJob. rewrite Hq3.
    split; [reflexivity|]. split; [exact HtrP|].
    split; [exact Hl3|]. split; [exact HfindN|exact Hq3].
Qed.

Lemma queued_image_is_released_after_its_draw_witness :
  exists s1 s2 s3,
    gfxDrawLoadedImage (Some 1) 10 20 Animation.stage = Ret 0 s1 /\
    gfxDrawFreeLoadedImage (Some 1) s1 = Ret (0, Some 1) s2 /\
    loaded_images_list s2 = [set_img_counts 1 1 Animation.hero] /\
    gfxDrawUpdateScreen s2 = Ret 0 s3 /\
    trace s3 = [Ev_drawLoadedImage 7 10 20 128 32 float_one;
                Ev_SDL_FreeSurface 9; Ev_SDL_RWclose 8;
                Ev_SDL_DestroyTexture 7; Ev_RenderPresent] /\
    loaded_images_list s3 = [].
Proof.
  destruct (queued_image_is_released_after_its_draw Animation.stage 1
              Animation.hero 10 20 eq_refl eq_refl
              ltac:(vm_compute; repeat constructor; intros [])
              eq_refl eq_refl eq_refl eq_refl)
    as (s1 & s2 & s3 & H1 & H2 & _ & _ & H5 & H6 & H7 & _).
  exists s1, s2, s3.
  split; [exact H1|]. split; [exact H2|].
  split.
  { vm_compute in H1. injection H1 as <-.
    vm_compute in H2. injection H2 as <-. reflexivity. }
  split; [exact H5|]. split; [exact H6|exact H7].
Defined.

(** X18. The scale of a loaded image is read when the job is dispatched,
    not when it is requested: a scale set between the request and the
    drain is the one the image is drawn with, and
    [gfxDrawGetLoadedImageScale] reads back what was set.  After the
    drain the image is registered with the reference count it had before
    the request. *)
Theorem image_scale_is_read_at_dispatch :
  forall (s : state) (a : addr) (i : loaded_image_t) (x y : Z)
         (scale : float),
    find_image a (loaded_images_list s) = Some i ->
    0 <= img_ref_count i < 2 ^ 32 ->
    img_pending_free i = 0 ->
    job_list s = [] ->
    calloc_plan s = [] ->
    is_cur_gl_thread (env s) = true ->
    frame_period_elapsed (env s) = true ->
    let e := Ev_drawLoadedImage (img_tex i)
               (shifted x (offset_x (global_offset s)))
               (shifted y (offset_y (global_offset s)))
               (img_w i) (img_h i) scale in
    let failed := render_rc (env s) e =? -1 in
    exists s1 s2 s3,
      gfxDrawLoadedImage (Some a) x y s = Ret 0 s1 /\
      gfxDrawSetLoadedImageScale (Some a) scale s1 = Ret 0 s2 /\
      gfxDrawGetLoadedImageScale (Some a) s2 = Ret scale s2 /\
      gfxDrawUpdateScreen s2 = Ret (if failed then -1 else 0) s3 /\
      trace s3 =
        trace s ++ [e] ++ (if failed then [] else [Ev_RenderPresent]) /\
      loaded_images_list s3 =
        update_image (set_img_scale scale i) (loaded_images_list s) /\
      job_list s3 = [].
Proof.
  intros s a i x y scale Hfind Hrc Hpf Hq Hplan Hgl Hfps e failed.
  pose proof (find_image_addr _ _ _ Hfind) as Ha.
  set (job := {| job_type := DRAW_LOADED_IMAGE;
                 job_data :=
                   Some (U_loaded_image {| loaded_img := Some a;
                                           loaded_x := to_sshort x;
                                           loaded_y := to_sshort y |}) |}).
  set (i1 := set_img_counts (to_uint (img_ref_count i + 1))
                            (img_pending_free i) i).
  set (i2 := set_img_scale scale i1).
  set (i3 := set_img_scale scale i).
  set (l := loaded_images_list s) in *.
  set (s1 := set_job_list [job]
               (set_loaded_images_list (update_image i1 l) s)).
  set (s2 := set_job_list [job]
               (set_loaded_images_list (update_image i2 l) s)).
  set (s3 := set_loaded_images_list (update_image i3 l)
               (log e (set_job_list [] s2))).
  assert (Hf1 : find_image a (update_image i1 l) = Some i1)
    by (apply (find_update_image a _ i i1 Hfind); exact Ha).
  assert (Hf2 : find_image a (update_image i2 l) = Some i2)
    by (apply (find_update_image a _ i i2 Hfind); exact Ha).
  exists s1, s2, (if failed then s3 else log Ev_RenderPresent s3).
  split.
  { rewrite (gfxDrawLoadedImage_registered s a i x y Hfind Hplan).
    rewrite Hq. reflexivity. }
  split.
  { unfold gfxDrawSetLoadedImageScale, load_image, bind.
    change (loaded_images_list s1) with (update_image i1 l).
    rewrite Hf1. f_equal. apply state_eq; try reflexivity.
    unfold store_image.
    change (loaded_images_list s1) with (update_image i1 l).
    cbn [loaded_images_list set_loaded_images_list].
    rewrite update_image_twice by reflexivity. reflexivity. }
  split.
  { unfold gfxDrawGetLoadedImageScale, load_image, bind.
    change (loaded_images_list s2) with (update_image i2 l).
    rewrite Hf2. reflexivity. }
  unfold gfxDrawUpdateScreen.
  change (env s2) with (env s). rewrite Hgl, Hfps.
  change (_waitingDrawJobs s2) with 1.
  change (job_list s2) with [job].
  cbn [negb Z.eqb List.length drain].
  unfold popDrawJob at 1. change (job_list s2) with [job].
  cbn [job_data job bind].
  set (s2' := set_job_list [] s2).
  assert (Hf2' : find_image a (loaded_images_list s2') = Some i2)
    by exact Hf2.
  unfold job.
  rewrite (loaded_image_job_dispatch s2' a i2 (to_sshort x) (to_sshort y)
             Hf2').
  cbn zeta.
  change (global_offset s2') with (global_offset s).
  change (env s2') with (env s).
  change (img_tex i2) with (img_tex i).
  change (img_w i2) with (img_w i).
  change (img_h i2) with (img_h i).
  change (img_scale i2) with scale.
  change (add_offset (to_sshort x) (offset_x (global_offset s)))
    with (shifted x (offset_x (global_offset s))).
  change (add_offset (to_sshort y) (offset_y (global_offset s)))
    with (shifted y (offset_y (global_offset s))).
  fold e.
  assert (Hf2e : find_image a (loaded_images_list (log e s2')) = Some i2)
    by exact Hf2.
  rewrite (vPutLoadedImage_spec (log e s2') a i2 Hf2e).
  cbn zeta.
  change (img_pending_free i2) with (img_pending_free i).
  rewrite Hpf. cbn [Z.eqb negb andb bind]. fold failed.
  assert (Hi3 : set_img_counts (to_uint (img_ref_count i2 - 1)) 0 i2 = i3).
  { subst i3 i2 i1. destruct i as [ad fn tx op sf w h sc rc pf].
    cbn [img_ref_count] in Hrc. cbn [img_pending_free] in Hpf.
    rewrite <- Hpf at 1.
    unfold set_img_scale, set_img_counts.
    cbn [img_addr img_filename img_tex img_ops img_surf img_w img_h
         img_scale img_ref_count img_pending_free].
    assert (E : to_uint (to_uint (rc + 1) - 1) = rc)
      by (unfold to_uint; Z.div_mod_to_equations; lia).
    rewrite E. reflexivity. }
  rewrite Hi3.
  assert (Hl3 : update_image i3 (loaded_images_list (log e s2')) =
                update_image i3 l).
  { change (loaded_images_list (log e s2')) with (update_image i2 l).
    apply update_image_twice. reflexivity. }
  rewrite Hl3. change (set_loaded_images_list _ (log e s2')) with s3.
  destruct failed.
  - split; [reflexivity|]. split; [|split; reflexivity].
    rewrite app_nil_r. reflexivity.
  - cbn [drain]. unfold popDrawJob. change (job_list s3) with (@nil draw_job_t).
    split; [reflexivity|]. split; [|split; reflexivity].
    change (trace (log Ev_RenderPresent s3))
      with ((trace s ++ [e]) ++ [Ev_RenderPresent]).
    rewrite <- app_assoc. reflexivity.
Qed.

Lemma image_scale_is_read_at_dispatch_witness :
  exists s1 s2 s3,
    gfxDrawLoadedImage (Some 1) 10 20 Animation.stage = Ret 0 s1 /\
    gfxDrawSetLoadedImageScale (Some 1) 0x40000000 s1 = Ret 0 s2 /\
    gfxDrawUpdateScreen s2 = Ret 0 s3 /\
    trace s3 = [Ev_drawLoadedImage 7 10 20 128 32 0x40000000;
                Ev_RenderPresent] /\
    map img_ref_count (loaded_images_list s3) = [0].
Proof.
  destruct (image_scale_is_read_at_dispatch Animation.stage 1
              Animation.hero 10 20 0x40000000 eq_refl
              ltac:(cbn; lia) eq_refl eq_refl eq_refl eq_refl eq_refl)
    as (s1 & s2 & s3 & H1 & H2 & _ & H4 & H5 & H6 & _).
  exists s1, s2, s3.
  split; [exact H1|]. split; [exact H2|]. split; [exact H4|].
  split; [exact H5|]. rewrite H6. reflexivity.
Defined.

(** ** Sprite sheets made from the sprite size *)

Lemma cell_of_padded_box C sw px :
  1 <= C -> (C * sw + (C - 1) * px * 2 - px * (C - 1) * 2) / C = sw.
Proof.
  intros HC. replace (C * sw + (C - 1) * px * 2 - px * (C - 1) * 2)
    with (sw * C) by ring.
  apply Z.div_mul. lia.
Qed.

Lemma cell_of_spaced_box C sw sp :
  1 <= C -> 0 <= sp ->
  (C * sw + (C - 1) * sp - sp / 2 * (C - 1) * 2) / C = sw.
Proof.
  intros HC Hsp.
  pose proof (Z.div_mod sp 2 ltac:(lia)) as Hdm.
  pose proof (Z.mod_pos_bound sp 2 ltac:(lia)) as Hr.
  symmetry. apply Z.div_unique with (r := (C - 1) * (sp mod 2)).
  - left. nia.
  - nia.
Qed.

Lemma load_spritesheet_registered s a i configure :
  find_image a (loaded_images_list s) = Some i ->
  calloc_plan s = [] ->
  load_spritesheet (Some a) configure s =
    match configure {| sheet_image := a; sheet_x := 0; sheet_y := 0;
                       sheet_width := to_uint (img_w i);
                       sheet_height := to_uint (img_h i);
                       sprite_width := 0; sprite_height := 0;
                       sprite_cols := 0; sprite_rows := 0;
                       padding_x := 0; padding_y := 0 |} with
    | None => Fault DivisionByZero
    | Some sh => Ret (Some sh) s
    end.
Proof.
  intros Hfind Hplan.
  unfold load_spritesheet, gfxDrawInitSpritesheet, calloc, load_image.
  rewrite Hplan. cbn [bind]. rewrite Hfind. cbn [bind]. reflexivity.
Qed.

(** X19. A sheet made by [gfxDrawLoadSpritesheetFromPortionOfImagePadded]
    from the size of one sprite gets exactly that sprite size back from
    the division of its bounding box, for every padding; the box starts
    at the pixel given and spans the sprites and the padding between
    them. *)
Theorem padded_portion_sheet_has_the_sprite_size :
  forall (s : state) (a : addr) (i : loaded_image_t)
         (cols rows w h px py bx by_ : Z),
    find_image a (loaded_images_list s) = Some i ->
    calloc_plan s = [] ->
    1 <= cols < 2 ^ 32 -> 1 <= rows < 2 ^ 32 ->
    0 <= w -> 0 <= h -> 0 <= px < 2 ^ 32 -> 0 <= py < 2 ^ 32 ->
    0 <= bx < 2 ^ 32 -> 0 <= by_ < 2 ^ 32 ->
    cols * w + (cols - 1) * px * 2 < 2 ^ 32 ->
    rows * h + (rows - 1) * py * 2 < 2 ^ 32 ->
    gfxDrawLoadSpritesheetFromPortionOfImagePadded (Some a) cols rows w h
      px py bx by_ s =
      Ret (Some {| sheet_image := a; sheet_x := bx; sheet_y := by_;
                   sheet_width := cols * w + (cols - 1) * px * 2;
                   sheet_height := rows * h + (rows - 1) * py * 2;
                   sprite_width := w; sprite_height := h;
                   sprite_cols := cols; sprite_rows := rows;
                   padding_x := px; padding_y := py |}) s.
Proof.
  intros s a i cols rows w h px py bx by_ Hfind Hplan Hc Hr Hw Hh Hpx Hpy
    Hbx Hby HW HH.
  unfold gfxDrawLoadSpritesheetFromPortionOfImagePadded.
  rewrite (load_spritesheet_registered s a i _ Hfind Hplan).
  assert (Bc : 0 <= cols < 2 ^ 32) by lia.
  assert (Br : 0 <= rows < 2 ^ 32) by lia.
  assert (Bw : 0 <= w < 2 ^ 32) by nia.
  assert (Bh : 0 <= h < 2 ^ 32) by nia.
  unfold gfxDrawSpritesheetSetDivisions, gfxDrawSpritesheetSetPadding,
    gfxDrawSpritesheetSetBoundingBox.
  cbn [sheet_image sheet_x sheet_y sheet_width sheet_height sprite_width
       sprite_height sprite_cols sprite_rows padding_x padding_y].
  unfold uint_add, uint_sub, uint_mul.
  rewrite !(to_uint_id cols), !(to_uint_id rows), !(to_uint_id w),
    !(to_uint_id h), !(to_uint_id px), !(to_uint_id py), !(to_uint_id bx),
    !(to_uint_id by_) by assumption.
  rewrite (to_uint_id (cols - 1)), (to_uint_id (rows - 1)) by lia.
  rewrite (to_uint_id (cols * w)), (to_uint_id (rows * h)) by nia.
  rewrite (to_uint_id ((cols - 1) * px)), (to_uint_id ((rows - 1) * py))
    by nia.
  rewrite (to_uint_id ((cols - 1) * px * 2)),
    (to_uint_id ((rows - 1) * py * 2)) by nia.
  rewrite !(to_uint_id (cols * w + (cols - 1) * px * 2)),
    !(to_uint_id (rows * h + (rows - 1) * py * 2)) by nia.
  rewrite (to_uint_id (px * (cols - 1))), (to_uint_id (py * (rows - 1)))
    by nia.
  rewrite (to_uint_id (px * (cols - 1) * 2)),
    (to_uint_id (py * (rows - 1) * 2)) by nia.
  rewrite (to_uint_id (cols * w + (cols - 1) * px * 2 - px * (cols - 1) * 2)),
    (to_uint_id (rows * h + (rows - 1) * py * 2 - py * (rows - 1) * 2))
    by nia.
  rewrite !cell_of_padded_box by lia.
  destruct (Z.eqb_spec cols 0); [lia|].
  destruct (Z.eqb_spec rows 0); [lia|].
  reflexivity.
Qed.

Lemma padded_portion_sheet_has_the_sprite_size_witness :
  gfxDrawLoadSpritesheetFromPortionOfImagePadded (Some 1) 3 1 32 32 5 0 10 0
    Animation.stage =
    Ret (Some {| sheet_image := 1; sheet_x := 10; sheet_y := 0;
                 sheet_width := 116; sheet_height := 32;
                 sprite_width := 32; sprite_height := 32;
                 sprite_cols := 3; sprite_rows := 1;
                 padding_x := 5; padding_y := 0 |}) Animation.stage.
Proof.
  exact (padded_portion_sheet_has_the_sprite_size Animation.stage 1
           Animation.hero 3 1 32 32 5 0 10 0 eq_refl eq_refl
           ltac:(lia) ltac:(lia) ltac:(lia) ltac:(lia) ltac:(lia) ltac:(lia)
           ltac:(lia) ltac:(lia) ltac:(lia) ltac:(lia)).
Defined.

(** X20. The same for [gfxDrawLoadSpritesheetFromPortionOfImagePaddedSpacing],
    which is given the gap between two sprites: the padding is half the
    gap, rounded down, and the sprite size still comes back exactly, also
    for an odd gap. *)
Theorem spaced_portion_sheet_has_the_sprite_size :
  forall (s : state) (a : addr) (i : loaded_image_t)
         (cols rows w h sx sy bx by_ : Z),
    find_image a (loaded_images_list s) = Some i ->
    calloc_plan s = [] ->
    1 <= cols < 2 ^ 32 -> 1 <= rows < 2 ^ 32 ->
    0 <= w -> 0 <= h -> 0 <= sx < 2 ^ 32 -> 0 <= sy < 2 ^ 32 ->
    0 <= bx < 2 ^ 32 -> 0 <= by_ < 2 ^ 32 ->
    cols * w + (cols - 1) * sx < 2 ^ 32 ->
    rows * h + (rows - 1) * sy < 2 ^ 32 ->
    gfxDrawLoadSpritesheetFromPortionOfImagePaddedSpacing (Some a) cols rows
      w h sx sy bx by_ s =
      Ret (Some {| sheet_image := a; sheet_x := bx; sheet_y := by_;
                   sheet_width := cols * w + (cols - 1) * sx;
                   sheet_height := rows * h + (rows - 1) * sy;
                   sprite_width := w; sprite_height := h;
                   sprite_cols := cols; sprite_rows := rows;
                   padding_x := sx / 2; padding_y := sy / 2 |}) s.
Proof.
  intros s a i cols rows w h sx sy bx by_ Hfind Hplan Hc Hr Hw Hh Hsx Hsy
    Hbx Hby HW HH.
  unfold gfxDrawLoadSpritesheetFromPortionOfImagePaddedSpacing.
  rewrite (load_spritesheet_registered s a i _ Hfind Hplan).
  assert (Bc : 0 <= cols < 2 ^ 32) by lia.
  assert (Br : 0 <= rows < 2 ^ 32) by lia.
  assert (Bw : 0 <= w < 2 ^ 32) by nia.
  assert (Bh : 0 <= h < 2 ^ 32) by nia.
  assert (Bpx : 0 <= sx / 2 < 2 ^ 32)
    by (split; [apply Z.div_pos; lia|apply Z.div_lt_upper_bound; lia]).
  assert (Bpy : 0 <= sy / 2 < 2 ^ 32)
    by (split; [apply Z.div_pos; lia|apply Z.div_lt_upper_bound; lia]).
  assert (Hpx2 : sx / 2 * 2 <= sx)
    by (pose proof (Z.mul_div_le sx 2 ltac:(lia)); lia).
  assert (Hpy2 : sy / 2 * 2 <= sy)
    by (pose proof (Z.mul_div_le sy 2 ltac:(lia)); lia).
  unfold gfxDrawSpritesheetSetDivisions, gfxDrawSpritesheetSetPadding,
    gfxDrawSpritesheetSetBoundingBox.
  cbn [sheet_image sheet_x sheet_y sheet_width sheet_height sprite_width
       sprite_height sprite_cols sprite_rows padding_x padding_y].
  unfold uint_add, uint_sub, uint_mul.
  rewrite !(to_uint_id cols), !(to_uint_id rows), !(to_uint_id w),
    !(to_uint_id h), !(to_uint_id sx), !(to_uint_id sy), !(to_uint_id bx),
    !(to_uint_id by_) by assumption.
  rewrite !(to_uint_id (sx / 2)), !(to_uint_id (sy / 2)) by assumption.
  rewrite (to_uint_id (cols - 1)), (to_uint_id (rows - 1)) by lia.
  rewrite (to_uint_id (cols * w)), (to_uint_id (rows * h)) by nia.
  rewrite (to_uint_id ((cols - 1) * sx)), (to_uint_id ((rows - 1) * sy))
    by nia.
  rewrite !(to_uint_id (cols * w + (cols - 1) * sx)),
    !(to_uint_id (rows * h + (rows - 1) * sy)) by nia.
  rewrite (to_uint_id (sx / 2 * (cols - 1))),
    (to_uint_id (sy / 2 * (rows - 1))) by nia.
  rewrite (to_uint_id (sx / 2 * (cols - 1) * 2)),
    (to_uint_id (sy / 2 * (rows - 1) * 2)) by nia.
  rewrite (to_uint_id (cols * w + (cols - 1) * sx - sx / 2 * (cols - 1) * 2)),
    (to_uint_id (rows * h + (rows - 1) * sy - sy / 2 * (rows - 1) * 2))
    by nia.
  rewrite !cell_of_spaced_box by lia.
  destruct (Z.eqb_spec cols 0); [lia|].
  destruct (Z.eqb_spec rows 0); [lia|].
  reflexivity.
Qed.

Lemma spaced_portion_sheet_has_the_sprite_size_witness :
  gfxDrawLoadSpritesheetFromPortionOfImagePaddedSpacing (Some 1) 3 1 32 32
    5 0 10 0 Animation.stage =
    Ret (Some {| sheet_image := 1; sheet_x := 10; sheet_y := 0;
                 sheet_width := 106; sheet_height := 32;
                 sprite_width := 32; sprite_height := 32;
                 sprite_cols := 3; sprite_rows := 1;
                 padding_x := 2; padding_y := 0 |}) Animation.stage.
Proof.
  exact (spaced_portion_sheet_has_the_sprite_size Animation.stage 1
           Animation.hero 3 1 32 32 5 0 10 0 eq_refl eq_refl
           ltac:(lia) ltac:(lia) ltac:(lia) ltac:(lia) ltac:(lia) ltac:(lia)
           ltac:(lia) ltac:(lia) ltac:(lia) ltac:(lia)).
Defined.

(** ** Cells of a sheet without padding *)

Lemma to_schar_id z : - 2 ^ 7 <= z < 2 ^ 7 -> to_schar z = z.
Proof. intros H. unfold to_schar. rewrite Z.mod_small; lia. Qed.

Lemma sprite_origin_unpadded size index :
  0 <= index -> 0 <= size -> index * size < 2 ^ 31 ->
  sprite_origin size 0 index = index * size.
Proof.
  intros Hi Hs Hb. unfold sprite_origin, uint_add, uint_mul.
  change (0 * 2) with 0. rewrite (to_uint_id 0) by lia.
  rewrite !Z.add_0_r.
  assert (E : to_uint (to_uint index * to_uint size) = index * size).
  { unfold to_uint. rewrite <- Z.mul_mod by lia.
    apply Z.mod_small. nia. }
  rewrite E. rewrite (to_uint_id (index * size)) by nia.
  apply to_int_id. nia.
Qed.

(** X21. On a sheet without padding whose bounding box starts at the
    origin of the image and holds the grid, [gfxDrawSprite] of a cell of
    the grid queues one job that crops the cell at
    [(column * sprite_width, row * sprite_height)], and the whole cell
    lies inside the box. *)
Theorem unpadded_cell_lies_inside_the_box :
  forall (s : state) (sh : spritesheet_t) (i : loaded_image_t)
         (column row x y : Z),
    sheet_x sh = 0 -> sheet_y sh = 0 ->
    padding_x sh = 0 -> padding_y sh = 0 ->
    0 <= sprite_width sh -> 0 <= sprite_height sh ->
    sprite_cols sh * sprite_width sh <= sheet_width sh < 2 ^ 31 ->
    sprite_rows sh * sprite_height sh <= sheet_height sh < 2 ^ 31 ->
    0 <= column < sprite_cols sh -> column < 2 ^ 7 ->
    0 <= row < sprite_rows sh -> row < 2 ^ 7 ->
    find_image (sheet_image sh) (loaded_images_list s) = Some i ->
    calloc_plan s = [] ->
    exists s1 c_x c_y,
      gfxDrawSprite (Some sh) column row x y s = Ret 0 s1 /\
      job_list s1 =
        job_list s ++
          [{| job_type := DRAW_LOADED_IMAGE_CROP;
              job_data :=
                Some (U_loaded_image_crop
                        {| crop_image := Some (sheet_image sh);
                           crop_x := to_sshort x; crop_y := to_sshort y;
                           crop_c_x := c_x; crop_c_y := c_y;
                           crop_c_w := sprite_width sh;
                           crop_c_h := sprite_height sh |}) |}] /\
      c_x = column * sprite_width sh /\
      c_y = row * sprite_height sh /\
      sheet_x sh <= c_x /\
      c_x + sprite_width sh <= sheet_x sh + sheet_width sh /\
      sheet_y sh <= c_y /\
      c_y + sprite_height sh <= sheet_y sh + sheet_height sh.
Proof.
  intros s sh i column row x y Hx0 Hy0 Hpx Hpy Hsw Hsh HW HH Hcol Hcol7
    Hrow Hrow7 Hfind Hplan.
  assert (Bx : column * sprite_width sh + sprite_width sh
               <= sheet_width sh) by nia.
  assert (By : row * sprite_height sh + sprite_height sh
               <= sheet_height sh) by nia.
  assert (Bx0 : 0 <= column * sprite_width sh) by nia.
  assert (By0 : 0 <= row * sprite_height sh) by nia.
  unfold gfxDrawSprite.
  rewrite (to_schar_id column), (to_schar_id row) by lia.
  destruct (Z.ltb_spec column 0); [lia|].
  destruct (Z.ltb_spec row 0); [lia|].
  rewrite (to_uint_id column), (to_uint_id row) by lia.
  destruct (Z.gtb_spec column (sprite_cols sh)); [lia|].
  destruct (Z.gtb_spec row (sprite_rows sh)); [lia|].
  cbn [orb].
  unfold INIT_JOB, _pushDrawJob, calloc. rewrite Hplan.
  cbn [bind calloc_plan set_job set_job_list job_list].
  rewrite ?Hplan.
  cbn [bind calloc_plan set_job set_job_list job_list].
  unfold get_image, load_image.
  cbn [loaded_images_list set_job set_job_list]. rewrite Hfind. cbn [bind].
  rewrite Hpx, Hpy.
  rewrite !sprite_origin_unpadded by lia.
  rewrite (to_int_id (sprite_width sh)), (to_int_id (sprite_height sh))
    by nia.
  do 3 eexists. split; [reflexivity|].
  split.
  { unfold write_job, set_job, store_image.
    cbn [job_list set_job_list set_loaded_images_list].
    rewrite !update_last_app. reflexivity. }
  repeat split; lia.
Qed.

Lemma unpadded_cell_lies_inside_the_box_witness :
  exists s1,
    gfxDrawSprite (Some Animation.sheet) 3 0 10 20 Animation.stage =
      Ret 0 s1 /\
    job_list s1 =
      [{| job_type := DRAW_LOADED_IMAGE_CROP;
          job_data :=
            Some (U_loaded_image_crop
                    {| crop_image := Some 1; crop_x := 10; crop_y := 20;
                       crop_c_x := 96; crop_c_y := 0;
                       crop_c_w := 32; crop_c_h := 32 |}) |}].
Proof.
  destruct (unpadded_cell_lies_inside_the_box Animation.stage
              Animation.sheet Animation.hero 3 0 10 20 eq_refl eq_refl
              eq_refl eq_refl
              ltac:(cbn; lia) ltac:(cbn; lia) ltac:(cbn; lia)
              ltac:(cbn; lia) ltac:(cbn; lia) ltac:(lia) ltac:(cbn; lia)
              ltac:(lia) eq_refl eq_refl)
    as (s1 & c_x & c_y & H1 & H2 & -> & -> & _).
  exists s1. split; [exact H1|exact H2].
Defined.

(** ** The same cell drawn as a sprite and as a frame *)

Lemma sprite_origin_value size padding index :
  0 <= index < 2 ^ 32 -> 0 <= size -> 0 <= padding ->
  (index + 1) * (size + 2 * padding) < 2 ^ 31 ->
  sprite_origin size padding index = index * (size + 2 * padding) + padding.
Proof.
  intros Hi Hs Hp Hb. unfold sprite_origin, uint_add, uint_mul.
  assert (0 <= index * (size + 2 * padding)) by nia.
  rewrite (to_uint_id index) by lia.
  rewrite (to_uint_id (padding * 2)) by nia.
  rewrite (to_uint_id (size + padding * 2)) by nia.
  rewrite (to_uint_id (index * (size + padding * 2))) by nia.
  rewrite (to_uint_id (index * (size + padding * 2) + padding)) by nia.
  rewrite to_int_id by nia. ring.
Qed.

(** X27. The two ways to draw a cell of a sheet crop different parts
    of the image.  For the cell [(column, row)], [gfxDrawSprite] crops
    from [(column * stride_x + padding_x, row * stride_y + padding_y)]:
    it steps one padding into the cell and takes no account of where the
    bounding box starts.  [gfxDrawAnimationDrawFrame], for the first
    frame of a horizontal sequence that starts at this cell, crops from
    [(x + column * stride_x, y + row * stride_y)], [(x, y)] being the
    origin of the box. *)
Theorem sprite_and_animation_crops_differ :
  forall (s : state) (sh : spritesheet_t) (i : loaded_image_t)
         (seqs : list spritesheet_sequence_t) (name : string)
         (period frames column row x y : Z),
    let stride_x := sprite_width sh + 2 * padding_x sh in
    let stride_y := sprite_height sh + 2 * padding_y sh in
    let anim :=
      {| frame_period_ms := period; current_frame := 0;
         prev_frame_timestamp := 0; cur_frame_timestamp := 0;
         inst_image := {| anim_spritesheet := sh;
                          anim_sequences := seqs |};
         inst_sequence :=
           {| seq_name := name; seq_start_row := row;
              seq_start_col := column;
              seq_direction := SPRITE_SEQUENCE_HORIZONTAL_POS;
              seq_frames := frames |} |} in
    find_image (sheet_image sh) (loaded_images_list s) = Some i ->
    calloc_plan s = [] ->
    0 <= sprite_width sh -> 0 <= sprite_height sh ->
    0 <= padding_x sh -> 0 <= padding_y sh ->
    0 <= sheet_x sh -> 0 <= sheet_y sh ->
    0 <= column < sprite_cols sh -> column < 2 ^ 7 ->
    0 <= row < sprite_rows sh -> row < 2 ^ 7 ->
    column < frames < 2 ^ 32 ->
    0 < period < 2 ^ 32 ->
    sheet_x sh + (column + 1) * stride_x < 2 ^ 31 ->
    sheet_y sh + (row + 1) * stride_y < 2 ^ 31 ->
    exists s1 s2,
      gfxDrawSprite (Some sh) column row x y s = Ret 0 s1 /\
      job_list s1 =
        job_list s ++
          [{| job_type := DRAW_LOADED_IMAGE_CROP;
              job_data :=
                Some (U_loaded_image_crop
                        {| crop_image := Some (sheet_image sh);
                           crop_x := to_sshort x; crop_y := to_sshort y;
                           crop_c_x := column * stride_x + padding_x sh;
                           crop_c_y := row * stride_y + padding_y sh;
                           crop_c_w := sprite_width sh;
                           crop_c_h := sprite_height sh |}) |}] /\
      gfxDrawAnimationDrawFrame (Some anim) 0 x y s =
        Ret (0, Some anim) s2 /\
      job_list s2 =
        job_list s ++
          [{| job_type := DRAW_LOADED_IMAGE_CROP;
              job_data :=
                Some (U_loaded_image_crop
                        {| crop_image := Some (sheet_image sh);
                           crop_x := to_int x; crop_y := to_int y;
                           crop_c_x := sheet_x sh + column * stride_x;
                           crop_c_y := sheet_y sh + row * stride_y;
                           crop_c_w := sprite_width sh;
                           crop_c_h := sprite_height sh |}) |}].
Proof.
  intros s sh i seqs name period frames column row x y stride_x stride_y
    anim Hfind Hplan Hsw Hsh Hpx Hpy Hx0 Hy0 Hcol Hcol7 Hrow Hrow7 Hfr Hper
    Hbx Hby.
  assert (Hsx : 0 <= stride_x) by (subst stride_x; lia).
  assert (Hsy : 0 <= stride_y) by (subst stride_y; lia).
  assert (Hcx : 0 <= column * stride_x) by nia.
  assert (Hcy : 0 <= row * stride_y) by nia.
  assert (Hwx : sprite_width sh < 2 ^ 31) by nia.
  assert (Hwy : sprite_height sh < 2 ^ 31) by nia.
  assert (Hqueue : forall d,
             exists s', 
               (call ok, s1 <- INIT_JOB DRAW_LOADED_IMAGE_CROP s ;;
                if ok then
                  call _u, s2 <- get_image (Some (sheet_image sh)) s1 ;;
                  Ret 0 (write_job DRAW_LOADED_IMAGE_CROP d s2)
                else Ret (-1) s1) = Ret 0 s' /\
               job_list s' =
                 job_list s ++ [{| job_type := DRAW_LOADED_IMAGE_CROP;
                                   job_data := Some d |}]).
  { intros d. unfold INIT_JOB, _pushDrawJob, calloc. rewrite Hplan.
    cbn [bind calloc_plan set_job set_job_list job_list].
    rewrite ?Hplan.
    cbn [bind calloc_plan set_job set_job_list job_list].
    unfold get_image, load_image.
    cbn [loaded_images_list set_job set_job_list]. rewrite Hfind.
    cbn [bind]. eexists. split; [reflexivity|].
    unfold write_job, set_job, store_image.
    cbn [job_list set_job_list set_loaded_images_list].
    rewrite !update_last_app. reflexivity. }
  assert (Hsprite : exists s1,
             gfxDrawSprite (Some sh) column row x y s = Ret 0 s1 /\
             job_list s1 =
               job_list s ++
                 [{| job_type := DRAW_LOADED_IMAGE_CROP;
                     job_data :=
                       Some (U_loaded_image_crop
                               {| crop_image := Some (sheet_image sh);
                                  crop_x := to_sshort x;
                                  crop_y := to_sshort y;
                                  crop_c_x :=
                                    column * stride_x + padding_x sh;
                                  crop_c_y := row * stride_y + padding_y sh;
                                  crop_c_w := sprite_width sh;
                                  crop_c_h := sprite_height sh |}) |}]).
  { unfold gfxDrawSprite.
    rewrite (to_schar_id column), (to_schar_id row) by lia.
    destruct (Z.ltb_spec column 0); [lia|].
    destruct (Z.ltb_spec row 0); [lia|].
    rewrite (to_uint_id column), (to_uint_id row) by lia.
    destruct (Z.gtb_spec column (sprite_cols sh)); [lia|].
    destruct (Z.gtb_spec row (sprite_rows sh)); [lia|].
    cbn [orb].
    rewrite (sprite_origin_value (sprite_width sh)) by (fold stride_x; lia).
    rewrite (sprite_origin_value (sprite_height sh)) by (fold stride_y; lia).
    rewrite (to_int_id (sprite_width sh)), (to_int_id (sprite_height sh))
      by lia.
    apply Hqueue. }
  destruct Hsprite as (s1 & Hs1 & Hq1).
  assert (Hanim : exists s2,
             gfxDrawAnimationDrawFrame (Some anim) 0 x y s =
               Ret (0, Some anim) s2 /\
             job_list s2 =
               job_list s ++
                 [{| job_type := DRAW_LOADED_IMAGE_CROP;
                     job_data :=
                       Some (U_loaded_image_crop
                               {| crop_image := Some (sheet_image sh);
                                  crop_x := to_int x; crop_y := to_int y;
                                  crop_c_x := sheet_x sh + column * stride_x;
                                  crop_c_y := sheet_y sh + row * stride_y;
                                  crop_c_w := sprite_width sh;
                                  crop_c_h := sprite_height sh |}) |}]).
  { unfold gfxDrawAnimationDrawFrame.
    assert (Hadv : advance_frame anim 0 = Some anim).
    { unfold advance_frame, anim, uint_add.
      cbn [cur_frame_timestamp prev_frame_timestamp frame_period_ms
           inst_sequence seq_frames current_frame].
      change (to_uint (0 + to_uint 0)) with 0.
      rewrite (to_uint_id (0 + period)) by lia.
      destruct (Z.gtb_spec 0 (0 + period)); [lia|]. reflexivity. }
    rewrite Hadv.
    assert (Hcrop : frame_crop anim =
                    Some (sheet_x sh + column * stride_x,
                          sheet_y sh + row * stride_y)).
    { unfold frame_crop, anim.
      cbn [inst_image inst_sequence anim_spritesheet seq_frames
           seq_direction current_frame seq_start_col seq_start_row].
      destruct (Z.eqb_spec frames 0); [lia|].
      unfold uint_add, uint_mul.
      change (to_uint 0) with 0.
      rewrite (to_uint_id (0 + column)) by lia.
      rewrite (Z.mod_small (0 + column) frames) by lia.
      rewrite (to_uint_id (padding_x sh * 2)),
              (to_uint_id (padding_y sh * 2)) by nia.
      replace (sprite_width sh + padding_x sh * 2) with stride_x
        by (subst stride_x; ring).
      replace (sprite_height sh + padding_y sh * 2) with stride_y
        by (subst stride_y; ring).
      rewrite (to_uint_id stride_x), (to_uint_id stride_y) by nia.
      rewrite (to_uint_id ((0 + column) * stride_x)) by nia.
      rewrite (to_uint_id (row * stride_y)) by nia.
      rewrite (to_uint_id (sheet_x sh + (0 + column) * stride_x)) by nia.
      rewrite (to_uint_id (sheet_y sh + row * stride_y)) by nia.
      rewrite !to_int_id by nia. reflexivity. }
    rewrite Hcrop.
    cbn [inst_image anim_spritesheet anim].
    change (anim_spritesheet (inst_image anim)) with sh.
    rewrite (to_int_id (sprite_width sh)), (to_int_id (sprite_height sh))
      by lia.
    destruct (Hqueue (U_loaded_image_crop
                        {| crop_image := Some (sheet_image sh);
                           crop_x := to_int x; crop_y := to_int y;
                           crop_c_x := sheet_x sh + column * stride_x;
                           crop_c_y := sheet_y sh + row * stride_y;
                           crop_c_w := sprite_width sh;
                           crop_c_h := sprite_height sh |}))
      as (s2 & Hrun & Hq2).
    exists s2. split; [|exact Hq2].
    unfold bind in Hrun |- *.
    destruct (INIT_JOB DRAW_LOADED_IMAGE_CROP s) as [[|] sj| |];
      try discriminate Hrun.
    destruct (get_image (Some (sheet_image sh)) sj) as [u sg| |];
      try discriminate Hrun.
    injection Hrun as <-. reflexivity. }
  destruct Hanim as (s2 & Hs2 & Hq2).
  exists s1, s2. repeat split; assumption.
Qed.

Lemma sprite_and_animation_crops_differ_witness :
  let first :=
    {| frame_period_ms := 100; current_frame := 0;
       prev_frame_timestamp := 0; cur_frame_timestamp := 0;
       inst_image := {| anim_spritesheet := Scenes.strip;
                        anim_sequences := [] |};
       inst_sequence :=
         {| seq_name := "last"%string; seq_start_row := 0;
            seq_start_col := 2;
            seq_direction := SPRITE_SEQUENCE_HORIZONTAL_POS;
            seq_frames := 3 |} |} in
  exists s1 s2,
    gfxDrawSprite (Some Scenes.strip) 2 0 0 0 Animation.stage = Ret 0 s1 /\
    job_list s1 =
      [{| job_type := DRAW_LOADED_IMAGE_CROP;
          job_data :=
            Some (U_loaded_image_crop
                    {| crop_image := Some 1; crop_x := 0; crop_y := 0;
                       crop_c_x := 74; crop_c_y := 0;
                       crop_c_w := 32; crop_c_h := 32 |}) |}] /\
    gfxDrawAnimationDrawFrame (Some first) 0 0 0 Animation.stage =
      Ret (0, Some first) s2 /\
    job_list s2 =
      [{| job_type := DRAW_LOADED_IMAGE_CROP;
          job_data :=
            Some (U_loaded_image_crop
                    {| crop_image := Some 1; crop_x := 0; crop_y := 0;
                       crop_c_x := 82; crop_c_y := 0;
                       crop_c_w := 32; crop_c_h := 32 |}) |}].
Proof.
  intros first.
  destruct (sprite_and_animation_crops_differ Animation.stage Scenes.strip
              Animation.hero [] "last" 100 3 2 0 0 0 eq_refl eq_refl
              ltac:(cbn; lia) ltac:(cbn; lia) ltac:(cbn; lia)
              ltac:(cbn; lia) ltac:(cbn; lia) ltac:(cbn; lia)
              ltac:(cbn; lia) ltac:(lia) ltac:(cbn; lia) ltac:(lia)
              ltac:(lia) ltac:(lia) ltac:(cbn; lia) ltac:(cbn; lia))
    as (s1 & s2 & H1 & H2 & H3 & H4).
  exists s1, s2. split; [exact H1|]. split; [exact H2|].
  split; [exact H3|exact H4].
Defined.

(** ** Animation timing *)

Lemma to_uint_to_int z : to_uint (to_int z) = to_uint z.
Proof.
  unfold to_uint, to_int.
  replace ((z + 2 ^ 31) mod 2 ^ 32 - 2 ^ 31)
    with (z + (- ((z + 2 ^ 31) / 2 ^ 32)) * 2 ^ 32)
    by (pose proof (Z.div_mod (z + 2 ^ 31) (2 ^ 32) ltac:(lia)); lia).
  apply Z.mod_add. lia.
Qed.

Lemma advance_frame_forward anim ms :
  is_forward (seq_direction (inst_sequence anim)) = true ->
  0 < frame_period_ms anim ->
  0 < seq_frames (inst_sequence anim) < 2 ^ 31 ->
  on_the_beat anim ->
  0 <= ms ->
  cur_frame_timestamp anim + ms + frame_period_ms anim
    + seq_frames (inst_sequence anim) < 2 ^ 32 ->
  exists anim',
    advance_frame anim ms = Some anim' /\
    on_the_beat anim' /\
    cur_frame_timestamp anim' = cur_frame_timestamp anim + ms /\
    frame_period_ms anim' = frame_period_ms anim /\
    inst_sequence anim' = inst_sequence anim.
Proof.
  intros Hdir Hp Hn (Hpc & Hcp & Hmod & Hcf) Hms Hbound.
  unfold advance_frame, uint_add, uint_sub, uint_mul.
  set (p := frame_period_ms anim) in *.
  set (n := seq_frames (inst_sequence anim)) in *.
  set (prev := prev_frame_timestamp anim) in *.
  set (cur := cur_frame_timestamp anim) in *.
  rewrite (to_uint_id ms) by lia.
  rewrite (to_uint_id (cur + ms)) by lia.
  rewrite (to_uint_id (prev + p)) by lia.
  destruct (Z.gtb_spec (cur + ms) (prev + p)) as [Hgt|Hle].
  - destruct (Z.eqb_spec p 0); [lia|].
    rewrite (to_uint_id (cur + ms - prev)) by lia.
    set (k := (cur + ms - prev) / p).
    assert (Hk : 1 <= k) by (apply Z.div_le_lower_bound; lia).
    assert (Hkp : k * p <= cur + ms - prev)
      by (pose proof (Z.mul_div_le (cur + ms - prev) p ltac:(lia)); lia).
    assert (Hrem : cur + ms - prev - k * p < p).
    { pose proof (Z.mod_pos_bound (cur + ms - prev) p ltac:(lia)) as Hm.
      rewrite Z.mod_eq in Hm by lia. fold k in Hm. lia. }
    assert (Hk_le : k <= cur + ms) by nia.
    rewrite (to_uint_id (k * p)) by nia.
    rewrite (to_uint_id (prev + k * p)) by lia.
    assert (Hcf_b : 0 <= current_frame anim < n)
      by (rewrite Hcf; apply Z.mod_pos_bound; lia).
    rewrite (to_uint_id (current_frame anim)) by lia.
    rewrite (to_uint_id (current_frame anim + k)) by lia.
    rewrite to_uint_to_int.
    rewrite (to_uint_id (current_frame anim + k)) by lia.
    destruct (seq_direction (inst_sequence anim)); try discriminate Hdir;
      (destruct (Z.eqb_spec n 0); [lia|]);
      (eexists; split; [reflexivity|]);
      (split; [|repeat split; reflexivity]);
      unfold on_the_beat;
      cbn [frame_period_ms prev_frame_timestamp cur_frame_timestamp
           current_frame inst_sequence set_timing];
      fold p n;
      (split; [lia|]); (split; [lia|]);
      (split; [rewrite Z.mod_add by lia; exact Hmod|]);
      rewrite Z.div_add by lia;
      rewrite Hcf, Zplus_mod_idemp_l;
      apply to_int_id;
      pose proof (Z.mod_pos_bound (prev / p + k) n ltac:(lia)); lia.
  - eexists. split; [reflexivity|].
    split; [|repeat split; reflexivity].
    unfold on_the_beat.
    cbn [frame_period_ms prev_frame_timestamp cur_frame_timestamp
         current_frame inst_sequence set_timing].
    fold p n prev. repeat split; try lia; assumption.
Qed.

(** X22. A sequence played forwards from the state
    [gfxDrawAnimationSequenceInstantiate] gives it: after any number of
    calls of [gfxDrawAnimationDrawFrame] the clock of the instance is the
    sum of the time steps, the time stamp of the last frame change is a
    whole number of periods at most one period behind the clock, and the
    frame is that number of periods modulo the length of the sequence.
    The time left over by a frame change is kept for the next one. *)
Theorem forward_frame_counts_whole_periods :
  forall (steps : list Z) (anim : animated_sequence_instance_t),
    is_forward (seq_direction (inst_sequence anim)) = true ->
    0 < frame_period_ms anim ->
    0 < seq_frames (inst_sequence anim) < 2 ^ 31 ->
    on_the_beat anim ->
    Forall (fun ms => 0 <= ms) steps ->
    cur_frame_timestamp anim + fold_right Z.add 0 steps
      + frame_period_ms anim + seq_frames (inst_sequence anim) < 2 ^ 32 ->
    exists anim',
      advance_all anim steps = Some anim' /\
      on_the_beat anim' /\
      cur_frame_timestamp anim' =
        cur_frame_timestamp anim + fold_right Z.add 0 steps /\
      frame_period_ms anim' = frame_period_ms anim /\
      inst_sequence anim' = inst_sequence anim.
Proof.
  induction steps as [|ms steps IH]; intros anim Hdir Hp Hn Hinv Hpos Hbound.
  - exists anim. cbn. repeat split; try apply Hinv. lia.
  - inversion Hpos as [|? ? Hms Hpos']; subst.
    cbn [fold_right] in Hbound.
    assert (Hsum : 0 <= fold_right Z.add 0 steps).
    { clear -Hpos'. induction Hpos'; cbn; lia. }
    destruct (advance_frame_forward anim ms Hdir Hp Hn Hinv Hms
                ltac:(lia)) as (a1 & Hstep & Hinv1 & Hcur1 & Hp1 & Hs1).
    destruct (IH a1) as (a2 & Hall & Hinv2 & Hcur2 & Hp2 & Hs2).
    + rewrite Hs1. exact Hdir.
    + rewrite Hp1. exact Hp.
    + rewrite Hs1. exact Hn.
    + exact Hinv1.
    + exact Hpos'.
    + rewrite Hcur1, Hp1, Hs1. lia.
    + exists a2. cbn [advance_all]. rewrite Hstep.
      split; [exact Hall|]. split; [exact Hinv2|].
      split; [rewrite Hcur2, Hcur1; cbn [fold_right]; lia|].
      split; [rewrite Hp2; exact Hp1|rewrite Hs2; exact Hs1].
Qed.

Lemma gfxDrawAnimationDrawFrame_timing anim ms x y s rc a s' :
  gfxDrawAnimationDrawFrame (Some anim) ms x y s = Ret (rc, a) s' ->
  a = advance_frame anim ms.
Proof.
  unfold gfxDrawAnimationDrawFrame, bind. intros H.
  destruct (advance_frame anim ms) as [anim'|]; [|discriminate H].
  repeat (break_in H; try discriminate H); invert_ret; reflexivity.
Qed.

Lemma forward_frame_counts_whole_periods_witness :
  exists anim',
    advance_all Scenes.forward [250; 100] = Some anim' /\
    current_frame anim' = 3 /\
    prev_frame_timestamp anim' = 300 /\
    cur_frame_timestamp anim' = 350.
Proof.
  destruct (forward_frame_counts_whole_periods [250; 100] Scenes.forward
              eq_refl ltac:(cbn; lia) ltac:(cbn; lia)
              ltac:(unfold on_the_beat; cbn; lia)
              ltac:(repeat constructor; lia) ltac:(cbn; lia))
    as (a & H & _ & Hcur & _).
  exists a. split; [exact H|].
  vm_compute in H. injection H as <-. repeat split; reflexivity.
Defined.

Lemma advance_frame_backward anim ms :
  is_forward (seq_direction (inst_sequence anim)) = false ->
  0 < frame_period_ms anim ->
  0 <= prev_frame_timestamp anim <= cur_frame_timestamp anim ->
  0 <= ms ->
  cur_frame_timestamp anim + ms + frame_period_ms anim < 2 ^ 32 ->
  current_frame anim < -1 ->
  - 2 ^ 31 <= current_frame anim
              - (cur_frame_timestamp anim + ms - prev_frame_timestamp anim) ->
  exists anim',
    advance_frame anim ms = Some anim' /\
    current_frame anim' <= current_frame anim /\
    current_frame anim - current_frame anim'
      <= prev_frame_timestamp anim' - prev_frame_timestamp anim /\
    0 <= prev_frame_timestamp anim' <= cur_frame_timestamp anim' /\
    prev_frame_timestamp anim <= prev_frame_timestamp anim' /\
    cur_frame_timestamp anim' = cur_frame_timestamp anim + ms /\
    frame_period_ms anim' = frame_period_ms anim /\
    inst_sequence anim' = inst_sequence anim.
Proof.
  intros Hdir Hp Hpc Hms Hbound Hneg Hlow.
  unfold advance_frame, uint_add, uint_sub, uint_mul.
  set (p := frame_period_ms anim) in *.
  set (prev := prev_frame_timestamp anim) in *.
  set (cur := cur_frame_timestamp anim) in *.
  set (cf := current_frame anim) in *.
  rewrite (to_uint_id ms) by lia.
  rewrite (to_uint_id (cur + ms)) by lia.
  rewrite (to_uint_id (prev + p)) by lia.
  destruct (Z.gtb_spec (cur + ms) (prev + p)) as [Hgt|Hle].
  - destruct (Z.eqb_spec p 0); [lia|].
    rewrite (to_uint_id (cur + ms - prev)) by lia.
    set (k := (cur + ms - prev) / p).
    assert (Hk : 1 <= k) by (apply Z.div_le_lower_bound; lia).
    assert (Hkp : k * p <= cur + ms - prev)
      by (pose proof (Z.mul_div_le (cur + ms - prev) p ltac:(lia)); lia).
    assert (Hk_le : k <= cur + ms - prev) by nia.
    rewrite (to_uint_id (k * p)) by nia.
    rewrite (to_uint_id (prev + k * p)) by lia.
    assert (Ecf : to_int (to_uint (to_uint cf - k)) = cf - k).
    { unfold to_uint. rewrite Zminus_mod_idemp_l.
      change ((cf - k) mod 2 ^ 32) with (to_uint (cf - k)).
      rewrite <- to_uint_to_int. rewrite (to_int_id (cf - k)) by lia.
      unfold to_int, to_uint. rewrite Zplus_mod_idemp_l.
      change (((cf - k + 2 ^ 31) mod 2 ^ 32) - 2 ^ 31) with (to_int (cf - k)).
      apply to_int_id. lia. }
    rewrite Ecf.
    destruct (Z.eqb_spec (cf - k) (-1)) as [E|_]; [lia|].
    destruct (seq_direction (inst_sequence anim)); try discriminate Hdir;
      (eexists; split; [reflexivity|]);
      cbn [frame_period_ms prev_frame_timestamp cur_frame_timestamp
           current_frame inst_sequence set_timing];
      fold cf prev;
      repeat split; try lia; nia.
  - eexists. split; [reflexivity|].
    cbn [frame_period_ms prev_frame_timestamp cur_frame_timestamp
         current_frame inst_sequence set_timing].
    fold cf prev. repeat split; lia.
Qed.

(** X23. A sequence played backwards only turns frame [-1] into the last
    frame.  Once a frame change skipped past that (the frame number is
    below [-1], which happens when more than one period elapsed at frame
    0), the calls of [gfxDrawAnimationDrawFrame] that follow do not bring
    the frame number back into the sequence, as long as neither the
    32-bit clock nor the [int] frame counter can wrap around (the clock
    after the last call, plus one period, is below [2 ^ 32], and the
    frame number minus the milliseconds that elapse is at least
    [- 2 ^ 31]): the frame stays below [-1] and never increases. *)
Theorem backward_skip_is_never_recovered :
  forall (steps : list Z) (anim : animated_sequence_instance_t),
    is_forward (seq_direction (inst_sequence anim)) = false ->
    0 < frame_period_ms anim ->
    0 <= prev_frame_timestamp anim <= cur_frame_timestamp anim ->
    Forall (fun ms => 0 <= ms) steps ->
    cur_frame_timestamp anim + fold_right Z.add 0 steps
      + frame_period_ms anim < 2 ^ 32 ->
    current_frame anim < -1 ->
    - 2 ^ 31 <= current_frame anim
                - (cur_frame_timestamp anim + fold_right Z.add 0 steps
                   - prev_frame_timestamp anim) ->
    exists anim',
      advance_all anim steps = Some anim' /\
      current_frame anim' <= current_frame anim /\
      current_frame anim' < -1.
Proof.
  induction steps as [|ms steps IH];
    intros anim Hdir Hp Hpc Hpos Hbound Hneg Hlow.
  - exists anim. cbn. repeat split; lia.
  - inversion Hpos as [|? ? Hms Hpos']; subst.
    cbn [fold_right] in Hbound, Hlow.
    assert (Hsum : 0 <= fold_right Z.add 0 steps).
    { clear -Hpos'. induction Hpos'; cbn; lia. }
    destruct (advance_frame_backward anim ms Hdir Hp Hpc Hms
                ltac:(lia) Hneg ltac:(lia))
      as (a1 & Hstep & Hle & Hge & Hpc1 & Hprev1 & Hcur1 & Hp1 & Hs1).
    destruct (IH a1) as (a2 & Hall & Hle2 & Hneg2).
    + rewrite Hs1. exact Hdir.
    + rewrite Hp1. exact Hp.
    + exact Hpc1.
    + exact Hpos'.
    + rewrite Hcur1, Hp1. lia.
    + lia.
    + rewrite Hcur1. lia.
    + exists a2. cbn [advance_all]. rewrite Hstep.
      split; [exact Hall|]. split; lia.
Qed.

Lemma backward_skip_is_never_recovered_witness :
  let fresh := Animation.instance Animation.walk "walk" 0 0 in
  let skipped := set_timing (-2) 200 250 fresh in
  advance_frame fresh 250 = Some skipped /\
  exists anim',
    advance_all skipped [100; 100] = Some anim' /\
    current_frame anim' = -4.
Proof.
  intros fresh skipped. split; [vm_compute; reflexivity|].
  destruct (backward_skip_is_never_recovered [100; 100] skipped
              eq_refl ltac:(cbn; lia) ltac:(cbn; lia)
              ltac:(repeat constructor; lia) ltac:(cbn; lia)
              ltac:(cbn; lia) ltac:(cbn; lia))
    as (a & H & _).
  exists a. split; [exact H|].
  vm_compute in H. injection H as <-. reflexivity.
Defined.

(** The bound on the frame counter is needed: a step long enough to
    make the counter wrap around brings the frame back. *)
Example backward_frame_counter_wraps :
  let skipped :=
    {| frame_period_ms := 1; current_frame := -2;
       prev_frame_timestamp := 0; cur_frame_timestamp := 0;
       inst_image := Animation.walk;
       inst_sequence :=
         {| seq_name := "walk"%string; seq_start_row := 0;
            seq_start_col := 0;
            seq_direction := SPRITE_SEQUENCE_HORIZONTAL_NEG;
            seq_frames := 4 |} |} in
  advance_frame skipped 4294967292 =
    Some (set_timing 2 4294967292 4294967292 skipped).
Proof. vm_compute. reflexivity. Qed.

(** ** Sequences of an animation *)

Lemma find_snoc {A : Type} (f : A -> bool) (l : list A) (x : A) :
  find f (l ++ [x]) =
    match find f l with
    | Some y => Some y
    | None => if f x then Some x else None
    end.
Proof.
  induction l as [|y l IH]; cbn; [reflexivity|].
  destruct (f y); [reflexivity|exact IH].
Qed.

(** X24. [gfxDrawAnimationAddSequence] links the new sequence behind the
    ones the animation has, and
    [gfxDrawAnimationSequenceInstantiate] takes the first sequence with
    the name asked for: a sequence added under a name that is already
    used is never instantiated, and a sequence added under a new name is
    the one instantiated for that name, at frame 0 with both time stamps
    zero. *)
Theorem added_sequence_is_found_unless_shadowed :
  forall (s : state) (anim : animated_image_t) (name nm : string)
         (start_row start_col frames period : Z)
         (dir : sprite_sequence_direction),
    calloc_plan s = [] ->
    to_uint period <> 0 ->
    let sq := {| seq_name := name; seq_start_row := to_uint start_row;
                 seq_start_col := to_uint start_col; seq_direction := dir;
                 seq_frames := to_uint frames |} in
    let anim' := {| anim_spritesheet := anim_spritesheet anim;
                    anim_sequences := anim_sequences anim ++ [sq] |} in
    let instance_of it :=
      {| frame_period_ms := to_uint period; current_frame := 0;
         prev_frame_timestamp := 0; cur_frame_timestamp := 0;
         inst_image := anim'; inst_sequence := it |} in
    gfxDrawAnimationAddSequence (Some anim) (Some name) start_row start_col
      dir frames s = Ret (0, Some anim') s /\
    gfxDrawAnimationSequenceInstantiate (Some anim') (Some nm) period s =
      match find (fun it => String.eqb (seq_name it) nm)
                 (anim_sequences anim) with
      | Some it => Ret (Some (instance_of it)) s
      | None =>
          if String.eqb name nm then Ret (Some (instance_of sq)) s
          else Ret None s
      end.
Proof.
  intros s anim name nm start_row start_col frames period dir Hplan Hper
    sq anim' instance_of.
  split.
  - unfold gfxDrawAnimationAddSequence, calloc. rewrite Hplan.
    cbv beta iota. rewrite Hplan. reflexivity.
  - unfold gfxDrawAnimationSequenceInstantiate, calloc.
    apply Z.eqb_neq in Hper. rewrite Hper, Hplan.
    cbn [anim_sequences anim']. rewrite find_snoc.
    destruct (find _ (anim_sequences anim)); [reflexivity|].
    cbn [seq_name sq]. destruct (String.eqb name nm); reflexivity.
Qed.

Lemma added_sequence_is_found_unless_shadowed_witness :
  let anim' := {| anim_spritesheet := Animation.sheet;
                  anim_sequences :=
                    [Scenes.run;
                     {| seq_name := "run"%string; seq_start_row := 1;
                        seq_start_col := 0;
                        seq_direction := SPRITE_SEQUENCE_HORIZONTAL_NEG;
                        seq_frames := 2 |}] |} in
  gfxDrawAnimationCreate (Some Animation.sheet) Demo.boot =
    Ret (Some {| anim_spritesheet := Animation.sheet;
                 anim_sequences := [] |}) Demo.boot /\
  gfxDrawAnimationAddSequence
    (Some {| anim_spritesheet := Animation.sheet; anim_sequences := [] |})
    (Some "run"%string) 0 0 SPRITE_SEQUENCE_HORIZONTAL_POS 4 Demo.boot =
    Ret (0, Some Scenes.runner) Demo.boot /\
  gfxDrawAnimationAddSequence (Some Scenes.runner) (Some "run"%string) 1 0
    SPRITE_SEQUENCE_HORIZONTAL_NEG 2 Demo.boot = Ret (0, Some anim') Demo.boot
  /\
  gfxDrawAnimationSequenceInstantiate (Some anim') (Some "run"%string) 100
    Demo.boot =
    Ret (Some {| frame_period_ms := 100; current_frame := 0;
                 prev_frame_timestamp := 0; cur_frame_timestamp := 0;
                 inst_image := anim'; inst_sequence := Scenes.run |})
        Demo.boot.
Proof.
  intros anim'. split; [reflexivity|]. split; [reflexivity|].
  exact (added_sequence_is_found_unless_shadowed Demo.boot Scenes.runner
           "run" "run" 1 0 2 100 SPRITE_SEQUENCE_HORIZONTAL_NEG eq_refl
           ltac:(vm_compute; discriminate)).
Defined.

(** ** The frame drawn after a reset *)

Lemma frame_crop_index anim :
  seq_frames (inst_sequence anim) <> 0 ->
  let sheet := anim_spritesheet (inst_image anim) in
  let sq := inst_sequence anim in
  let stride_x := uint_add (sprite_width sheet)
                           (uint_mul (padding_x sheet) 2) in
  let stride_y := uint_add (sprite_height sheet)
                           (uint_mul (padding_y sheet) 2) in
  frame_crop anim =
    Some (if is_horizontal (seq_direction sq) then
            (to_int (uint_add (sheet_x sheet)
                       (uint_mul (cur_frame_index_offset anim) stride_x)),
             to_int (uint_add (sheet_y sheet)
                       (uint_mul (seq_start_row sq) stride_y)))
          else
            (to_int (uint_add (sheet_x sheet)
                       (uint_mul (seq_start_col sq) stride_x)),
             to_int (uint_add (sheet_y sheet)
                       (uint_mul (cur_frame_index_offset anim) stride_y)))).
Proof.
  intros Hn. cbv zeta. unfold frame_crop, cur_frame_index_offset,
    sequence_start.
  apply Z.eqb_neq in Hn. rewrite Hn.
  destruct (seq_direction (inst_sequence anim)); reflexivity.
Qed.

(** X25. [gfxDrawAnimationReset] puts both time stamps back to zero and
    sets the frame to the start of the sequence, while a new instance is
    at frame 0; as the frame is added to the start when the cell is
    computed, a reset instance is drawn from cell [2 * start mod frames]
    and a new one from cell [start mod frames]. *)
Theorem reset_counts_the_start_twice :
  forall (anim : animated_sequence_instance_t),
    let sq := inst_sequence anim in
    0 < seq_frames sq ->
    0 <= sequence_start sq < 2 ^ 31 ->
    let reset := gfxDrawAnimationReset anim in
    let new := set_timing 0 0 0 anim in
    prev_frame_timestamp reset = 0 /\
    cur_frame_timestamp reset = 0 /\
    current_frame reset = sequence_start sq /\
    cur_frame_index_offset reset =
      (2 * sequence_start sq) mod seq_frames sq /\
    cur_frame_index_offset new = sequence_start sq mod seq_frames sq.
Proof.
  intros anim sq Hn Hst reset new.
  assert (Hreset : reset = set_timing (to_int (sequence_start sq)) 0 0 anim).
  { subst reset sq. unfold gfxDrawAnimationReset, sequence_start.
    destruct (seq_direction (inst_sequence anim)); reflexivity. }
  rewrite Hreset. unfold cur_frame_index_offset, uint_add.
  cbn [prev_frame_timestamp cur_frame_timestamp current_frame set_timing
       inst_sequence new].
  fold sq. rewrite (to_int_id (sequence_start sq)) by lia.
  rewrite (to_uint_id (sequence_start sq)) by lia.
  rewrite (to_uint_id 0) by lia.
  rewrite (to_uint_id (sequence_start sq + sequence_start sq)) by lia.
  rewrite (to_uint_id (0 + sequence_start sq)) by lia.
  repeat split; f_equal; lia.
Qed.

Lemma reset_counts_the_start_twice_witness :
  cur_frame_index_offset (gfxDrawAnimationReset Scenes.jump) = 2 /\
  cur_frame_index_offset (set_timing 0 0 0 Scenes.jump) = 1 /\
  option_map fst (frame_crop (gfxDrawAnimationReset Scenes.jump)) = Some 64 /\
  option_map fst (frame_crop (set_timing 0 0 0 Scenes.jump)) = Some 32.
Proof.
  destruct (reset_counts_the_start_twice Scenes.jump ltac:(cbn; lia)
              ltac:(cbn; lia)) as (_ & _ & _ & H1 & H2).
  split; [exact H1|]. split; [exact H2|].
  split; vm_compute; reflexivity.
Defined.
